(** * ReactiveS3: a shallow embedding of the client-side S3 index

    The development follows [frontend/src/state/ReactiveS3.ts]:
    the topic sanitiser [makeTopicPubSubSafe], the index [ReactiveIndex]
    that mirrors the remote key space, the path-scoped view
    [ReactiveCursor] and the debounced document [ReactiveJsonFile].

    Modelling conventions.
    - A JavaScript string is a [string], one character per code unit,
      and [s.length] is [String.length s]; paths and keys are taken in
      the 8-bit range.
    - A JavaScript [Map] iterates in insertion order and that order is
      observable (listener order, array spreading), so a [Map<string, V>]
      is an association list with the [set]/[delete] discipline of the
      ECMAScript specification, not an extensional finite map.
    - A [Date] is its epoch-millisecond value in [Z]; a [size] is an
      integer in [Z], and sizes are added as doubles ([JsNumber.add]).
    - Callbacks registered by observers are opaque: a listener is an
      identifier and calling it appends to a trace of effects.
    - A promise is represented by the way it settles. *)

From Stdlib Require Import String Ascii List ZArith Lia Bool Arith.
From Stdlib Require Import Permutation Sorted OrderedTypeEx.
Import ListNotations.

Local Open Scope list_scope.
Local Open Scope string_scope.

Set Implicit Arguments.

(** ** JavaScript strings *)

Module JsString.

(** [s.startsWith(p)] *)
Definition startsWith (s p : string) : bool := String.prefix p s.

(** [s.endsWith("/")], for a one-character needle *)
Fixpoint endsWithChar (s : string) (c : ascii) : bool :=
  match s with
  | EmptyString => false
  | String a EmptyString => Ascii.eqb a c
  | String _ s' => endsWithChar s' c
  end.

(** [s.substring(n)] *)
Fixpoint substringFrom (n : nat) (s : string) : string :=
  match n, s with
  | O, _ => s
  | S n', String _ s' => substringFrom n' s'
  | S _, EmptyString => EmptyString
  end.

(** [s.substring(0, n)] *)
Fixpoint substringTo (n : nat) (s : string) : string :=
  match n, s with
  | O, _ => EmptyString
  | S n', String a s' => String a (substringTo n' s')
  | S _, EmptyString => EmptyString
  end.

(** [s.split(c)] for a one-character separator; never the empty array *)
Fixpoint split (c : ascii) (s : string) : list string :=
  match s with
  | EmptyString => [EmptyString]
  | String a s' =>
      if Ascii.eqb a c then EmptyString :: split c s'
      else match split c s' with
           | [] => [String a EmptyString]
           | seg :: segs => String a seg :: segs
           end
  end.

(** [parts[0]] of a split: the text before the first separator *)
Fixpoint firstSegment (c : ascii) (s : string) : string :=
  match s with
  | EmptyString => EmptyString
  | String a s' => if Ascii.eqb a c then EmptyString
                   else String a (firstSegment c s')
  end.

(** the separator does not occur in [s] *)
Fixpoint free (c : ascii) (s : string) : bool :=
  match s with
  | EmptyString => true
  | String a s' => negb (Ascii.eqb a c) && free c s'
  end.

End JsString.

Definition slash : ascii := "/"%char.

(** ** Topic sanitising: [makeTopicPubSubSafe] *)

Definition MAX_TOPIC_LEN : nat := 80.

(** The [while] loop of [makeTopicPubSubSafe]; [segments] is the part of
    the array from [segmentCursor] on. *)
Fixpoint makeTopicPubSubSafe_loop (segments : list string)
    (segmentCursor : nat) (reconstructed : string) : string :=
  match segments with
  | [] => reconstructed
  | segment :: rest =>
      let proposedNext :=
        (if (0 <? segmentCursor)%nat then reconstructed ++ "/" else reconstructed)
          ++ segment in
      if (String.length proposedNext <? MAX_TOPIC_LEN)%nat
      then makeTopicPubSubSafe_loop rest (S segmentCursor) proposedNext
      else reconstructed
  end.

Definition makeTopicPubSubSafe (path : string) : string :=
  if (MAX_TOPIC_LEN <? String.length path)%nat then
    let segments := JsString.split slash path in
    if (MAX_TOPIC_LEN <? String.length (hd EmptyString segments))%nat
    then JsString.substringTo MAX_TOPIC_LEN (hd EmptyString segments)
    else makeTopicPubSubSafe_loop segments 0 EmptyString
  else path.

Definition ensurePathEndsWithSlash (path : string) : string :=
  if JsString.endsWithChar path slash || (String.length path =? 0)%nat
  then path else path ++ "/".

(** ** JavaScript [Map] with string keys

    Insertion-ordered: [set] on a present key overwrites the value in
    place, on an absent key appends; [delete] removes the entry;
    [forEach] visits the entries in list order. *)

Module JsMap.
Section Ops.
Variable V : Type.

Definition t : Type := list (string * V).

Definition empty : t := [].

Fixpoint get (m : t) (k : string) : option V :=
  match m with
  | [] => None
  | (k', v) :: m' => if String.eqb k' k then Some v else get m' k
  end.

Definition has (m : t) (k : string) : bool :=
  match get m k with Some _ => true | None => false end.

Fixpoint set (m : t) (k : string) (v : V) : t :=
  match m with
  | [] => [(k, v)]
  | (k', v') :: m' =>
      if String.eqb k' k then (k', v) :: m' else (k', v') :: set m' k v
  end.

Fixpoint delete (m : t) (k : string) : t :=
  match m with
  | [] => []
  | (k', v') :: m' =>
      if String.eqb k' k then m' else (k', v') :: delete m' k
  end.

Definition keys (m : t) : list string := map fst m.
Definition values (m : t) : list V := map snd m.
Definition size (m : t) : nat := List.length m.

(** Every [Map] value is built from [new Map()] by [set] and
    [delete], hence has pairwise distinct keys. *)
Definition wf (m : t) : Prop := NoDup (keys m).

(** Two maps with the same bindings, whatever the insertion order. *)
Definition same_bindings (m1 m2 : t) : Prop :=
  forall k, get m1 k = get m2 k.
End Ops.

Arguments empty {V}.
End JsMap.

(** ** [Array.prototype.sort] without a comparator

    Elements are ordered by the code units of their string conversion;
    the sort is stable. *)

Module JsArray.
Section Sort.
Variable A : Type.
Variable toString : A -> string.

Fixpoint insert (x : A) (l : list A) : list A :=
  match l with
  | [] => [x]
  | y :: l' =>
      if String.leb (toString x) (toString y) then x :: y :: l'
      else y :: insert x l'
  end.

Definition sort (l : list A) : list A := fold_right insert [] l.
End Sort.

(** [sort(compareFn)] with an explicit three-way comparator, stable. *)
Section SortBy.
Variable A : Type.
Variable compareFn : A -> A -> comparison.

Fixpoint insertBy (x : A) (l : list A) : list A :=
  match l with
  | [] => [x]
  | y :: l' =>
      match compareFn x y with
      | Gt => y :: insertBy x l'
      | _ => x :: y :: l'
      end
  end.

Definition sortBy (l : list A) : list A := fold_right insertBy [] l.
End SortBy.
End JsArray.

(** ** Numbers: [+] on sizes

    A size is a number whose value is an integer, held in [Z].  The
    sum of two finite numbers is the exact sum rounded to the nearest
    double, ties to the even significand of 53 bits; from
    [2^1024 - 2^970] on the sum is [Infinity], which is held as
    [2^1024] (and [-Infinity] as its opposite).  An infinity absorbs
    any finite number.  [NaN] is not represented: the sum produces it
    only from two opposite infinities, that is, from a file whose own
    size is already infinite. *)

Module JsNumber.

Definition INFINITY : Z := (2 ^ 1024)%Z.

(** [Number.MAX_SAFE_INTEGER + 1], up to which every integer is a
    double. *)
Definition EXACT : Z := 9007199254740992%Z.

Definition isFinite (x : Z) : bool := (Z.abs x <? INFINITY)%Z.

(** The double nearest to the non-negative integer [m]. *)
Definition roundMagnitude (m : Z) : Z :=
  if (m <? EXACT)%Z then m
  else
    let shift := (Z.log2 m - 52)%Z in
    let q := Z.shiftr m shift in
    let r := (m - Z.shiftl q shift)%Z in
    let half := Z.shiftl 1 (shift - 1) in
    let q := if (half <? r)%Z || ((half =? r)%Z && Z.odd q)
             then (q + 1)%Z else q in
    Z.min INFINITY (Z.shiftl q shift).

Definition round (x : Z) : Z := (Z.sgn x * roundMagnitude (Z.abs x))%Z.

(** [a + b] *)
Definition add (a b : Z) : Z :=
  if negb (isFinite a) then a
  else if negb (isFinite b) then b
  else round (a + b).

End JsNumber.

(** ** Records of the index *)

Record ReactiveFileMetadata : Type := {
  key : string;
  lastModified : Z;
  size : Z
}.

Definition ReactiveFileMetadata_eqb (a b : ReactiveFileMetadata) : bool :=
  String.eqb (key a) (key b)
  && Z.eqb (lastModified a) (lastModified b)
  && Z.eqb (size a) (size b).

(** An entry of [S3ProviderListOutput]: every field may be missing. *)
Record S3ProviderListOutputItem : Type := {
  item_key : option string;
  item_lastModified : option Z;
  item_size : option Z
}.

Inductive Level : Type := protected | public.

Definition Listener : Type := nat.
Definition Error : Type := string.

(** How a promise settles; [Pending] is a promise that never does. *)
Inductive Settled (A : Type) : Type :=
| Fulfilled (a : A)
| Rejected (e : Error)
| Pending.
Arguments Fulfilled {A} a.
Arguments Rejected {A} e.
Arguments Pending {A}.

(** The payloads published on the socket ([JSON.stringify] of these). *)
Inductive Payload : Type :=
| UpdatePayload (fullKey : string) (lastModifiedMillis : Z) (bytes : Z)
| DeletePayload (fullKey : string).

(** What the index does to the outside world, in order. *)
Inductive Effect : Type :=
| MetadataListenerCall (l : Listener) (file : option ReactiveFileMetadata)
| ChildrenListenerCall (l : Listener)
    (children : JsMap.t ReactiveFileMetadata)
| LoadingListenerCall (l : Listener) (loading : bool)
| NetworkErrorListenerCall (l : Listener) (errors : list string)
| ProgressCall (loaded total : Z)
| StoragePut (path contents : string) (level : Level)
| StorageRemove (path : string) (level : Level)
| StorageList (level : Level)
| SocketPublish (topic : string) (payload : Payload).

Definition Trace : Type := list Effect.

(** ** [class ReactiveIndex] *)

Module ReactiveIndex.

Record t : Type := {
  files : JsMap.t ReactiveFileMetadata;
  level : Level;
  globalPrefix : string;
  metadataListeners : JsMap.t (list Listener);
  childrenListeners : JsMap.t (list Listener);
  childrenLastNotified : JsMap.t (JsMap.t ReactiveFileMetadata);
  loading : bool;
  loadingListeners : list Listener;
  networkErrors : JsMap.t string;
  networkErrorListeners : list Listener
}.

(** Field assignments [this.f = v]. *)
Definition with_files (v : JsMap.t ReactiveFileMetadata) (ix : t) : t :=
  {| files := v; level := level ix; globalPrefix := globalPrefix ix;
     metadataListeners := metadataListeners ix;
     childrenListeners := childrenListeners ix;
     childrenLastNotified := childrenLastNotified ix;
     loading := loading ix; loadingListeners := loadingListeners ix;
     networkErrors := networkErrors ix;
     networkErrorListeners := networkErrorListeners ix |}.

Definition with_metadataListeners (v : JsMap.t (list Listener)) (ix : t)
  : t :=
  {| files := files ix; level := level ix; globalPrefix := globalPrefix ix;
     metadataListeners := v;
     childrenListeners := childrenListeners ix;
     childrenLastNotified := childrenLastNotified ix;
     loading := loading ix; loadingListeners := loadingListeners ix;
     networkErrors := networkErrors ix;
     networkErrorListeners := networkErrorListeners ix |}.

Definition with_childrenListeners (v : JsMap.t (list Listener)) (ix : t)
  : t :=
  {| files := files ix; level := level ix; globalPrefix := globalPrefix ix;
     metadataListeners := metadataListeners ix;
     childrenListeners := v;
     childrenLastNotified := childrenLastNotified ix;
     loading := loading ix; loadingListeners := loadingListeners ix;
     networkErrors := networkErrors ix;
     networkErrorListeners := networkErrorListeners ix |}.

Definition with_childrenLastNotified
    (v : JsMap.t (JsMap.t ReactiveFileMetadata)) (ix : t) : t :=
  {| files := files ix; level := level ix; globalPrefix := globalPrefix ix;
     metadataListeners := metadataListeners ix;
     childrenListeners := childrenListeners ix;
     childrenLastNotified := v;
     loading := loading ix; loadingListeners := loadingListeners ix;
     networkErrors := networkErrors ix;
     networkErrorListeners := networkErrorListeners ix |}.

Definition with_loading (v : bool) (ix : t) : t :=
  {| files := files ix; level := level ix; globalPrefix := globalPrefix ix;
     metadataListeners := metadataListeners ix;
     childrenListeners := childrenListeners ix;
     childrenLastNotified := childrenLastNotified ix;
     loading := v; loadingListeners := loadingListeners ix;
     networkErrors := networkErrors ix;
     networkErrorListeners := networkErrorListeners ix |}.

Definition with_networkErrors (v : JsMap.t string) (ix : t) : t :=
  {| files := files ix; level := level ix; globalPrefix := globalPrefix ix;
     metadataListeners := metadataListeners ix;
     childrenListeners := childrenListeners ix;
     childrenLastNotified := childrenLastNotified ix;
     loading := loading ix; loadingListeners := loadingListeners ix;
     networkErrors := v;
     networkErrorListeners := networkErrorListeners ix |}.

(** [new ReactiveIndex(level, false, socket)]: no network set-up. *)
Definition create (lvl : Level) : t :=
  {| files := JsMap.empty; level := lvl; globalPrefix := "";
     metadataListeners := JsMap.empty;
     childrenListeners := JsMap.empty;
     childrenLastNotified := JsMap.empty;
     loading := true; loadingListeners := [];
     networkErrors := JsMap.empty;
     networkErrorListeners := [] |}.

(** *** Queries *)

Definition getMetadata (ix : t) (path : string)
  : option ReactiveFileMetadata :=
  JsMap.get (files ix) path.

(** The first line of [getChildren]: the folder prefix actually used. *)
Definition folderPrefix (path : string) : string :=
  if negb (String.eqb path "") && negb (JsString.endsWithChar path slash)
  then path ++ "/" else path.

Definition getChildren (ix : t) (path : string)
  : JsMap.t ReactiveFileMetadata :=
  let path := folderPrefix path in
  fold_left
    (fun children (entry : string * ReactiveFileMetadata) =>
       let (key, file) := entry in
       if JsString.startsWith key path && negb (String.eqb key path)
       then JsMap.set children
              (JsString.substringFrom (String.length path) key) file
       else children)
    (files ix) JsMap.empty.

(** *** Listener registries *)

Fixpoint splice1 (l : Listener) (ls : list Listener) : list Listener :=
  match ls with
  | [] => []
  | x :: rest => if Nat.eqb x l then rest else x :: splice1 l rest
  end.

Definition addListener (m : JsMap.t (list Listener)) (path : string)
    (l : Listener) : JsMap.t (list Listener) :=
  let m := if JsMap.has m path then m else JsMap.set m path [] in
  match JsMap.get m path with
  | Some ls => JsMap.set m path (ls ++ [l])%list
  | None => m
  end.

Definition removeListener (m : JsMap.t (list Listener)) (path : string)
    (l : Listener) : JsMap.t (list Listener) :=
  match JsMap.get m path with
  | Some ls =>
      if existsb (Nat.eqb l) ls then JsMap.set m path (splice1 l ls)
      else m
  | None => m
  end.

Definition addMetadataListener (path : string) (onUpdate : Listener)
    (ix : t) : t :=
  with_metadataListeners
    (addListener (metadataListeners ix) path onUpdate) ix.

Definition removeMetadataListener (path : string) (onUpdate : Listener)
    (ix : t) : t :=
  with_metadataListeners
    (removeListener (metadataListeners ix) path onUpdate) ix.

Definition addChildrenListener (path : string) (onChange : Listener)
    (ix : t) : t :=
  with_childrenListeners
    (addListener (childrenListeners ix) path onChange) ix.

Definition removeChildrenListener (path : string) (onChange : Listener)
    (ix : t) : t :=
  with_childrenListeners
    (removeListener (childrenListeners ix) path onChange) ix.

Definition getNumMetadataListeners (ix : t) : nat :=
  fold_left (fun count (e : string * list Listener) =>
               count + List.length (snd e))
    (metadataListeners ix) 0.

Definition getNumChildrenListeners (ix : t) : nat :=
  fold_left (fun count (e : string * list Listener) =>
               count + List.length (snd e))
    (childrenListeners ix) 0.

(** *** Children-listener diffing *)

(** [String([suffix, file])], the sort key of a spread map entry. *)
Definition entryToString (e : string * ReactiveFileMetadata) : string :=
  fst e ++ ",[object Object]".

(** [[...children].sort()] *)
Definition sortedEntries (m : JsMap.t ReactiveFileMetadata)
  : list (string * ReactiveFileMetadata) :=
  JsArray.sort entryToString m.

(** Equality of the two [JSON.stringify] texts.  The serialisation of
    an array of [[suffix, {key, lastModified, size}]] pairs determines
    the array, so the texts are compared through the arrays. *)
Fixpoint sameJSON (a b : list (string * ReactiveFileMetadata)) : bool :=
  match a, b with
  | [], [] => true
  | (ka, fa) :: a', (kb, fb) :: b' =>
      String.eqb ka kb && ReactiveFileMetadata_eqb fa fb && sameJSON a' b'
  | _, _ => false
  end.

Definition lastNotifiedOrEmpty
    (last : JsMap.t (JsMap.t ReactiveFileMetadata)) (key : string)
  : JsMap.t ReactiveFileMetadata :=
  match JsMap.get last key with Some m => m | None => JsMap.empty end.

(** Whether the listeners of [key] are called by the diffing pass. *)
Definition childrenChanged
    (last : JsMap.t (JsMap.t ReactiveFileMetadata)) (ix : t)
    (key : string) : bool :=
  negb (sameJSON (sortedEntries (lastNotifiedOrEmpty last key))
                 (sortedEntries (getChildren ix key))).

(** The callback of the [forEach] in [_updateChildListeners]. *)
Definition _updateChildListeners_body (ix : t)
    (acc : JsMap.t (JsMap.t ReactiveFileMetadata) * Trace)
    (entry : string * list Listener)
  : JsMap.t (JsMap.t ReactiveFileMetadata) * Trace :=
  let (last, trace) := acc in
  let (key, listeners) := entry in
  let children := getChildren ix key in
  let trace :=
    if childrenChanged last ix key
    then (trace ++ map (fun l => ChildrenListenerCall l children)
                   listeners)%list
    else trace in
  (JsMap.set last key children, trace).

Definition _updateChildListeners (ix : t) : t * Trace :=
  let (last, trace) :=
    fold_left (_updateChildListeners_body ix)
      (childrenListeners ix) (childrenLastNotified ix, [])
  in (with_childrenLastNotified last ix, trace).

(** *** Merge primitives *)

Definition listenersAt (m : JsMap.t (list Listener)) (path : string)
  : list Listener :=
  match JsMap.get m path with Some ls => ls | None => [] end.

Definition _deleteFileInIndex (path : string) (ix : t) : t * Trace :=
  let ix := with_files (JsMap.delete (files ix) path) ix in
  let existListeners := listenersAt (metadataListeners ix) path in
  let calls := map (fun l => MetadataListenerCall l None) existListeners in
  let (ix, childCalls) := _updateChildListeners ix in
  (ix, (calls ++ childCalls)%list).

Definition _updateFileInIndex (file : ReactiveFileMetadata) (ix : t)
  : t * Trace :=
  let existingFile := JsMap.get (files ix) (key file) in
  if match existingFile with
     | None => true
     | Some existing => (lastModified existing <? lastModified file)%Z
     end
  then
    let ix := with_files (JsMap.set (files ix) (key file) file) ix in
    let updateListeners := listenersAt (metadataListeners ix) (key file) in
    let calls :=
      map (fun l => MetadataListenerCall l (Some file)) updateListeners in
    let (ix, childCalls) := _updateChildListeners ix in
    (ix, (calls ++ childCalls)%list)
  else (ix, []).

Definition _onReceivedPubSubUpdate (file : ReactiveFileMetadata) (ix : t)
  : t * Trace := _updateFileInIndex file ix.

Definition _onReceivedPubSubDelete (fileKey : string) (ix : t)
  : t * Trace := _deleteFileInIndex fileKey ix.

(** The two message handlers installed by [registerPubSubListeners]. *)
Definition onSocketMessage (payload : Payload) (ix : t) : t * Trace :=
  match payload with
  | UpdatePayload globalKey millis bytes =>
      _onReceivedPubSubUpdate
        {| key := JsString.substringFrom
                    (String.length (globalPrefix ix)) globalKey;
           lastModified := millis; size := bytes |} ix
  | DeletePayload globalKey =>
      _onReceivedPubSubDelete
        (JsString.substringFrom (String.length (globalPrefix ix)) globalKey)
        ix
  end.

(** Applying a sequence of update events, as the socket delivers them. *)
Fixpoint applyUpdates (events : list ReactiveFileMetadata) (ix : t)
  : t * Trace :=
  match events with
  | [] => (ix, [])
  | file :: rest =>
      let (ix1, tr1) := _updateFileInIndex file ix in
      let (ix2, tr2) := applyUpdates rest ix1 in
      (ix2, (tr1 ++ tr2)%list)
  end.

(** *** Loading flag and network-error registry *)

Definition setIsLoading (v : bool) (ix : t) : t * Trace :=
  if negb (Bool.eqb v (loading ix))
  then (with_loading v ix,
        map (fun l => LoadingListenerCall l v) (loadingListeners ix))
  else (ix, []).

Section Locale.
(** [String.prototype.localeCompare] depends on the host's collation
    and is left abstract. *)
Variable localeCompare : string -> string -> comparison.

Definition getNetworkErrorMessages (ix : t) : list string :=
  let errorsList := networkErrors ix in
  let sorted :=
    JsArray.sortBy (fun a b => localeCompare (fst a) (fst b)) errorsList in
  map snd sorted.

(** [JSON.stringify(newErrors) !== JSON.stringify(oldErrors)] on
    arrays of strings. *)
Definition messagesDiffer (a b : list string) : bool :=
  if list_eq_dec string_dec a b then false else true.

Definition setNetworkError (errKey value : string) (ix : t) : t * Trace :=
  let oldErrors := getNetworkErrorMessages ix in
  let ix := with_networkErrors (JsMap.set (networkErrors ix) errKey value)
              ix in
  let newErrors := getNetworkErrorMessages ix in
  if messagesDiffer newErrors oldErrors
  then (ix, map (fun l => NetworkErrorListenerCall l newErrors)
              (networkErrorListeners ix))
  else (ix, []).

Definition clearNetworkError (errKey : string) (ix : t) : t * Trace :=
  let oldErrors := getNetworkErrorMessages ix in
  let ix := with_networkErrors (JsMap.delete (networkErrors ix) errKey)
              ix in
  let newErrors := getNetworkErrorMessages ix in
  if messagesDiffer newErrors oldErrors
  then (ix, map (fun l => NetworkErrorListenerCall l newErrors)
              (networkErrorListeners ix))
  else (ix, []).

(** *** [upload] *)

(** What [Storage.put] does with the request: it may raise at the
    call, or return a promise that is rejected, is fulfilled, or
    never settles.  Before the promise settles the store may report
    progress; a store that completes the transfer may in addition
    invoke [completeCallback]. *)
Inductive PutOutcome : Type :=
| PutThrows (e : Error)
| PutRejects (progress : list (Z * Z)) (e : Error)
| PutCompletes (progress : list (Z * Z)) (completeCallback : bool)
| PutHangs (progress : list (Z * Z)).

(** [new Blob([contents]).size]: [contents] stands for its bytes. *)
Definition blobSize (contents : string) : Z :=
  Z.of_nat (String.length contents).

(** The body shared by [completeCallback] and the [then] handler;
    [ProgressCall 1 1] is [progressCallback(1.0)]. *)
Definition upload_onPut (topic : string) (updatedFile : Payload)
    (ix : t) : t * Trace :=
  let (ix, tr) := clearNetworkError "Upload" ix in
  (ix, (ProgressCall 1 1 :: tr ++ [SocketPublish topic updatedFile])%list).

(** The [catch] handler and the [catch] block. *)
Definition upload_onError (ix : t) : t * Trace :=
  setNetworkError "Upload" "We got an error trying to upload a file!" ix.

Definition upload (now : Z) (path contents : string)
    (put : PutOutcome) (publish : Settled unit) (ix : t)
  : t * Trace * Settled unit :=
  let fullPath := globalPrefix ix ++ path in
  let updatedFile := UpdatePayload fullPath now (blobSize contents) in
  let topic := makeTopicPubSubSafe ("/UPDATE/" ++ fullPath) in
  let request := StoragePut path contents (level ix) in
  let reports (progress : list (Z * Z)) :=
    map (fun p => ProgressCall (fst p) (snd p)) progress in
  match put with
  | PutThrows e =>
      let (ix, tr) := upload_onError ix in
      (ix, request :: tr, Rejected e)
  | PutRejects progress e =>
      let (ix, tr) := upload_onError ix in
      (ix, (request :: reports progress ++ tr)%list, Rejected e)
  | PutCompletes progress completeCallback =>
      let (ix, trC) :=
        if completeCallback then upload_onPut topic updatedFile ix
        else (ix, []) in
      let (ix, trT) := upload_onPut topic updatedFile ix in
      (ix, (request :: reports progress ++ trC ++ trT)%list,
       match publish with
       | Fulfilled _ => Fulfilled tt
       | _ => Pending
       end)
  | PutHangs progress =>
      (ix, (request :: reports progress)%list, Pending)
  end.

(** *** [delete]

    [Storage.remove] returns a promise and the call is not inside a
    [try] block; the [catch] handler also receives a rejected
    publish. *)

Definition delete (path : string) (remove publish : Settled unit)
    (ix : t) : t * Trace * Settled unit :=
  let fullPath := globalPrefix ix ++ path in
  let topic := makeTopicPubSubSafe ("/DELETE/" ++ fullPath) in
  let request := StorageRemove path (level ix) in
  let onError (ix : t) :=
    setNetworkError "Delete" "We got an error trying to delete a file!" ix
  in
  match remove with
  | Fulfilled _ =>
      let (ix, tr) := clearNetworkError "Delete" ix in
      let tr := (request :: tr
                   ++ [SocketPublish topic (DeletePayload fullPath)])%list in
      match publish with
      | Fulfilled _ => (ix, tr, Fulfilled tt)
      | Rejected e =>
          let (ix, trE) := onError ix in (ix, (tr ++ trE)%list, Rejected e)
      | Pending => (ix, tr, Pending)
      end
  | Rejected e =>
      let (ix, trE) := onError ix in (ix, request :: trE, Rejected e)
  | Pending => (ix, [request], Pending)
  end.

(** *** [fullRefresh] *)

(** Step 2.1: the map of listed objects that have a key. *)
Definition listedFiles (result : list S3ProviderListOutputItem)
  : JsMap.t S3ProviderListOutputItem :=
  fold_left
    (fun newFiles item =>
       match item_key item with
       | Some k => JsMap.set newFiles k item
       | None => newFiles
       end)
    result JsMap.empty.

(** A traversal threading the index and accumulating the trace. *)
Definition forEachIndex {A : Type} (f : A -> t -> t * Trace)
    (l : list A) (ix : t) : t * Trace :=
  fold_left
    (fun (acc : t * Trace) a =>
       let (ix, tr) := acc in
       let (ix, tr') := f a ix in (ix, (tr ++ tr')%list))
    l (ix, []).

Definition fullRefresh_onList (result : list S3ProviderListOutputItem)
    (ix : t) : t * Trace :=
  let (ix, tr1) := setIsLoading false ix in
  let (ix, tr2) := clearNetworkError "FullRefresh" ix in
  let newFiles := listedFiles result in
  let (ix, tr3) :=
    forEachIndex
      (fun (entry : string * ReactiveFileMetadata) ix =>
         if negb (JsMap.has newFiles (fst entry))
         then _deleteFileInIndex (fst entry) ix else (ix, []))
      (files ix) ix in
  let (ix, tr4) :=
    forEachIndex
      (fun (entry : string * S3ProviderListOutputItem) ix =>
         match item_key (snd entry), item_lastModified (snd entry),
               item_size (snd entry) with
         | Some k, Some lm, Some sz =>
             _updateFileInIndex
               {| key := k; lastModified := lm; size := sz |} ix
         | _, _, _ => (ix, [])
         end)
      newFiles ix in
  (ix, (tr1 ++ tr2 ++ tr3 ++ tr4)%list).

Definition fullRefresh_onError (ix : t) : t * Trace :=
  let (ix, tr1) := setIsLoading false ix in
  let (ix, tr2) :=
    setNetworkError "FullRefresh"
      "We got an error trying to load the files! Attempting to reconnect..."
      ix in
  (ix, (tr1 ++ tr2)%list).

Definition fullRefresh (listing : Settled (list S3ProviderListOutputItem))
    (ix : t) : t * Trace * Settled unit :=
  let (ix, tr0) := setIsLoading true ix in
  let tr0 := (tr0 ++ [StorageList (level ix)])%list in
  match listing with
  | Fulfilled result =>
      let (ix, tr) := fullRefresh_onList result ix in
      (ix, (tr0 ++ tr)%list, Fulfilled tt)
  | Rejected _ =>
      let (ix, tr) := fullRefresh_onError ix in
      (ix, (tr0 ++ tr)%list, Fulfilled tt)
  | Pending => (ix, tr0, Pending)
  end.
End Locale.

(** *** Further operations of the index *)

Definition addLoadingListener (onLoading : Listener) (ix : t) : t :=
  {| files := files ix; level := level ix; globalPrefix := globalPrefix ix;
     metadataListeners := metadataListeners ix;
     childrenListeners := childrenListeners ix;
     childrenLastNotified := childrenLastNotified ix;
     loading := loading ix;
     loadingListeners := (loadingListeners ix ++ [onLoading])%list;
     networkErrors := networkErrors ix;
     networkErrorListeners := networkErrorListeners ix |}.

Definition addNetworkErrorListener (listener : Listener) (ix : t) : t :=
  {| files := files ix; level := level ix; globalPrefix := globalPrefix ix;
     metadataListeners := metadataListeners ix;
     childrenListeners := childrenListeners ix;
     childrenLastNotified := childrenLastNotified ix;
     loading := loading ix; loadingListeners := loadingListeners ix;
     networkErrors := networkErrors ix;
     networkErrorListeners := (networkErrorListeners ix ++ [listener])%list |}.

Definition getIsLoading (ix : t) : bool := loading ix.

(** [deleteByPrefix]: the paths for which [this.delete(path)] is
    called, in the order of the calls; the result of the operation is
    [Promise.all] of those deletions. *)
Definition deleteByPrefix (prefix : string) (ix : t) : list string :=
  fold_left
    (fun allPromises (entry : string * ReactiveFileMetadata) =>
       if JsString.startsWith (fst entry) prefix
       then (allPromises ++ [fst entry])%list
       else allPromises)
    (files ix) [].

(** What [Storage.get] with [download: true] does: the promise is
    rejected, or fulfilled with or without a [Body], or never settles. *)
Inductive GetOutcome : Type :=
| GetRejects (e : Error)
| GetBody (text : string)
| GetNoBody
| GetHangs.

Section LocaleDownload.
Variable localeCompare : string -> string -> comparison.

(** [downloadText], from the moment the store answers; the request
    itself is the [DownloadText] effect of the caller. *)
Definition downloadText (path : string) (get : GetOutcome) (ix : t)
  : t * Trace * Settled string :=
  let onError (ix : t) :=
    setNetworkError localeCompare "Get"
      "We got an error trying to download a file!" ix in
  match get with
  | GetBody text =>
      let (ix, tr) := clearNetworkError localeCompare "Get" ix in
      (ix, tr, Fulfilled text)
  | GetNoBody =>
      let (ix, tr) := clearNetworkError localeCompare "Get" ix in
      let (ix, trE) := onError ix in
      (ix, (tr ++ trE)%list, Fulfilled "")
  | GetRejects _ =>
      let (ix, trE) := onError ix in (ix, trE, Fulfilled "")
  | GetHangs => (ix, [], Pending)
  end.
End LocaleDownload.

End ReactiveIndex.

(** ** [class ReactiveJsonFile] *)

(** The values a document can hold ([any]); objects and arrays are
    opaque references. *)
Inductive any : Type :=
| undefined
| null
| JBoolean (b : bool)
| JNumber (z : Z)
| JString (s : string)
| JObject (ref : nat).

(** [value == null] *)
Definition looselyNull (value : any) : bool :=
  match value with
  | undefined | null => true
  | _ => false
  end.

(** What a document and its cursor ask of the outside world. *)
Inductive DocEffect : Type :=
| DownloadText (index : nat) (fullPath : string)
| UploadChild (childPath json : string)
| ChangeListenerCall (l : Listener).

Module ReactiveJsonFile.

Record t : Type := {
  path : string;
  values : JsMap.t any;
  pendingTimeout : option nat;
  changeListeners : list Listener
}.

Definition with_values (v : JsMap.t any) (f : t) : t :=
  {| path := path f; values := v; pendingTimeout := pendingTimeout f;
     changeListeners := changeListeners f |}.

Definition with_pendingTimeout (v : option nat) (f : t) : t :=
  {| path := path f; values := values f; pendingTimeout := v;
     changeListeners := changeListeners f |}.

Definition addChangeListener (listener : Listener) (f : t) : t :=
  {| path := path f; values := values f;
     pendingTimeout := pendingTimeout f;
     changeListeners := (changeListeners f ++ [listener])%list |}.

Definition getAttribute (f : t) (attr : string) (defaultValue : any)
  : any :=
  let value :=
    match JsMap.get (values f) attr with
    | Some v => v
    | None => undefined
    end in
  if looselyNull value then defaultValue else value.

(** [fileExist]: [cursor.getExists(this.path)], that is, whether the
    owning cursor's children contain the document's path. *)
Definition fileExist (cursorChildren : JsMap.t ReactiveFileMetadata)
    (f : t) : bool :=
  match JsMap.get cursorChildren (path f) with
  | Some _ => true
  | None => false
  end.

(** [pathChanged], up to the download request; [cursorPath] and
    [cursorIndex] are the owning cursor's fields. *)
Definition pathChanged (cursorIndex : nat) (cursorPath : string)
    (cursorChildren : JsMap.t ReactiveFileMetadata) (f : t)
  : t * list DocEffect :=
  if fileExist cursorChildren f
  then (f, [DownloadText cursorIndex
              (ensurePathEndsWithSlash cursorPath ++ path f)])
  else (with_values JsMap.empty f, []).

(** The [then] handler of the download: [parsed] is the list of
    enumerable properties of [JSON.parse(text)], or [None] when
    [JSON.parse] throws. *)
Definition pathChanged_onText (parsed : option (list (string * any)))
    (f : t) : t :=
  match parsed with
  | Some props =>
      with_values
        (fold_left (fun vs (p : string * any) =>
                      JsMap.set vs (fst p) (snd p))
           props (values f)) f
  | None => with_values JsMap.empty f
  end.

(** *** Timers

    The host's timer table: each [setTimeout] returns a fresh handle
    and records when its callback is due; [clearTimeout] drops the
    entry.  The document world pairs one document with the clock,
    the timers whose callback is this document's upload closure and
    the effects so far. *)
Record World : Type := {
  clock : Z;
  nextHandle : nat;
  scheduled : list (nat * Z);
  doc : t;
  trace : list DocEffect
}.

Definition UPLOAD_DELAY : Z := 500.

Definition clearTimeout (handle : nat) (w : World) : World :=
  {| clock := clock w; nextHandle := nextHandle w;
     scheduled := filter (fun e => negb (Nat.eqb (fst e) handle))
                    (scheduled w);
     doc := doc w; trace := trace w |}.

Definition setTimeout (delay : Z) (w : World) : nat * World :=
  (nextHandle w,
   {| clock := clock w; nextHandle := S (nextHandle w);
      scheduled := (scheduled w ++ [(nextHandle w, clock w + delay)%Z])%list;
      doc := doc w; trace := trace w |}).

Definition with_doc (d : t) (w : World) : World :=
  {| clock := clock w; nextHandle := nextHandle w;
     scheduled := scheduled w; doc := d; trace := trace w |}.

Definition emit (e : list DocEffect) (w : World) : World :=
  {| clock := clock w; nextHandle := nextHandle w;
     scheduled := scheduled w; doc := doc w;
     trace := (trace w ++ e)%list |}.

Section Json.
(** [JSON.stringify] of the object whose properties are assigned,
    in order, from the given entries. *)
Variable JSON_stringify : list (string * any) -> string.

(** The closure passed to [setTimeout]. *)
Definition uploadCallback (w : World) : World :=
  let object := values (doc w) in
  let json := JSON_stringify object in
  let w := emit [UploadChild (path (doc w)) json] w in
  with_doc (with_pendingTimeout None (doc w)) w.

(** The [then] handler of the upload started by [uploadCallback]. *)
Definition uploadCallback_onUploaded (w : World) : World :=
  emit (map ChangeListenerCall (changeListeners (doc w))) w.

Definition restartUploadTimer (w : World) : World :=
  let w :=
    match pendingTimeout (doc w) with
    | Some handle =>
        let w := clearTimeout handle w in
        with_doc (with_pendingTimeout None (doc w)) w
    | None => w
    end in
  let (handle, w) := setTimeout UPLOAD_DELAY w in
  with_doc (with_pendingTimeout (Some handle) (doc w)) w.

Definition setAttribute (attr : string) (value : any) (w : World)
  : World :=
  let w := with_doc (with_values (JsMap.set (values (doc w)) attr value)
                       (doc w)) w in
  restartUploadTimer w.

(** The event loop lets time pass up to [t]: every timer due by
    then fires, earliest first, and leaves the table. *)
Definition advanceTo (t : Z) (w : World) : World :=
  let due := filter (fun e => (snd e <=? t)%Z) (scheduled w) in
  let order :=
    JsArray.sortBy (fun a b => Z.compare (snd a) (snd b)) due in
  let w :=
    {| clock := Z.max (clock w) t; nextHandle := nextHandle w;
       scheduled := filter (fun e => negb (snd e <=? t)%Z) (scheduled w);
       doc := doc w; trace := trace w |} in
  fold_left (fun w (_ : nat * Z) => uploadCallback w) order w.

(** A call of [setAttribute] made at time [at]. *)
Definition setAttributeAt (call : Z * string * any) (w : World)
  : World :=
  let '(at_, attr, value) := call in
  setAttribute attr value (advanceTo at_ w).

Definition run (calls : list (Z * string * any)) (w : World) : World :=
  fold_left (fun w call => setAttributeAt call w) calls w.

Definition uploads (w : World) : list string :=
  flat_map (fun e => match e with
                     | UploadChild _ json => [json]
                     | _ => []
                     end) (trace w).
End Json.

(** A freshly constructed document at time [now]. *)
Definition start (now : Z) (d : t) : World :=
  {| clock := now; nextHandle := 0; scheduled := []; doc := d;
     trace := [] |}.

(** *** Loading a document *)

Section JsonParse.
(** [JSON.parse]: the enumerable properties of the parsed value, or
    [None] when it throws. *)
Variable JSON_parse : string -> option (list (string * any)).

(** The [then] handler of [pathChanged] applied to the way the
    download promise settles. *)
Definition pathChanged_onDownload (download : Settled string) (f : t) : t :=
  match download with
  | Fulfilled text => pathChanged_onText (JSON_parse text) f
  | _ => f
  end.
End JsonParse.

End ReactiveJsonFile.

(** ** [class ReactiveCursor] *)

Module ReactiveCursor.

(** The indexes live in a store addressed by reference; [===] on
    indexes is equality of references. *)
Definition Heap : Type := nat -> ReactiveIndex.t.

Definition store (h : Heap) (ref : nat) (ix : ReactiveIndex.t) : Heap :=
  fun r => if Nat.eqb r ref then ix else h r.

Record t : Type := {
  index : nat;
  path : string;
  metadata : option ReactiveFileMetadata;
  children : JsMap.t ReactiveFileMetadata;
  jsonFiles : JsMap.t ReactiveJsonFile.t;
  loading : bool;
  networkErrors : list string;
  (** the identity of the bound callbacks [_metadataListener] and
      [_onChildrenListener] of this cursor *)
  self : Listener
}.

Definition getExists (c : t) (child : option string) : bool :=
  match child with
  | None => match metadata c with Some _ => true | None => false end
  | Some p => match JsMap.get (children c) p with
              | Some _ => true
              | None => false
              end
  end.

Definition getChildMetadata (c : t) (child : string)
  : option ReactiveFileMetadata :=
  JsMap.get (children c) child.

(** [this.jsonFiles.forEach(file => file.pathChanged())] *)
Definition jsonFiles_pathChanged (c : t)
  : JsMap.t ReactiveJsonFile.t * list DocEffect :=
  fold_left
    (fun (acc : JsMap.t ReactiveJsonFile.t * list DocEffect)
         (entry : string * ReactiveJsonFile.t) =>
       let (done, effects) := acc in
       let (file, effects') :=
         ReactiveJsonFile.pathChanged (index c) (path c) (children c)
           (snd entry) in
       ((done ++ [(fst entry, file)])%list, (effects ++ effects')%list))
    (jsonFiles c) ([], []).

Definition setPath (newPath : string) (c : t) (h : Heap)
  : t * Heap * list DocEffect :=
  if String.eqb newPath (path c) then (c, h, [])
  else
    let ix := h (index c) in
    let ix := ReactiveIndex.removeMetadataListener (path c) (self c) ix in
    let ix := ReactiveIndex.removeChildrenListener (path c) (self c) ix in
    let c :=
      {| index := index c; path := newPath;
         metadata := ReactiveIndex.getMetadata ix newPath;
         children := ReactiveIndex.getChildren ix newPath;
         jsonFiles := jsonFiles c; loading := loading c;
         networkErrors := networkErrors c; self := self c |} in
    let (files, effects) := jsonFiles_pathChanged c in
    let c :=
      {| index := index c; path := path c; metadata := metadata c;
         children := children c; jsonFiles := files;
         loading := loading c; networkErrors := networkErrors c;
         self := self c |} in
    let ix := ReactiveIndex.addMetadataListener (path c) (self c) ix in
    let ix := ReactiveIndex.addChildrenListener (path c) (self c) ix in
    (c, store h (index c) ix, effects).

Definition setIndex (newIndex : nat) (c : t) (h : Heap)
  : t * Heap * list DocEffect :=
  if Nat.eqb newIndex (index c) then (c, h, [])
  else
    let ix := h (index c) in
    let ix := ReactiveIndex.removeMetadataListener (path c) (self c) ix in
    let ix := ReactiveIndex.removeChildrenListener (path c) (self c) ix in
    let h := store h (index c) ix in
    let c :=
      {| index := newIndex; path := path c;
         metadata := ReactiveIndex.getMetadata (h newIndex) (path c);
         children := ReactiveIndex.getChildren (h newIndex) (path c);
         jsonFiles := jsonFiles c; loading := loading c;
         networkErrors := networkErrors c; self := self c |} in
    let ix := h (index c) in
    let ix := ReactiveIndex.addMetadataListener (path c) (self c) ix in
    let ix := ReactiveIndex.addChildrenListener (path c) (self c) ix in
    (c, store h (index c) ix, []).

(** [getJsonFile]: the document for [docPath], created on first use. *)
Definition getJsonFile (docPath : string) (c : t)
  : t * ReactiveJsonFile.t * list DocEffect :=
  match JsMap.get (jsonFiles c) docPath with
  | Some file => (c, file, [])
  | None =>
      let fresh :=
        {| ReactiveJsonFile.path := docPath;
           ReactiveJsonFile.values := JsMap.empty;
           ReactiveJsonFile.pendingTimeout := None;
           ReactiveJsonFile.changeListeners := [] |} in
      let (file, effects) :=
        ReactiveJsonFile.pathChanged (index c) (path c) (children c)
          fresh in
      ({| index := index c; path := path c; metadata := metadata c;
          children := children c;
          jsonFiles := JsMap.set (jsonFiles c) docPath file;
          loading := loading c; networkErrors := networkErrors c;
          self := self c |}, file, effects)
  end.

(** The folder record made or updated for one contributing file. *)
Definition foldInto (folder : string)
    (existingFolder : option ReactiveFileMetadata)
    (file : ReactiveFileMetadata) : ReactiveFileMetadata :=
  match existingFolder with
  | None =>
      {| key := folder; lastModified := lastModified file;
         size := size file |}
  | Some existing =>
      {| key := folder;
         lastModified :=
           if (lastModified file >? lastModified existing)%Z
           then lastModified file else lastModified existing;
         size := JsNumber.add (size file) (size existing) |}
  end.

(** The callback of the [forEach] in [getImmediateChildFolders]. *)
Definition getImmediateChildFolders_body (of_ : string)
    (folders : JsMap.t ReactiveFileMetadata)
    (entry : string * ReactiveFileMetadata)
  : JsMap.t ReactiveFileMetadata :=
  let (relativePath, file) := entry in
  if negb (JsString.startsWith relativePath of_)
     || String.eqb relativePath of_
  then folders
  else
    let relativePath :=
      JsString.substringFrom (String.length of_) relativePath in
    let parts := JsString.split slash relativePath in
    let parts0 := hd EmptyString parts in
    JsMap.set folders parts0
      (foldInto parts0 (JsMap.get folders parts0) file).

(** The [folders] map built by that [forEach]. *)
Definition childFolders (c : t) (of_ : string)
  : JsMap.t ReactiveFileMetadata :=
  fold_left (getImmediateChildFolders_body of_) (children c) JsMap.empty.

(** [[...folders.values()].sort()]: every element converts to the
    same string. *)
Definition getImmediateChildFolders (c : t) (of_ : string)
  : list ReactiveFileMetadata :=
  JsArray.sort (fun _ : ReactiveFileMetadata => "[object Object]")
    (JsMap.values (childFolders c of_)).

(** *** Further operations of the cursor *)

(** [new ReactiveCursor(index, path)]: [this.path] is [null] when the
    constructor calls [setPath], so the two removals find nothing; the
    identity [self] stands for all the callbacks of the new cursor. *)
Definition create (self_ : Listener) (indexRef : nat) (newPath : string)
    (h : Heap) : t * Heap :=
  let ix := h indexRef in
  let ix := ReactiveIndex.addLoadingListener self_ ix in
  let ix := ReactiveIndex.addNetworkErrorListener self_ ix in
  let c :=
    {| index := indexRef; path := newPath;
       metadata := ReactiveIndex.getMetadata ix newPath;
       children := ReactiveIndex.getChildren ix newPath;
       jsonFiles := JsMap.empty;
       loading := ReactiveIndex.loading ix;
       networkErrors := []; self := self_ |} in
  let ix := ReactiveIndex.addMetadataListener newPath self_ ix in
  let ix := ReactiveIndex.addChildrenListener newPath self_ ix in
  (c, store h indexRef ix).

Definition getIsLoading (c : t) : bool := loading c.

Definition hasNetworkErrors (c : t) : bool :=
  (0 <? List.length (networkErrors c))%nat.

Definition _metadataListener (file : option ReactiveFileMetadata) (c : t)
  : t :=
  {| index := index c; path := path c; metadata := file;
     children := children c; jsonFiles := jsonFiles c;
     loading := loading c; networkErrors := networkErrors c;
     self := self c |}.

Definition _onChildrenListener (newChildren : JsMap.t ReactiveFileMetadata)
    (c : t) : t :=
  {| index := index c; path := path c; metadata := metadata c;
     children := newChildren; jsonFiles := jsonFiles c;
     loading := loading c; networkErrors := networkErrors c;
     self := self c |}.

(** One call made by the index, as this cursor receives it: the
    callbacks registered by the cursor are its own, the others belong
    to other observers. *)
Definition receive (e : Effect) (c : t) : t :=
  match e with
  | MetadataListenerCall l file =>
      if Nat.eqb l (self c) then _metadataListener file c else c
  | ChildrenListenerCall l newChildren =>
      if Nat.eqb l (self c) then _onChildrenListener newChildren c else c
  | LoadingListenerCall l v =>
      if Nat.eqb l (self c)
      then {| index := index c; path := path c; metadata := metadata c;
              children := children c; jsonFiles := jsonFiles c;
              loading := v; networkErrors := networkErrors c;
              self := self c |}
      else c
  | NetworkErrorListenerCall l errors =>
      if Nat.eqb l (self c)
      then {| index := index c; path := path c; metadata := metadata c;
              children := children c; jsonFiles := jsonFiles c;
              loading := loading c; networkErrors := errors;
              self := self c |}
      else c
  | _ => c
  end.

Definition receiveAll (tr : Trace) (c : t) : t :=
  fold_left (fun c e => receive e c) tr c.

(** The prefix used by [getChildrenOf]: a separator is appended unless
    the child path starts with one. *)
Definition getChildrenOf_prefix (childPath : string) : string :=
  if negb (JsString.startsWith childPath "/") then childPath ++ "/"
  else childPath.

Definition getChildrenOf (c : t) (childPath : string)
  : JsMap.t ReactiveFileMetadata :=
  let childPath := getChildrenOf_prefix childPath in
  fold_left
    (fun subChildren (entry : string * ReactiveFileMetadata) =>
       let (path, file) := entry in
       if JsString.startsWith path childPath
       then JsMap.set subChildren
              (JsString.substringFrom (String.length childPath) path) file
       else subChildren)
    (children c) JsMap.empty.

(** [remainingPath.charAt(0) === '/'] *)
Definition charAt0IsSlash (s : string) : bool :=
  match s with
  | String a _ => Ascii.eqb a slash
  | EmptyString => false
  end.

(** The inner loop of [hasChildren] over [existingChildNames], from
    index [j] on: the value of [foundMatch] when the loop ends. *)
Fixpoint hasChildren_foundMatch (existingChildNames : list string)
    (childName : string) : bool :=
  match existingChildNames with
  | [] => false
  | existing :: rest =>
      if JsString.startsWith existing childName
      then
        let remainingPath :=
          JsString.substringFrom (String.length childName) existing in
        if (String.length remainingPath =? 0)%nat
           || charAt0IsSlash remainingPath
           || JsString.endsWithChar childName slash
        then true
        else hasChildren_foundMatch rest childName
      else hasChildren_foundMatch rest childName
  end.

(** The outer loop of [hasChildren] over [childNames]. *)
Fixpoint hasChildren_loop (existingChildNames childNames : list string)
  : bool :=
  match childNames with
  | [] => true
  | childName :: rest =>
      if hasChildren_foundMatch existingChildNames childName
      then hasChildren_loop existingChildNames rest
      else false
  end.

Definition hasChildren (c : t) (childNames : option (list string)) : bool :=
  match childNames with
  | None => (0 <? JsMap.size (children c))%nat
  | Some names => hasChildren_loop (JsMap.keys (children c)) names
  end.

(** The prefix put before every name by [childHasChildren]. *)
Definition childHasChildren_prefix (childPath : string) : string :=
  if negb (JsString.endsWithChar childPath slash) then childPath ++ "/"
  else childPath.

Definition childHasChildren (c : t) (childPath : string)
    (grandchildNames : list string) : bool :=
  let childPath := childHasChildren_prefix childPath in
  let concatenated := map (fun name => childPath ++ name) grandchildNames in
  hasChildren c (Some concatenated).

Section CursorNetwork.
Variable localeCompare : string -> string -> comparison.

Definition upload (now : Z) (contents : string)
    (put : ReactiveIndex.PutOutcome) (publish : Settled unit)
    (c : t) (h : Heap) : Heap * Trace * Settled unit :=
  let '(ix, tr, result) :=
    ReactiveIndex.upload localeCompare now (path c) contents put publish
      (h (index c)) in
  (store h (index c) ix, tr, result).

Definition uploadChild (now : Z) (childPath contents : string)
    (put : ReactiveIndex.PutOutcome) (publish : Settled unit)
    (c : t) (h : Heap) : Heap * Trace * Settled unit :=
  let myPath := ensurePathEndsWithSlash (path c) in
  let '(ix, tr, result) :=
    ReactiveIndex.upload localeCompare now (myPath ++ childPath) contents
      put publish (h (index c)) in
  (store h (index c) ix, tr, result).

Definition deleteChild (childPath : string) (remove publish : Settled unit)
    (c : t) (h : Heap) : Heap * Trace * Settled unit :=
  let myPath := ensurePathEndsWithSlash (path c) in
  let '(ix, tr, result) :=
    ReactiveIndex.delete localeCompare (myPath ++ childPath) remove publish
      (h (index c)) in
  (store h (index c) ix, tr, result).

(** [downloadText(childPath)] with a child path. *)
Definition downloadText (childPath : string)
    (get : ReactiveIndex.GetOutcome) (c : t) (h : Heap)
  : Heap * Trace * Settled string :=
  let myPath := ensurePathEndsWithSlash (path c) ++ childPath in
  let '(ix, tr, result) :=
    ReactiveIndex.downloadText localeCompare myPath get (h (index c)) in
  (store h (index c) ix, tr, result).
End CursorNetwork.

(** The prefix that the cursor's [deleteByPrefix] hands to the index. *)
Definition deleteByPrefix_totalPrefix (c : t) (prefix : string) : string :=
  if (0 <? String.length (path c))%nat && (0 <? String.length prefix)%nat
  then ensurePathEndsWithSlash (path c) ++ prefix
  else path c ++ prefix.

Definition deleteByPrefix (c : t) (prefix : string) (h : Heap)
  : list string :=
  ReactiveIndex.deleteByPrefix (deleteByPrefix_totalPrefix c prefix)
    (h (index c)).

End ReactiveCursor.


(** ** Vocabulary of the statements *)

Section Vocabulary.

Import ReactiveIndex.

(** The test and the re-keying done by the body of [getChildren]. *)
Definition isChildKey (prefix : string) (e : string * ReactiveFileMetadata)
  : bool :=
  JsString.startsWith (fst e) prefix && negb (String.eqb (fst e) prefix).

Definition rekey (prefix : string) (e : string * ReactiveFileMetadata)
  : string * ReactiveFileMetadata :=
  (JsString.substringFrom (String.length prefix) (fst e), snd e).

(** Whether [_updateFileInIndex] takes the incoming record. *)
Definition accepts (fs : JsMap.t ReactiveFileMetadata)
    (file : ReactiveFileMetadata) : bool :=
  match JsMap.get fs (key file) with
  | None => true
  | Some existing => (lastModified existing <? lastModified file)%Z
  end.

(** The calls the diffing pass makes for one registry entry. *)
Definition notifications (ix : t) (entry : string * list Listener) : Trace :=
  if childrenChanged (childrenLastNotified ix) ix (fst entry)
  then map (fun l => ChildrenListenerCall l (getChildren ix (fst entry)))
         (snd entry)
  else [].

(** How many times the children listener [l] is called in a trace. *)
Definition childrenCalls (l : Listener) (tr : Trace) : nat :=
  List.length
    (filter (fun e => match e with
                      | ChildrenListenerCall l' _ => Nat.eqb l' l
                      | _ => false
                      end) tr).

(** [l] is registered once, under [path], and under no other path. *)
Definition registeredOnlyAt (l : Listener) (path : string)
    (registry : JsMap.t (list Listener)) : Prop :=
  In path (JsMap.keys registry) /\
  forall k ls, In (k, ls) registry ->
    count_occ Nat.eq_dec ls l = if String.eqb k path then 1 else 0.

(** The representation invariant of an index: its maps have distinct
    keys, and a stored children snapshot belongs to a registered path
    and is the current children map of that path. *)
Definition index_wf (ix : t) : Prop :=
  JsMap.wf (files ix) /\
  JsMap.wf (metadataListeners ix) /\
  JsMap.wf (childrenListeners ix) /\
  forall path snapshot,
    JsMap.get (childrenLastNotified ix) path = Some snapshot ->
    In path (JsMap.keys (childrenListeners ix)) /\
    snapshot = getChildren ix path.

(** The reading of [getChildren] that takes the prefix to be the path
    followed by a separator for every path: the entries of the result
    are the files whose key is [p ++ "/" ++ suffix] and differs from
    [p], each under its [suffix]. *)
Definition getChildren_slash_reading (ix : t) (p : string) : Prop :=
  forall suffix file,
    JsMap.get (getChildren ix p) suffix = Some file <->
    JsMap.get (files ix) ((p ++ "/") ++ suffix) = Some file /\
    (p ++ "/") ++ suffix <> p.

(** The files of the children-derivation example. *)
Definition exampleFiles (fx fy fb : ReactiveFileMetadata)
  : JsMap.t ReactiveFileMetadata :=
  [("a/x.txt", fx); ("a/y.txt", fy); ("b.txt", fb)].

Definition exampleIndex : t :=
  with_files
    (exampleFiles {| key := "a/x.txt"; lastModified := 1; size := 3 |}
       {| key := "a/y.txt"; lastModified := 2; size := 5 |}
       {| key := "b.txt"; lastModified := 3; size := 8 |})
    (create public).

(** An index that holds ["a/x.txt"] and has notified one children
    listener, registered on ["a"], of it. *)
Definition xtxt (millis bytes : Z) : ReactiveFileMetadata :=
  {| key := "a/x.txt"; lastModified := millis; size := bytes |}.

Definition listeningIndex : t :=
  fst (_updateFileInIndex (xtxt 1000 3)
         (addChildrenListener "a" 7 (create public))).

(** The listener [l] is called exactly once when [file] is merged. *)
Definition notifiesOnce (ix : t) (l : Listener)
    (file : ReactiveFileMetadata) : Prop :=
  childrenCalls l (snd (_updateFileInIndex file ix)) = 1.

(** One hundred characters without a separator, and a long path whose
    segments are short. *)
Definition hundred : string :=
  "0123456789012345678901234567890123456789012345678901234567890123456789012345678901234567890123456789".

Definition longTopic : string :=
  "/UPDATE/protected/us-west-2:0123456789abcdef/data/subject/trials/walking/markers/trial_0001.trc".

End Vocabulary.

Section CursorVocabulary.

Import ReactiveCursor.











(** A cursor that caches the given children. *)
Definition cursorWith (cached : JsMap.t ReactiveFileMetadata) : t :=
  {| index := 0; path := ""; metadata := None; children := cached;
     jsonFiles := JsMap.empty; loading := false; networkErrors := [];
     self := 0 |}.

End CursorVocabulary.


Section DocumentVocabulary.

Import ReactiveJsonFile.

(** No upload is scheduled. *)
Definition idle (w : World) : Prop :=
  pendingTimeout (doc w) = None /\ scheduled w = [].

(** Exactly one upload is scheduled, for the time [due], and the
    document holds its handle. *)
Definition armed (w : World) (due : Z) : Prop :=
  exists handle,
    pendingTimeout (doc w) = Some handle /\ scheduled w = [(handle, due)].

Definition callTime (call : Z * string * any) : Z := fst (fst call).

(** Every call comes strictly less than the delay after the one before
    it; [previous] is the time of the preceding call. *)
Fixpoint within (previous : Z) (calls : list (Z * string * any)) : Prop :=
  match calls with
  | [] => True
  | call :: rest =>
      (previous <= callTime call < previous + UPLOAD_DELAY)%Z
      /\ within (callTime call) rest
  end.

Fixpoint lastTime (previous : Z) (calls : list (Z * string * any)) : Z :=
  match calls with
  | [] => previous
  | call :: rest => lastTime (callTime call) rest
  end.

(** The mapping after all the writes of the calls. *)
Definition merged (calls : list (Z * string * any)) (vs : JsMap.t any)
  : JsMap.t any :=
  fold_left (fun vs (call : Z * string * any) =>
               JsMap.set vs (snd (fst call)) (snd call)) calls vs.

(** A stand-in serialiser for concrete runs: the property names. *)
Definition propertyNames (object : list (string * any)) : string :=
  String.concat "," (map fst object).

Definition subjectJson : t :=
  {| path := "_subject.json"; values := [("sex", JString "unknown")];
     pendingTimeout := None; changeListeners := [11] |}.

Definition fiveCalls : list (Z * string * any) :=
  [(0, "massKg", JNumber 68); (100, "heightM", JNumber 2);
   (200, "massKg", JNumber 70); (300, "sex", JString "female");
   (400, "heightM", JNumber 1)]%Z.

End DocumentVocabulary.

Section RepointVocabulary.

Import ReactiveCursor.

(** Two indexes that both hold the subject document, with different
    versions, and a cursor on the first that owns the document. *)
Definition subjectRecord (millis bytes : Z) : ReactiveFileMetadata :=
  {| key := "s/_subject.json"; lastModified := millis; size := bytes |}.

Definition twoIndexes : Heap :=
  fun ref =>
    if Nat.eqb ref 0
    then ReactiveIndex.addChildrenListener "s" 5
           (ReactiveIndex.addMetadataListener "s" 5
              (ReactiveIndex.with_files
                 [("s/_subject.json", subjectRecord 1000 20);
                  ("t/_subject.json", subjectRecord 1500 25)]
                 (ReactiveIndex.create public)))
    else ReactiveIndex.with_files
           [("s/_subject.json", subjectRecord 2000 30)]
           (ReactiveIndex.create protected).

Definition subjectCursor : t :=
  {| index := 0; path := "s"; metadata := None;
     children := ReactiveIndex.getChildren (twoIndexes 0) "s";
     jsonFiles :=
       [("_subject.json",
         {| ReactiveJsonFile.path := "_subject.json";
            ReactiveJsonFile.values := [("massKg", JNumber 68)];
            ReactiveJsonFile.pendingTimeout := None;
            ReactiveJsonFile.changeListeners := [] |})];
     loading := false; networkErrors := []; self := 5 |}.

End RepointVocabulary.

(** ** Vocabulary of the further properties *)

Section FurtherVocabulary.

Import ReactiveCursor.

(** The record that an upload of [contents] to [path] at time [now]
    announces. *)
Definition uploaded (path : string) (now : Z) (contents : string)
  : ReactiveFileMetadata :=
  {| key := path; lastModified := now;
     size := ReactiveIndex.blobSize contents |}.

(** The cursor shows what its index holds for its path. *)
Definition inSync (c : t) (ix : ReactiveIndex.t) : Prop :=
  metadata c = ReactiveIndex.getMetadata ix (path c) /\
  JsMap.same_bindings (children c)
    (ReactiveIndex.getChildren ix (path c)).

(** The cursor's callbacks are registered once, under its path, in
    both registries of the index, and under no other path. *)
Definition attached (c : t) (ix : ReactiveIndex.t) : Prop :=
  registeredOnlyAt (self c) (path c) (ReactiveIndex.metadataListeners ix) /\
  registeredOnlyAt (self c) (path c) (ReactiveIndex.childrenListeners ix).

(** The identity [l] is registered nowhere in the registry. *)
Definition unregistered (l : Listener) (registry : JsMap.t (list Listener))
  : Prop :=
  forall k ls, In (k, ls) registry -> ~ In l ls.

(** An existing child key makes [childName] count as present: it is
    [childName] itself, or continues it at a separator, or [childName]
    ends with a separator. *)
Definition matchesChild (childName existing : string) : Prop :=
  exists remaining,
    existing = childName ++ remaining /\
    (remaining = "" \/ (exists r, remaining = "/" ++ r) \/
     JsString.endsWithChar childName slash = true).

(** The record a complete listing entry stands for. *)
Definition listedRecord (k : string) (item : S3ProviderListOutputItem)
  : option ReactiveFileMetadata :=
  match item_lastModified item, item_size item with
  | Some lm, Some sz => Some {| key := k; lastModified := lm; size := sz |}
  | _, _ => None
  end.

(** The state of the index once the delete events of [targets] have
    come back, in order. *)
Definition afterEchoes (targets : list string) (ix : ReactiveIndex.t)
  : ReactiveIndex.t :=
  fold_left
    (fun ix p =>
       fst (ReactiveIndex.onSocketMessage
              (DeletePayload (ReactiveIndex.globalPrefix ix ++ p)) ix))
    targets ix.

(** A subject folder with two trials whose names share a prefix, and
    a cursor built on it. *)
Definition trialFile (k : string) (millis bytes : Z) : ReactiveFileMetadata :=
  {| key := k; lastModified := millis; size := bytes |}.

Definition trialsHeap : Heap :=
  fun _ =>
    ReactiveIndex.with_files
      [("subj/_subject.json", trialFile "subj/_subject.json" 100 20);
       ("subj/trials/t1/a.c3d", trialFile "subj/trials/t1/a.c3d" 200 30);
       ("subj/trials/t10/a.c3d", trialFile "subj/trials/t10/a.c3d" 300 40);
       ("subject2/_subject.json", trialFile "subject2/_subject.json" 400 50)]
      (ReactiveIndex.create public).

Definition trialsCursor : t := fst (ReactiveCursor.create 9 0 "subj" trialsHeap).

(** The first index of the example after the update event of a new
    file under ["s"], and the cursor after the calls of that event. *)
Definition notedIndex : ReactiveIndex.t :=
  fst (ReactiveIndex.onSocketMessage (UpdatePayload "s/notes.txt" 5000 5)
         (twoIndexes 0)).

Definition notedCursor : t :=
  receiveAll
    (snd (ReactiveIndex.onSocketMessage (UpdatePayload "s/notes.txt" 5000 5)
            (twoIndexes 0)))
    subjectCursor.

(** A listing that has one of the example files, newer, a new file, and
    an entry without a key. *)
Definition exampleListing : list S3ProviderListOutputItem :=
  [ {| item_key := Some "a/x.txt"; item_lastModified := Some 5%Z;
       item_size := Some 4%Z |};
    {| item_key := Some "c.txt"; item_lastModified := Some 6%Z;
       item_size := Some 1%Z |};
    {| item_key := None; item_lastModified := Some 7%Z;
       item_size := Some 2%Z |} ].

End FurtherVocabulary.

(** * Facts about the string primitives *)

Section StringFacts.

Lemma append_nil_r (s : string) : s ++ "" = s.
Proof. induction s; simpl; congruence. Qed.

Lemma append_assoc (a b c : string) : (a ++ b) ++ c = a ++ (b ++ c).
Proof. induction a; simpl; congruence. Qed.

Lemma length_append (a b : string) :
  String.length (a ++ b) = String.length a + String.length b.
Proof. induction a; simpl; auto. Qed.

Lemma append_cancel_r (a b c : string) : a ++ c = b ++ c -> a = b.
Proof.
  revert b; induction a as [|x a IH]; intros [|y b] H; simpl in *.
  - reflexivity.
  - apply (f_equal String.length) in H; simpl in H.
    rewrite length_append in H; lia.
  - apply (f_equal String.length) in H; simpl in H.
    rewrite length_append in H; lia.
  - injection H as -> H. f_equal. now apply IH.
Qed.

Lemma startsWith_append (p s : string) :
  JsString.startsWith (p ++ s) p = true.
Proof.
  unfold JsString.startsWith.
  induction p as [|a p IH]; simpl.
  - now destruct s.
  - destruct (ascii_dec a a); [assumption | congruence].
Qed.

Lemma startsWith_inv (s p : string) :
  JsString.startsWith s p = true ->
  s = p ++ JsString.substringFrom (String.length p) s.
Proof.
  unfold JsString.startsWith.
  revert s; induction p as [|a p IH]; intros s H; simpl.
  - reflexivity.
  - destruct s as [|b s]; simpl in H; [discriminate|].
    destruct (ascii_dec a b); [subst|discriminate].
    f_equal. now apply IH.
Qed.

Lemma substringFrom_append (p s : string) :
  JsString.substringFrom (String.length p) (p ++ s) = s.
Proof. induction p; simpl; auto. Qed.

Lemma startsWith_iff (s p : string) :
  JsString.startsWith s p = true <-> exists r, s = p ++ r.
Proof.
  split.
  - intros H; eexists; now apply startsWith_inv.
  - intros [r ->]; apply startsWith_append.
Qed.

Lemma startsWith_empty (s : string) : JsString.startsWith s "" = true.
Proof. now destruct s. Qed.

Lemma substringTo_length (n : nat) (s : string) :
  String.length (JsString.substringTo n s) = Nat.min n (String.length s).
Proof.
  revert s; induction n; intros [|a s]; simpl; auto.
Qed.

Lemma substringTo_prefix (n : nat) (s : string) :
  JsString.startsWith s (JsString.substringTo n s) = true.
Proof.
  unfold JsString.startsWith.
  revert s; induction n; intros [|a s]; simpl; auto.
  destruct (ascii_dec a a); [apply IHn | congruence].
Qed.

Lemma split_nonempty (c : ascii) (s : string) : JsString.split c s <> [].
Proof.
  destruct s as [|a s]; simpl; [discriminate|].
  destruct (Ascii.eqb a c); [discriminate|].
  destruct (JsString.split c s); discriminate.
Qed.

Lemma split_hd (c : ascii) (s : string) :
  hd EmptyString (JsString.split c s) = JsString.firstSegment c s.
Proof.
  induction s as [|a s IH]; simpl; [reflexivity|].
  destruct (Ascii.eqb a c); [reflexivity|].
  destruct (JsString.split c s); simpl in *; congruence.
Qed.

(** [segments.join(c)] gives the string back. *)
Lemma split_join (c : ascii) (s : string) :
  String.concat (String c EmptyString) (JsString.split c s) = s.
Proof.
  induction s as [|a s IH]; simpl; [reflexivity|].
  destruct (Ascii.eqb_spec a c) as [->|Hne].
  - pose proof (split_nonempty c s) as Hn.
    destruct (JsString.split c s) as [|x xs]; [congruence|].
    simpl in *. now rewrite IH.
  - pose proof (split_nonempty c s) as Hn.
    destruct (JsString.split c s) as [|x xs]; [congruence|].
    destruct xs; simpl in *; now rewrite <- IH.
Qed.

Lemma split_free (c : ascii) (s : string) :
  JsString.free c s = true -> JsString.split c s = [s].
Proof.
  induction s as [|a s IH]; simpl; [reflexivity|].
  intros H; apply andb_true_iff in H as [Ha Hs].
  destruct (Ascii.eqb a c); [discriminate|].
  now rewrite (IH Hs).
Qed.

Lemma firstSegment_free (c : ascii) (s : string) :
  JsString.free c (JsString.firstSegment c s) = true.
Proof.
  induction s as [|a s IH]; simpl; [reflexivity|].
  destruct (Ascii.eqb a c) eqn:E; simpl; [reflexivity|].
  now rewrite E.
Qed.

Lemma concat_snoc (sep : string) (pre : list string) (seg : string) :
  String.concat sep (pre ++ [seg])%list =
  match pre with
  | [] => seg
  | _ => String.concat sep pre ++ sep ++ seg
  end.
Proof.
  induction pre as [|x pre IH]; [reflexivity|].
  destruct pre as [|y pre]; [reflexivity|].
  change (String.concat sep ((x :: y :: pre) ++ [seg])%list)
    with (x ++ sep ++ String.concat sep ((y :: pre) ++ [seg])%list).
  rewrite IH.
  change (String.concat sep (x :: y :: pre))
    with (x ++ sep ++ String.concat sep (y :: pre)).
  now rewrite !append_assoc.
Qed.

Lemma concat_firstn_prefix (sep : string) (l : list string) (k : nat) :
  JsString.startsWith (String.concat sep l)
    (String.concat sep (firstn k l)) = true.
Proof.
  revert k; induction l as [|x l IH]; intros k.
  - destruct k; reflexivity.
  - destruct k as [|k]; [apply startsWith_empty|].
    destruct l as [|y l].
    + destruct k; simpl; apply startsWith_iff; exists ""; now rewrite append_nil_r.
    + destruct k as [|k].
      * simpl. apply startsWith_append.
      * specialize (IH (S k)).
        apply startsWith_iff in IH as [r Hr].
        apply startsWith_iff. exists r.
        change (String.concat sep (x :: y :: l))
          with (x ++ sep ++ String.concat sep (y :: l)).
        change (String.concat sep (firstn (S (S k)) (x :: y :: l)))
          with (x ++ sep ++ String.concat sep (firstn (S k) (y :: l))).
        rewrite Hr at 1. now rewrite !append_assoc.
Qed.

End StringFacts.

(** * Topic truncation *)

Section TopicFacts.

Local Abbreviation join := (String.concat "/").

(** The loop keeps whole segments while the joined text stays
    strictly under the limit, and stops at the first that does not. *)
Lemma makeTopicPubSubSafe_loop_spec (rest pre : list string) :
  exists k,
    k <= List.length rest /\
    makeTopicPubSubSafe_loop rest (List.length pre) (join pre) =
      join (pre ++ firstn k rest)%list /\
    (forall j, 1 <= j <= k ->
       String.length (join (pre ++ firstn j rest)%list) < MAX_TOPIC_LEN) /\
    (k < List.length rest ->
       MAX_TOPIC_LEN <= String.length (join (pre ++ firstn (S k) rest)%list)).
Proof.
  revert pre; induction rest as [|seg rest IH]; intros pre.
  - exists 0; simpl. rewrite app_nil_r.
    repeat split; auto; intros; lia.
  - simpl makeTopicPubSubSafe_loop.
    assert (Hnext :
      (if (0 <? List.length pre)%nat then join pre ++ "/" else join pre)
        ++ seg = join (pre ++ [seg])%list).
    { rewrite concat_snoc. destruct pre as [|p pre].
      - reflexivity.
      - cbn [List.length Nat.ltb Nat.leb]. apply append_assoc. }
    rewrite Hnext.
    destruct (Nat.ltb_spec (String.length (join (pre ++ [seg])%list))
                MAX_TOPIC_LEN) as [Hlt|Hge].
    + destruct (IH (pre ++ [seg])%list) as (k & Hk & Hres & Hall & Hstop).
      exists (S k).
      rewrite length_app in Hres; simpl in Hres.
      rewrite Nat.add_1_r in Hres.
      repeat split.
      * simpl; lia.
      * rewrite Hres. now rewrite <- app_assoc.
      * intros j Hj. destruct j as [|j]; [lia|].
        simpl firstn.
        destruct j as [|j].
        -- simpl. exact Hlt.
        -- change (pre ++ seg :: firstn (S j) rest)%list
             with (pre ++ [seg] ++ firstn (S j) rest)%list.
           rewrite app_assoc. apply Hall. lia.
      * intros Hlen. simpl in Hlen.
        change (pre ++ firstn (S (S k)) (seg :: rest))%list
          with (pre ++ [seg] ++ firstn (S k) rest)%list.
        rewrite app_assoc. apply Hstop. lia.
    + exists 0. simpl firstn. rewrite app_nil_r.
      repeat split; auto.
      * simpl; lia.
      * intros; lia.
Qed.

End TopicFacts.

(** C8. [makeTopicPubSubSafe] returns a path of at most 80 characters
    unchanged.  For a longer path, when the first ["/"]-segment alone is
    longer than 80 characters the result is that segment's first 80
    characters; otherwise the result is the join of the first [k] whole
    segments, where every non-empty shorter join is strictly under 80
    characters and adding the next segment would reach 80, and the
    result is a prefix of the path.  A slash-free path of 100 characters
    becomes its first 80 characters. *)
Theorem makeTopicPubSubSafe_truncation (path : string) :
  let segments := JsString.split slash path in
  (String.length path <= 80 -> makeTopicPubSubSafe path = path) /\
  (80 < String.length path ->
   80 < String.length (JsString.firstSegment slash path) ->
   makeTopicPubSubSafe path =
     JsString.substringTo 80 (JsString.firstSegment slash path)) /\
  (80 < String.length path ->
   String.length (JsString.firstSegment slash path) <= 80 ->
   exists k,
     k < List.length segments /\
     makeTopicPubSubSafe path = String.concat "/" (firstn k segments) /\
     (forall j, 1 <= j <= k ->
        String.length (String.concat "/" (firstn j segments)) < 80) /\
     80 <= String.length (String.concat "/" (firstn (S k) segments)) /\
     JsString.startsWith path (makeTopicPubSubSafe path) = true) /\
  (JsString.free slash path = true -> String.length path = 100 ->
   makeTopicPubSubSafe path = JsString.substringTo 80 path /\
   String.length (makeTopicPubSubSafe path) = 80).
Proof.
  intros segments.
  pose proof (split_hd slash path) as Hhd. fold segments in Hhd.
  unfold makeTopicPubSubSafe, MAX_TOPIC_LEN. cbv zeta.
  fold segments. rewrite Hhd.
  split; [|split; [|split]].
  - intros H. destruct (Nat.ltb_spec 80 (String.length path)); [lia|reflexivity].
  - intros H1 H2.
    destruct (Nat.ltb_spec 80 (String.length path)); [|lia].
    destruct (Nat.ltb_spec 80 (String.length (JsString.firstSegment slash path)));
      [reflexivity|lia].
  - intros H1 H2.
    destruct (Nat.ltb_spec 80 (String.length path)); [|lia].
    destruct (Nat.ltb_spec 80 (String.length (JsString.firstSegment slash path)));
      [lia|].
    destruct (makeTopicPubSubSafe_loop_spec segments [])
      as (k & Hk & Hres & Hall & Hstop).
    simpl in Hres, Hall, Hstop. unfold MAX_TOPIC_LEN in *.
    assert (Hjoin : String.concat "/" segments = path)
      by apply split_join.
    assert (Hklt : k < List.length segments).
    { destruct (Nat.eq_dec k (List.length segments)) as [->|]; [|lia].
      exfalso.
      assert (Hpos : 1 <= List.length segments).
      { pose proof (split_nonempty slash path).
        fold segments in H3. destruct segments; simpl; [congruence|lia]. }
      specialize (Hall (List.length segments) (conj Hpos (le_n _))).
      rewrite firstn_all, Hjoin in Hall. lia. }
    exists k. repeat split; auto.
    rewrite Hres. rewrite <- Hjoin at 1. apply concat_firstn_prefix.
  - intros Hfree Hlen.
    assert (Hseg : JsString.firstSegment slash path = path).
    { rewrite <- split_hd. now rewrite split_free. }
    rewrite Hseg, Hlen. change (80 <? 100)%nat with true. cbv iota.
    split; [reflexivity|].
    rewrite substringTo_length. lia.
Qed.

(** * Facts about [Map] *)

Section MapFacts.
Variable V : Type.
Implicit Types (m : JsMap.t V) (k : string) (v : V).

Lemma get_set_eq m k v : JsMap.get (JsMap.set m k v) k = Some v.
Proof.
  induction m as [|[k' v'] m IH]; simpl.
  - now rewrite String.eqb_refl.
  - destruct (String.eqb k' k) eqn:E; simpl; rewrite E; auto.
Qed.

Lemma get_set_ne m k k' v :
  k <> k' -> JsMap.get (JsMap.set m k v) k' = JsMap.get m k'.
Proof.
  intros Hne. induction m as [|[k0 v0] m IH]; simpl.
  - destruct (String.eqb_spec k k'); congruence.
  - destruct (String.eqb_spec k0 k) as [->|]; simpl.
    + destruct (String.eqb_spec k k'); congruence.
    + destruct (String.eqb_spec k0 k'); auto.
Qed.

Lemma get_set m k k' v :
  JsMap.get (JsMap.set m k v) k' =
  if String.eqb k k' then Some v else JsMap.get m k'.
Proof.
  destruct (String.eqb_spec k k') as [->|Hne].
  - apply get_set_eq.
  - now apply get_set_ne.
Qed.

Lemma get_None_keys m k : JsMap.get m k = None <-> ~ In k (JsMap.keys m).
Proof.
  induction m as [|[k' v'] m IH]; simpl.
  - tauto.
  - destruct (String.eqb_spec k' k) as [->|Hne].
    + split; [discriminate | tauto].
    + rewrite IH. tauto.
Qed.

Lemma get_Some_In m k v : JsMap.get m k = Some v -> In (k, v) m.
Proof.
  induction m as [|[k' v'] m IH]; simpl; [discriminate|].
  destruct (String.eqb_spec k' k) as [->|Hne].
  - intros [= ->]; now left.
  - intros H; right; auto.
Qed.

Lemma In_get_Some m k v :
  JsMap.wf m -> In (k, v) m -> JsMap.get m k = Some v.
Proof.
  unfold JsMap.wf.
  induction m as [|[k' v'] m IH]; simpl; [tauto|].
  intros Hnd [Heq|Hin].
  - injection Heq as -> ->. now rewrite String.eqb_refl.
  - inversion Hnd as [|? ? Hnotin Hnd']; subst.
    destruct (String.eqb_spec k' k) as [->|Hne].
    + exfalso. apply Hnotin.
      change k with (fst (k, v)). now apply in_map.
    + now apply IH.
Qed.

Lemma keys_set m k v :
  JsMap.keys (JsMap.set m k v) =
  if JsMap.has m k then JsMap.keys m else (JsMap.keys m ++ [k])%list.
Proof.
  unfold JsMap.has.
  induction m as [|[k' v'] m IH]; simpl; [reflexivity|].
  destruct (String.eqb_spec k' k) as [->|Hne]; simpl; [reflexivity|].
  rewrite IH. now destruct (JsMap.get m k).
Qed.

Lemma wf_empty : JsMap.wf (@JsMap.empty V).
Proof. constructor. Qed.

Lemma wf_set m k v : JsMap.wf m -> JsMap.wf (JsMap.set m k v).
Proof.
  unfold JsMap.wf. intros Hnd. rewrite keys_set.
  unfold JsMap.has. destruct (JsMap.get m k) eqn:E; [assumption|].
  apply get_None_keys in E.
  apply NoDup_app; auto.
  - repeat constructor; simpl; tauto.
  - intros x Hx [<-|[]]. contradiction.
Qed.

Lemma keys_delete_incl m k x :
  In x (JsMap.keys (JsMap.delete m k)) -> In x (JsMap.keys m).
Proof.
  induction m as [|[k' v'] m IH]; simpl; [tauto|].
  destruct (String.eqb k' k); simpl; tauto.
Qed.

Lemma wf_delete m k : JsMap.wf m -> JsMap.wf (JsMap.delete m k).
Proof.
  unfold JsMap.wf.
  induction m as [|[k' v'] m IH]; simpl; [auto|].
  intros Hnd. inversion Hnd as [|? ? Hnotin Hnd']; subst.
  destruct (String.eqb k' k); [assumption|].
  simpl. constructor; auto.
  intros Hin. apply Hnotin. eapply keys_delete_incl; eauto.
Qed.

Lemma get_delete_eq m k : JsMap.wf m -> JsMap.get (JsMap.delete m k) k = None.
Proof.
  unfold JsMap.wf.
  induction m as [|[k' v'] m IH]; simpl; [auto|].
  intros Hnd. inversion Hnd as [|? ? Hnotin Hnd']; subst.
  destruct (String.eqb_spec k' k) as [->|Hne].
  - now apply get_None_keys.
  - simpl. destruct (String.eqb_spec k' k); [congruence|auto].
Qed.

Lemma get_delete_ne m k k' :
  k <> k' -> JsMap.get (JsMap.delete m k) k' = JsMap.get m k'.
Proof.
  intros Hne. induction m as [|[k0 v0] m IH]; simpl; [auto|].
  destruct (String.eqb_spec k0 k) as [->|Hne0]; simpl.
  - destruct (String.eqb_spec k k'); congruence.
  - destruct (String.eqb_spec k0 k'); auto.
Qed.

Lemma set_set m k v v' :
  JsMap.set (JsMap.set m k v) k v' = JsMap.set m k v'.
Proof.
  induction m as [|[k0 v0] m IH]; simpl.
  - now rewrite String.eqb_refl.
  - destruct (String.eqb k0 k) eqn:E; simpl; rewrite E; congruence.
Qed.

Lemma set_get_same m k v : JsMap.get m k = Some v -> JsMap.set m k v = m.
Proof.
  induction m as [|[k0 v0] m IH]; simpl; [discriminate|].
  destruct (String.eqb_spec k0 k) as [->|Hne].
  - now intros [= ->].
  - intros H; f_equal; auto.
Qed.

Lemma set_absent m k v :
  JsMap.get m k = None -> JsMap.set m k v = (m ++ [(k, v)])%list.
Proof.
  induction m as [|[k0 v0] m IH]; simpl; [reflexivity|].
  destruct (String.eqb k0 k); [discriminate|].
  intros H; f_equal; auto.
Qed.

(** Maps with the same entries in any order have the same bindings. *)
Lemma Permutation_same_bindings (m1 m2 : JsMap.t V) :
  JsMap.wf m1 -> Permutation m1 m2 -> JsMap.same_bindings m1 m2.
Proof.
  intros Hwf Hperm k.
  assert (Hwf2 : JsMap.wf m2).
  { unfold JsMap.wf, JsMap.keys in *.
    eapply Permutation_NoDup; [|exact Hwf]. now apply Permutation_map. }
  destruct (JsMap.get m1 k) as [v|] eqn:E1.
  - symmetry. apply In_get_Some; auto.
    eapply Permutation_in; [exact Hperm|]. now apply get_Some_In.
  - destruct (JsMap.get m2 k) as [v|] eqn:E2; [|reflexivity].
    apply get_Some_In in E2.
    apply Permutation_sym in Hperm.
    apply (Permutation_in _ Hperm) in E2.
    apply In_get_Some in E2; auto. congruence.
Qed.

End MapFacts.

(** * Children derivation *)

Section ChildrenFacts.

Import ReactiveIndex.

Lemma isChildKey_iff (prefix k : string) (f : ReactiveFileMetadata) :
  isChildKey prefix (k, f) = true <->
  exists suffix, suffix <> "" /\ k = prefix ++ suffix.
Proof.
  unfold isChildKey; simpl. rewrite andb_true_iff, negb_true_iff.
  rewrite startsWith_iff, String.eqb_neq. split.
  - intros [[r ->] Hne]. exists r. split; auto.
    intros ->. now rewrite append_nil_r in Hne.
  - intros (r & Hr & ->). split; [now exists r|].
    intros H. apply Hr.
    apply (f_equal String.length) in H. rewrite length_append in H.
    destruct r; simpl in *; [reflexivity|lia].
Qed.

Lemma append_cancel_l (p a b : string) : p ++ a = p ++ b -> a = b.
Proof. induction p; simpl; [auto|]. intros [= H]; auto. Qed.

(** On a well-formed file map the [forEach] of [getChildren] is a
    filter followed by a re-keying, in file order. *)
Lemma getChildren_fold (prefix : string)
    (l : JsMap.t ReactiveFileMetadata) :
  JsMap.wf l ->
  fold_left
    (fun children (entry : string * ReactiveFileMetadata) =>
       let (key, file) := entry in
       if JsString.startsWith key prefix && negb (String.eqb key prefix)
       then JsMap.set children
              (JsString.substringFrom (String.length prefix) key) file
       else children) l JsMap.empty
  = map (rekey prefix) (filter (isChildKey prefix) l).
Proof.
  induction l as [|[k f] l IH] using rev_ind; intros Hwf; [reflexivity|].
  assert (Hwfl : JsMap.wf l).
  { unfold JsMap.wf, JsMap.keys in *. rewrite map_app in Hwf.
    now apply NoDup_app_remove_r in Hwf. }
  rewrite fold_left_app, filter_app, map_app. simpl.
  rewrite (IH Hwfl).
  change (JsString.startsWith k prefix && negb (String.eqb k prefix))
    with (isChildKey prefix (k, f)).
  destruct (isChildKey prefix (k, f)) eqn:E; simpl;
    [|now rewrite app_nil_r].
  apply set_absent.
  apply get_None_keys. unfold JsMap.keys. rewrite map_map.
  intros Hin. apply in_map_iff in Hin as ([k' f'] & Heq & Hin').
  apply filter_In in Hin' as [Hin' Hc]. simpl in Heq.
  apply isChildKey_iff in E as (s & _ & ->).
  apply isChildKey_iff in Hc as (s' & _ & ->).
  rewrite !substringFrom_append in Heq. subst s'.
  unfold JsMap.wf, JsMap.keys in Hwf. rewrite map_app in Hwf.
  apply NoDup_remove_2 in Hwf. simpl in Hwf. rewrite app_nil_r in Hwf.
  apply Hwf. change (prefix ++ s) with (fst (prefix ++ s, f')).
  now apply in_map.
Qed.

Lemma getChildren_eq (ix : t) (path : string) :
  JsMap.wf (files ix) ->
  getChildren ix path =
  map (rekey (folderPrefix path))
    (filter (isChildKey (folderPrefix path)) (files ix)).
Proof. intros Hwf. unfold getChildren. now apply getChildren_fold. Qed.

Lemma rekeyed_keys_NoDup (prefix : string)
    (l : JsMap.t ReactiveFileMetadata) :
  JsMap.wf l ->
  JsMap.wf (map (rekey prefix) (filter (isChildKey prefix) l)).
Proof.
  unfold JsMap.wf, JsMap.keys.
  induction l as [|[k f] l IH]; simpl; intros Hnd; [constructor|].
  inversion Hnd as [|? ? Hnotin Hnd']; subst.
  destruct (isChildKey prefix (k, f)) eqn:E; simpl; auto.
  constructor; auto.
  rewrite map_map. intros Hin.
  apply in_map_iff in Hin as ([k' f'] & Heq & Hin').
  apply filter_In in Hin' as [Hin' Hc]. simpl in Heq.
  apply isChildKey_iff in E as (s & _ & ->).
  apply isChildKey_iff in Hc as (s' & _ & ->).
  rewrite !substringFrom_append in Heq. subst s'.
  apply Hnotin. change (prefix ++ s) with (fst (prefix ++ s, f')).
  now apply in_map.
Qed.

Lemma getChildren_wf (ix : t) (path : string) :
  JsMap.wf (files ix) -> JsMap.wf (getChildren ix path).
Proof.
  intros Hwf. rewrite getChildren_eq by assumption.
  now apply rekeyed_keys_NoDup.
Qed.

(** Lookup in the children map, in terms of lookup in the files. *)
Lemma getChildren_get (ix : t) (path suffix : string) :
  JsMap.wf (files ix) ->
  JsMap.get (getChildren ix path) suffix =
  if String.eqb suffix "" then None
  else JsMap.get (files ix) (folderPrefix path ++ suffix).
Proof.
  intros Hwf.
  pose proof (getChildren_wf ix path Hwf) as Hwfc.
  rewrite getChildren_eq in * by assumption.
  set (prefix := folderPrefix path) in *.
  destruct (JsMap.get (map (rekey prefix)
              (filter (isChildKey prefix) (files ix))) suffix)
    as [f|] eqn:E.
  - apply get_Some_In in E.
    apply in_map_iff in E as ([k f'] & Heq & Hin).
    apply filter_In in Hin as [Hin Hc].
    apply isChildKey_iff in Hc as (s & Hs & ->).
    unfold rekey in Heq; simpl in Heq.
    rewrite substringFrom_append in Heq. injection Heq as -> ->.
    destruct (String.eqb_spec suffix ""); [contradiction|].
    symmetry. now apply In_get_Some.
  - destruct (String.eqb_spec suffix "") as [|Hne]; [reflexivity|].
    destruct (JsMap.get (files ix) (prefix ++ suffix)) as [f|] eqn:E';
      [|reflexivity].
    apply get_Some_In in E'.
    assert (Hin : In (suffix, f)
              (map (rekey prefix) (filter (isChildKey prefix) (files ix)))).
    { apply in_map_iff. exists (prefix ++ suffix, f). split.
      - unfold rekey; simpl. now rewrite substringFrom_append.
      - apply filter_In. split; auto.
        apply isChildKey_iff. now exists suffix. }
    apply In_get_Some in Hin; auto. congruence.
Qed.

End ChildrenFacts.

(** * Facts about the default sort *)

Section SortFacts.

Lemma leb_iff (a b : string) :
  String.leb a b = true <-> a = b \/ String_as_OT.lt a b.
Proof.
  unfold String.leb.
  destruct (String.compare a b) eqn:E.
  - apply String_as_OT.cmp_eq in E. tauto.
  - apply String_as_OT.cmp_lt in E. tauto.
  - split; [discriminate|]. intros [->|H].
    + assert (String.compare b b = Eq) by now apply String_as_OT.cmp_eq.
      congruence.
    + apply String_as_OT.cmp_lt in H. unfold String_as_OT.cmp in H.
      congruence.
Qed.


Lemma leb_trans (a b c : string) :
  String.leb a b = true -> String.leb b c = true -> String.leb a c = true.
Proof.
  rewrite !leb_iff. intros [->|Hab] [->|Hbc]; auto.
  right. eapply String_as_OT.lt_trans; eauto.
Qed.

Variable A : Type.
Variable toString : A -> string.

Local Abbreviation le := (fun x y : A => String.leb (toString x) (toString y) = true).

Lemma insert_Permutation (x : A) (l : list A) :
  Permutation (JsArray.insert toString x l) (x :: l).
Proof.
  induction l as [|y l IH]; simpl; [reflexivity|].
  destruct (String.leb (toString x) (toString y)); [reflexivity|].
  rewrite IH. apply perm_swap.
Qed.

Lemma sort_Permutation (l : list A) : Permutation (JsArray.sort toString l) l.
Proof.
  induction l as [|x l IH]; simpl; [reflexivity|].
  rewrite insert_Permutation. now constructor.
Qed.

Lemma insert_Sorted (x : A) (l : list A) :
  StronglySorted le l -> StronglySorted le (JsArray.insert toString x l).
Proof.
  induction 1 as [|y l Hs IH Hall]; simpl.
  - constructor; constructor.
  - destruct (String.leb (toString x) (toString y)) eqn:E.
    + constructor; [now constructor|].
      constructor; [assumption|].
      eapply Forall_impl; [|exact Hall].
      intros z Hz. eapply leb_trans; eauto.
    + constructor; [assumption|].
      assert (Hyx : String.leb (toString y) (toString x) = true).
      { destruct (String.leb_total (toString x) (toString y)); congruence. }
      eapply Permutation_Forall.
      * symmetry. apply insert_Permutation.
      * now constructor.
Qed.

Lemma sort_Sorted (l : list A) : StronglySorted le (JsArray.sort toString l).
Proof.
  induction l as [|x l IH]; simpl; [constructor|]. now apply insert_Sorted.
Qed.

(** A sorted list is determined by its elements when distinct elements
    have distinct sort keys. *)
Lemma Sorted_Permutation_eq (l1 l2 : list A) :
  (forall x y, In x l1 -> In y l1 -> toString x = toString y -> x = y) ->
  StronglySorted le l1 -> StronglySorted le l2 ->
  Permutation l1 l2 -> l1 = l2.
Proof.
  revert l2; induction l1 as [|x l1 IH]; intros l2 Hinj H1 H2 Hperm.
  - apply Permutation_nil in Hperm. now subst.
  - destruct l2 as [|y l2].
    + symmetry in Hperm. apply Permutation_nil in Hperm. discriminate.
    + inversion H1 as [|? ? Hs1 Hall1]; subst.
      inversion H2 as [|? ? Hs2 Hall2]; subst.
      assert (Hxy : x = y).
      { assert (Hy : In y (x :: l1))
          by (eapply Permutation_in; [symmetry; exact Hperm | now left]).
        assert (Hx : In x (y :: l2))
          by (eapply Permutation_in; [exact Hperm | now left]).
        destruct Hy as [Hy|Hy]; [assumption|].
        destruct Hx as [Hx|Hx]; [now symmetry|].
        rewrite Forall_forall in Hall1, Hall2.
        apply Hinj; [now left | now right |].
        apply String.leb_antisym; auto. }
      subst y. f_equal.
      apply IH; auto.
      * intros a b Ha Hb. apply Hinj; now right.
      * eapply Permutation_cons_inv; eauto.
Qed.

Lemma sort_canonical (l1 l2 : list A) :
  (forall x y, In x l1 -> In y l1 -> toString x = toString y -> x = y) ->
  Permutation l1 l2 ->
  JsArray.sort toString l1 = JsArray.sort toString l2.
Proof.
  intros Hinj Hperm.
  apply Sorted_Permutation_eq; try apply sort_Sorted.
  - intros x y Hx Hy. apply Hinj;
      (eapply Permutation_in; [apply sort_Permutation | assumption]).
  - rewrite !sort_Permutation. assumption.
Qed.


End SortFacts.

(** * Children-listener diffing *)

Section DiffFacts.

Import ReactiveIndex.

Lemma ReactiveFileMetadata_eqb_eq (a b : ReactiveFileMetadata) :
  ReactiveFileMetadata_eqb a b = true <-> a = b.
Proof.
  unfold ReactiveFileMetadata_eqb. destruct a, b; simpl.
  rewrite !andb_true_iff, String.eqb_eq, !Z.eqb_eq.
  split; [intros [[-> ->] ->]; reflexivity | intros [= -> -> ->]; auto].
Qed.

Lemma sameJSON_eq (a b : list (string * ReactiveFileMetadata)) :
  sameJSON a b = true <-> a = b.
Proof.
  revert b; induction a as [|[ka fa] a IH]; intros [|[kb fb] b]; simpl;
    try (split; [discriminate | congruence]); [tauto|].
  rewrite !andb_true_iff, String.eqb_eq, ReactiveFileMetadata_eqb_eq, IH.
  split; [intros [[-> ->] ->]; reflexivity | intros [= -> -> ->]; auto].
Qed.

Lemma wf_NoDup (V : Type) (m : JsMap.t V) : JsMap.wf m -> NoDup m.
Proof.
  unfold JsMap.wf, JsMap.keys. apply NoDup_map_inv.
Qed.

Lemma same_bindings_Permutation (V : Type) (m1 m2 : JsMap.t V) :
  JsMap.wf m1 -> JsMap.wf m2 -> JsMap.same_bindings m1 m2 ->
  Permutation m1 m2.
Proof.
  intros H1 H2 Hsame.
  apply NoDup_Permutation; try now apply wf_NoDup.
  intros [k v]. split; intros Hin.
  - apply get_Some_In. rewrite <- Hsame. now apply In_get_Some.
  - apply get_Some_In. rewrite Hsame. now apply In_get_Some.
Qed.

Lemma entryToString_inj (m : JsMap.t ReactiveFileMetadata) :
  JsMap.wf m ->
  forall x y, In x m -> In y m -> entryToString x = entryToString y -> x = y.
Proof.
  intros Hwf [kx fx] [ky fy] Hx Hy Heq.
  unfold entryToString in Heq; simpl in Heq.
  apply append_cancel_r in Heq. subst ky.
  apply In_get_Some in Hx, Hy; auto. congruence.
Qed.

(** The comparison of the two sorted serialisations decides whether the
    two snapshots hold the same bindings, whatever their order. *)
Lemma sortedEntries_same (m1 m2 : JsMap.t ReactiveFileMetadata) :
  JsMap.wf m1 -> JsMap.wf m2 ->
  (sameJSON (sortedEntries m1) (sortedEntries m2) = true <->
   JsMap.same_bindings m1 m2).
Proof.
  intros H1 H2. rewrite sameJSON_eq. unfold sortedEntries. split.
  - intros Heq. apply Permutation_same_bindings; auto.
    rewrite <- (sort_Permutation entryToString m1).
    rewrite <- (sort_Permutation entryToString m2).
    now rewrite Heq.
  - intros Hsame. apply sort_canonical.
    + now apply entryToString_inj.
    + now apply same_bindings_Permutation.
Qed.

End DiffFacts.

(** * The diffing pass *)

Section UpdateChildListenersFacts.

Import ReactiveIndex.

Lemma getChildren_files (ix ix' : t) (path : string) :
  files ix = files ix' -> getChildren ix path = getChildren ix' path.
Proof. unfold getChildren. now intros ->. Qed.

Lemma childrenChanged_get (last last' : JsMap.t (JsMap.t ReactiveFileMetadata))
    (ix : t) (k : string) :
  JsMap.get last k = JsMap.get last' k ->
  childrenChanged last ix k = childrenChanged last' ix k.
Proof.
  unfold childrenChanged, lastNotifiedOrEmpty. now intros ->.
Qed.

Lemma flat_map_ext_in (X Y : Type) (f g : X -> list Y) (l : list X) :
  (forall x, In x l -> f x = g x) -> flat_map f l = flat_map g l.
Proof.
  intros H. induction l as [|x l IH]; simpl; [reflexivity|].
  rewrite H by now left. rewrite IH; [reflexivity|].
  intros y Hy. apply H. now right.
Qed.

(** With distinct registry keys every path is compared with the
    snapshot stored before the pass. *)
Lemma _updateChildListeners_fold (ix : t) (registry : JsMap.t (list Listener))
    (last : JsMap.t (JsMap.t ReactiveFileMetadata)) (tr : Trace) :
  JsMap.wf registry ->
  fold_left (_updateChildListeners_body ix) registry (last, tr) =
  (fold_left (fun acc (e : string * list Listener) =>
                JsMap.set acc (fst e) (getChildren ix (fst e)))
     registry last,
   (tr ++ flat_map
      (fun e : string * list Listener =>
         if childrenChanged last ix (fst e)
         then map (fun l => ChildrenListenerCall l (getChildren ix (fst e)))
                (snd e)
         else []) registry)%list).
Proof.
  unfold JsMap.wf, JsMap.keys.
  revert last tr; induction registry as [|[k ls] registry IH];
    intros last tr Hnd; simpl.
  - now rewrite app_nil_r.
  - inversion Hnd as [|? ? Hnotin Hnd']; subst.
    rewrite IH by assumption. f_equal.
    assert (Hext :
      flat_map
        (fun e : string * list Listener =>
           if childrenChanged (JsMap.set last k (getChildren ix k)) ix (fst e)
           then map (fun l => ChildrenListenerCall l (getChildren ix (fst e)))
                  (snd e)
           else []) registry =
      flat_map
        (fun e : string * list Listener =>
           if childrenChanged last ix (fst e)
           then map (fun l => ChildrenListenerCall l (getChildren ix (fst e)))
                  (snd e)
           else []) registry).
    { apply flat_map_ext_in. intros [k' ls'] Hin; simpl.
      rewrite (childrenChanged_get (JsMap.set last k (getChildren ix k)) last);
        [reflexivity|].
      apply get_set_ne. intros ->. apply Hnotin.
      change k' with (fst (k', ls')). now apply in_map. }
    rewrite Hext.
    destruct (childrenChanged last ix k); simpl.
    + now rewrite <- app_assoc.
    + reflexivity.
Qed.

Lemma refreshed_get (ix : t) (registry : JsMap.t (list Listener))
    (last : JsMap.t (JsMap.t ReactiveFileMetadata)) (path : string) :
  JsMap.get
    (fold_left (fun acc (e : string * list Listener) =>
                  JsMap.set acc (fst e) (getChildren ix (fst e)))
       registry last) path =
  if in_dec string_dec path (JsMap.keys registry)
  then Some (getChildren ix path)
  else JsMap.get last path.
Proof.
  revert last; induction registry as [|[k ls] registry IH]; intros last;
    simpl; [reflexivity|].
  rewrite IH. simpl.
  destruct (in_dec string_dec path (JsMap.keys registry)) as [Hin|Hnin].
  - destruct (string_dec k path); reflexivity.
  - destruct (string_dec k path) as [->|Hne].
    + apply get_set_eq.
    + now apply get_set_ne.
Qed.

Lemma _updateChildListeners_eq (ix : t) :
  JsMap.wf (childrenListeners ix) ->
  _updateChildListeners ix =
  (with_childrenLastNotified
     (fold_left (fun acc (e : string * list Listener) =>
                   JsMap.set acc (fst e) (getChildren ix (fst e)))
        (childrenListeners ix) (childrenLastNotified ix)) ix,
   flat_map (notifications ix) (childrenListeners ix)).
Proof.
  intros Hwf. unfold _updateChildListeners.
  now rewrite _updateChildListeners_fold.
Qed.

Lemma _updateChildListeners_files (ix : t) :
  files (fst (_updateChildListeners ix)) = files ix.
Proof.
  unfold _updateChildListeners.
  now destruct (fold_left _ _ _).
Qed.

Lemma _updateChildListeners_registries (ix : t) :
  metadataListeners (fst (_updateChildListeners ix)) = metadataListeners ix /\
  childrenListeners (fst (_updateChildListeners ix)) = childrenListeners ix.
Proof.
  unfold _updateChildListeners.
  now destruct (fold_left _ _ _).
Qed.

(** After the pass every registered path stores its current children
    and nothing else is stored: the invariant is re-established whatever
    the files were changed to. *)
Lemma _updateChildListeners_wf (ix0 ix : t) :
  index_wf ix0 ->
  JsMap.wf (files ix) ->
  metadataListeners ix = metadataListeners ix0 ->
  childrenListeners ix = childrenListeners ix0 ->
  childrenLastNotified ix = childrenLastNotified ix0 ->
  index_wf (fst (_updateChildListeners ix)).
Proof.
  intros (Hf & Hm & Hc & Hlast) Hfiles Em Ec El.
  rewrite _updateChildListeners_eq by (now rewrite Ec).
  unfold index_wf; simpl. rewrite Em, Ec.
  repeat split; auto.
  - rewrite El, refreshed_get in H.
    destruct (in_dec string_dec path (JsMap.keys (childrenListeners ix0)));
      [assumption|].
    now apply Hlast in H.
  - rewrite El, refreshed_get in H.
    destruct (in_dec string_dec path (JsMap.keys (childrenListeners ix0)))
      as [Hin|Hnin].
    + injection H as <-. now apply getChildren_files.
    + apply Hlast in H. tauto.
Qed.

(** Counting the calls of one listener over the registry. *)
Lemma childrenCalls_app (l : Listener) (t1 t2 : Trace) :
  childrenCalls l (t1 ++ t2)%list = childrenCalls l t1 + childrenCalls l t2.
Proof.
  unfold childrenCalls. now rewrite filter_app, length_app.
Qed.

Lemma childrenCalls_map (l : Listener) (ls : list Listener)
    (children : JsMap.t ReactiveFileMetadata) :
  childrenCalls l (map (fun l' => ChildrenListenerCall l' children) ls) =
  count_occ Nat.eq_dec ls l.
Proof.
  unfold childrenCalls.
  induction ls as [|x ls IH]; simpl; [reflexivity|].
  destruct (Nat.eqb_spec x l) as [->|Hne]; simpl.
  - destruct (Nat.eq_dec l l); [now rewrite IH | congruence].
  - destruct (Nat.eq_dec x l); [congruence | assumption].
Qed.

Lemma childrenCalls_metadata (l : Listener) (ls : list Listener)
    (file : option ReactiveFileMetadata) :
  childrenCalls l (map (fun l' => MetadataListenerCall l' file) ls) = 0.
Proof.
  unfold childrenCalls. induction ls; simpl; auto.
Qed.

Lemma childrenCalls_notifications (ix : t) (l : Listener) (path : string)
    (registry : JsMap.t (list Listener)) :
  JsMap.wf registry ->
  (forall k ls, In (k, ls) registry ->
     count_occ Nat.eq_dec ls l = if String.eqb k path then 1 else 0) ->
  childrenCalls l (flat_map (notifications ix) registry) =
  if in_dec string_dec path (JsMap.keys registry)
  then if childrenChanged (childrenLastNotified ix) ix path then 1 else 0
  else 0.
Proof.
  unfold JsMap.wf, JsMap.keys.
  induction registry as [|[k ls] registry IH]; intros Hnd Hreg; simpl;
    [reflexivity|].
  inversion Hnd as [|? ? Hnotin Hnd']; subst.
  rewrite childrenCalls_app, IH; auto.
  2:{ intros k' ls' Hin. apply Hreg. now right. }
  pose proof (Hreg k ls (or_introl eq_refl)) as Hk.
  unfold notifications at 1; simpl.
  destruct (string_dec k path) as [->|Hne].
  - rewrite String.eqb_refl in Hk.
    destruct (in_dec string_dec path (map fst registry)); [contradiction|].
    destruct (childrenChanged (childrenLastNotified ix) ix path);
      [rewrite childrenCalls_map; lia | reflexivity].
  - assert (Hne' : String.eqb k path = false) by now apply String.eqb_neq.
    rewrite Hne' in Hk.
    destruct (childrenChanged (childrenLastNotified ix) ix k);
      [rewrite childrenCalls_map, Hk | ]; simpl;
      destruct (in_dec string_dec path (map fst registry)); reflexivity.
Qed.

End UpdateChildListenersFacts.

(** * The merge primitives *)

Section MergeFacts.

Import ReactiveIndex.

Lemma _updateFileInIndex_rejected (file : ReactiveFileMetadata) (ix : t) :
  accepts (files ix) file = false -> _updateFileInIndex file ix = (ix, []).
Proof.
  unfold _updateFileInIndex, accepts. now intros ->.
Qed.

Lemma _updateFileInIndex_accepted (file : ReactiveFileMetadata) (ix : t) :
  accepts (files ix) file = true ->
  _updateFileInIndex file ix =
  let ix1 := with_files (JsMap.set (files ix) (key file) file) ix in
  (fst (_updateChildListeners ix1),
   (map (fun l => MetadataListenerCall l (Some file))
      (listenersAt (metadataListeners ix) (key file))
    ++ snd (_updateChildListeners ix1))%list).
Proof.
  unfold _updateFileInIndex, accepts. intros ->. simpl.
  now destruct (_updateChildListeners _).
Qed.

Lemma _updateFileInIndex_files (file : ReactiveFileMetadata) (ix : t) :
  files (fst (_updateFileInIndex file ix)) =
  if accepts (files ix) file
  then JsMap.set (files ix) (key file) file else files ix.
Proof.
  destruct (accepts (files ix) file) eqn:E.
  - rewrite _updateFileInIndex_accepted by assumption. simpl.
    now rewrite _updateChildListeners_files.
  - now rewrite _updateFileInIndex_rejected.
Qed.

Lemma _updateFileInIndex_wf (file : ReactiveFileMetadata) (ix : t) :
  index_wf ix -> index_wf (fst (_updateFileInIndex file ix)).
Proof.
  intros Hwf. destruct (accepts (files ix) file) eqn:E.
  - rewrite _updateFileInIndex_accepted by assumption. simpl.
    apply _updateChildListeners_wf with (ix0 := ix); try reflexivity;
      try assumption.
    simpl. apply wf_set. apply Hwf.
  - now rewrite _updateFileInIndex_rejected.
Qed.

Lemma _deleteFileInIndex_eq (path : string) (ix : t) :
  _deleteFileInIndex path ix =
  let ix1 := with_files (JsMap.delete (files ix) path) ix in
  (fst (_updateChildListeners ix1),
   (map (fun l => MetadataListenerCall l None)
      (listenersAt (metadataListeners ix) path)
    ++ snd (_updateChildListeners ix1))%list).
Proof.
  unfold _deleteFileInIndex. simpl.
  now destruct (_updateChildListeners _).
Qed.

Lemma _deleteFileInIndex_wf (path : string) (ix : t) :
  index_wf ix -> index_wf (fst (_deleteFileInIndex path ix)).
Proof.
  intros Hwf. rewrite _deleteFileInIndex_eq. simpl.
  apply _updateChildListeners_wf with (ix0 := ix); try reflexivity;
      try assumption.
  simpl. apply wf_delete. apply Hwf.
Qed.

Lemma create_wf (lvl : Level) : index_wf (create lvl).
Proof.
  unfold index_wf, create; simpl.
  repeat split; try apply wf_empty; discriminate.
Qed.

Lemma applyUpdates_files (events : list ReactiveFileMetadata) (ix : t) :
  files (fst (applyUpdates events ix)) =
  fold_left (fun fs file =>
               if accepts fs file then JsMap.set fs (key file) file else fs)
    events (files ix).
Proof.
  revert ix; induction events as [|file events IH]; intros ix; simpl;
    [reflexivity|].
  pose proof (_updateFileInIndex_files file ix) as Hf.
  destruct (_updateFileInIndex file ix) as [ix1 tr1]. simpl in Hf.
  specialize (IH ix1).
  destruct (applyUpdates events ix1) as [ix2 tr2]. simpl in *.
  now rewrite IH, Hf.
Qed.

(** Once the newest record is stored, later records that are not newer
    change nothing. *)
Lemma merge_stable (events : list ReactiveFileMetadata)
    (fs : JsMap.t ReactiveFileMetadata) (r : ReactiveFileMetadata) :
  JsMap.get fs (key r) = Some r ->
  (forall x, In x events ->
     key x = key r /\ (lastModified x <= lastModified r)%Z) ->
  fold_left (fun fs file =>
               if accepts fs file then JsMap.set fs (key file) file else fs)
    events fs = fs.
Proof.
  intros Hget. induction events as [|x events IH]; intros Hall; simpl;
    [reflexivity|].
  destruct (Hall x (or_introl eq_refl)) as [Hk Hle].
  unfold accepts at 2. rewrite Hk, Hget.
  destruct (Z.ltb_spec (lastModified r) (lastModified x)); [lia|].
  apply IH. intros y Hy. apply Hall. now right.
Qed.

(** Last-writer-wins convergence on the file map. *)
Lemma merge_converges (events : list ReactiveFileMetadata)
    (fs : JsMap.t ReactiveFileMetadata) (r : ReactiveFileMetadata) :
  In r events ->
  NoDup (map lastModified events) ->
  (forall x, In x events ->
     key x = key r /\ (lastModified x <= lastModified r)%Z) ->
  match JsMap.get fs (key r) with
  | None => True
  | Some e => (lastModified e < lastModified r)%Z
  end ->
  fold_left (fun fs file =>
               if accepts fs file then JsMap.set fs (key file) file else fs)
    events fs = JsMap.set fs (key r) r.
Proof.
  revert fs; induction events as [|x events IH];
    intros fs Hin Hnd Hall Hinit; [contradiction|].
  simpl. inversion Hnd as [|? ? Hnotin Hnd']; subst.
  destruct (Hall x (or_introl eq_refl)) as [Hk Hle].
  assert (Hrest : forall y, In y events ->
            key y = key r /\ (lastModified y <= lastModified r)%Z)
    by (intros y Hy; apply Hall; now right).
  destruct (Z.eq_dec (lastModified x) (lastModified r)) as [Heq|Hneq].
  - assert (x = r).
    { destruct Hin as [|Hin]; [assumption|].
      exfalso. apply Hnotin. rewrite Heq. now apply in_map. }
    subst x.
    assert (Hacc : accepts fs r = true).
    { unfold accepts. destruct (JsMap.get fs (key r)); [|reflexivity].
      now apply Z.ltb_lt. }
    rewrite Hacc. apply merge_stable with (r := r); auto. apply get_set_eq.
  - assert (Hin' : In r events) by (destruct Hin; [congruence|assumption]).
    destruct (accepts fs x) eqn:Hacc.
    + rewrite IH; auto.
      * rewrite Hk. apply set_set.
      * rewrite Hk, get_set_eq. lia.
    + now apply IH.
Qed.

End MergeFacts.

(** * The claims about the index *)

Section IndexClaims.

Import ReactiveIndex.

Lemma accepts_after_update (file : ReactiveFileMetadata) (ix : t) :
  accepts (files (fst (_updateFileInIndex file ix))) file = false.
Proof.
  rewrite _updateFileInIndex_files.
  destruct (accepts (files ix) file) eqn:E.
  - unfold accepts. rewrite get_set_eq. apply Z.ltb_irrefl.
  - assumption.
Qed.

(** C1. The update merge is last-writer-wins by timestamp.  An incoming
    record whose key is absent, or stored with a strictly older
    [lastModified], replaces the stored record; an incoming record
    whose [lastModified] is less than or equal to the stored one
    leaves the index unchanged and calls no listener; replaying an
    update is a no-op.  For update events of one key with pairwise
    distinct timestamps, delivered in any order to an index that holds
    nothing newer for that key, the stored record is the one with the
    maximal timestamp. *)
Theorem update_is_last_writer_wins (ix : ReactiveIndex.t) :
  (forall file,
     match getMetadata ix (key file) with
     | None => True
     | Some existing => (lastModified existing < lastModified file)%Z
     end ->
     files (fst (_updateFileInIndex file ix)) =
       JsMap.set (files ix) (key file) file /\
     getMetadata (fst (_updateFileInIndex file ix)) (key file) = Some file) /\
  (forall file existing,
     getMetadata ix (key file) = Some existing ->
     (lastModified file <= lastModified existing)%Z ->
     _updateFileInIndex file ix = (ix, [])) /\
  (forall file,
     let ix1 := fst (_updateFileInIndex file ix) in
     _updateFileInIndex file ix1 = (ix1, [])) /\
  (forall events events' newest,
     Permutation events events' ->
     In newest events ->
     NoDup (map lastModified events) ->
     (forall x, In x events ->
        key x = key newest /\ (lastModified x <= lastModified newest)%Z) ->
     match getMetadata ix (key newest) with
     | None => True
     | Some existing => (lastModified existing < lastModified newest)%Z
     end ->
     getMetadata (fst (applyUpdates events' ix)) (key newest) = Some newest /\
     files (fst (applyUpdates events' ix)) =
       JsMap.set (files ix) (key newest) newest).
Proof.
  split; [|split; [|split]].
  - intros file Hinit.
    assert (Hacc : accepts (files ix) file = true).
    { unfold accepts. unfold getMetadata in Hinit.
      destruct (JsMap.get (files ix) (key file)); [|reflexivity].
      now apply Z.ltb_lt. }
    unfold getMetadata.
    rewrite _updateFileInIndex_files, Hacc.
    split; [reflexivity | apply get_set_eq].
  - intros file existing Hget Hle.
    apply _updateFileInIndex_rejected.
    unfold accepts. unfold getMetadata in Hget. rewrite Hget.
    apply Z.ltb_ge. assumption.
  - intros file ix1. apply _updateFileInIndex_rejected.
    apply accepts_after_update.
  - intros events events' newest Hperm Hin Hnd Hall Hinit.
    assert (Hfiles :
      files (fst (applyUpdates events' ix)) =
      JsMap.set (files ix) (key newest) newest).
    { rewrite applyUpdates_files. apply merge_converges.
      - eapply Permutation_in; eauto.
      - eapply Permutation_NoDup; [|exact Hnd].
        now apply Permutation_map.
      - intros x Hx. apply Hall.
        eapply Permutation_in; [symmetry; exact Hperm | exact Hx].
      - exact Hinit. }
    split; [|exact Hfiles].
    unfold getMetadata. rewrite Hfiles. apply get_set_eq.
Qed.

Lemma folderPrefix_cases (p : string) :
  (p = "" -> folderPrefix p = "") /\
  (JsString.endsWithChar p slash = true -> folderPrefix p = p) /\
  (p <> "" -> JsString.endsWithChar p slash = false ->
   folderPrefix p = p ++ "/").
Proof.
  unfold folderPrefix. repeat split.
  - now intros ->.
  - intros ->. now rewrite andb_false_r.
  - intros Hne ->. apply String.eqb_neq in Hne. now rewrite Hne.
Qed.

(** C2, as amended.  [getChildren(p)] uses the prefix [folderPrefix p],
    which is [p] itself when [p] is empty or already ends with ["/"]
    and [p ++ "/"] otherwise.  On a file map with distinct keys the
    result holds exactly the files whose key is that prefix followed
    by a non-empty suffix, each under its suffix and in file order.
    For the files [a/x.txt], [a/y.txt], [b.txt], [getChildren("a")]
    is [x.txt], [y.txt] and [getChildren("")] is all three files
    under their unchanged keys. *)
Theorem getChildren_exact (ix : ReactiveIndex.t) (p : string) :
  JsMap.wf (files ix) ->
  ((p = "" -> folderPrefix p = "") /\
   (JsString.endsWithChar p slash = true -> folderPrefix p = p) /\
   (p <> "" -> JsString.endsWithChar p slash = false ->
    folderPrefix p = p ++ "/")) /\
  (forall suffix file,
     JsMap.get (getChildren ix p) suffix = Some file <->
     suffix <> "" /\
     JsMap.get (files ix) (folderPrefix p ++ suffix) = Some file) /\
  getChildren ix p =
    map (rekey (folderPrefix p))
      (filter (isChildKey (folderPrefix p)) (files ix)) /\
  (forall fx fy fb,
     files ix = exampleFiles fx fy fb ->
     getChildren ix "a" = [("x.txt", fx); ("y.txt", fy)] /\
     getChildren ix "" = exampleFiles fx fy fb).
Proof.
  intros Hwf. split; [apply folderPrefix_cases|]. split; [|split].
  - intros suffix file. rewrite getChildren_get by assumption.
    destruct (String.eqb_spec suffix "") as [->|Hne].
    + split; [discriminate | tauto].
    + tauto.
  - now apply getChildren_eq.
  - intros fx fy fb Hfiles. unfold getChildren. rewrite Hfiles.
    split; reflexivity.
Qed.

Lemma childrenChanged_iff (last : JsMap.t (JsMap.t ReactiveFileMetadata))
    (ix : t) (path : string) :
  JsMap.wf (files ix) ->
  JsMap.wf (lastNotifiedOrEmpty last path) ->
  (childrenChanged last ix path = false <->
   JsMap.same_bindings (lastNotifiedOrEmpty last path) (getChildren ix path)).
Proof.
  intros Hf Hs. unfold childrenChanged.
  rewrite negb_false_iff. apply sortedEntries_same; auto.
  now apply getChildren_wf.
Qed.

(** C4, as amended.  The diffing pass visits every registered path,
    compares the stored snapshot (an absent one counts as empty) with
    the current children, and calls the listeners of that path exactly
    when the two do not hold the same bindings, whatever the order of
    their entries.  With a children listener registered once on ["a"]
    and a record stored for ["a/x.txt"], an update for ["a/x.txt"]
    whose [lastModified] is not newer than the stored one, whatever its
    size, is discarded and calls no listener; an update with a strictly
    newer [lastModified] calls the listener exactly once. *)
Theorem children_listeners_are_change_detected :
  (forall ix : ReactiveIndex.t,
     JsMap.wf (files ix) ->
     JsMap.wf (childrenListeners ix) ->
     (forall path snapshot,
        JsMap.get (childrenLastNotified ix) path = Some snapshot ->
        JsMap.wf snapshot) ->
     snd (_updateChildListeners ix) =
       flat_map (notifications ix) (childrenListeners ix) /\
     (forall path,
        childrenChanged (childrenLastNotified ix) ix path = false <->
        JsMap.same_bindings
          (lastNotifiedOrEmpty (childrenLastNotified ix) path)
          (getChildren ix path)) /\
     (forall path,
        In path (JsMap.keys (childrenListeners ix)) ->
        JsMap.get (childrenLastNotified (fst (_updateChildListeners ix)))
          path = Some (getChildren ix path)) /\
     (forall file,
        accepts (files ix) file = true ->
        snd (_updateFileInIndex file ix) =
          (map (fun l => MetadataListenerCall l (Some file))
             (listenersAt (metadataListeners ix) (key file))
           ++ snd (_updateChildListeners
                     (with_files (JsMap.set (files ix) (key file) file) ix)))
          %list) /\
     (forall path,
        snd (_deleteFileInIndex path ix) =
          (map (fun l => MetadataListenerCall l None)
             (listenersAt (metadataListeners ix) path)
           ++ snd (_updateChildListeners
                     (with_files (JsMap.delete (files ix) path) ix)))%list)) /\
  (forall (ix : ReactiveIndex.t) l stored file,
     index_wf ix ->
     registeredOnlyAt l "a" (childrenListeners ix) ->
     getMetadata ix "a/x.txt" = Some stored ->
     key file = "a/x.txt" ->
     ((lastModified file <= lastModified stored)%Z ->
      _updateFileInIndex file ix = (ix, [])) /\
     ((lastModified stored < lastModified file)%Z ->
      childrenCalls l (snd (_updateFileInIndex file ix)) = 1)).
Proof.
  split.
  - intros ix Hf Hc Hs. split; [|split; [|split; [|split]]].
    + now rewrite _updateChildListeners_eq.
    + intros path. apply childrenChanged_iff; auto.
      unfold lastNotifiedOrEmpty.
      destruct (JsMap.get (childrenLastNotified ix) path) eqn:E.
      * eapply Hs; eauto.
      * apply wf_empty.
    + intros path Hin. rewrite _updateChildListeners_eq by assumption.
      simpl. rewrite refreshed_get.
      destruct (in_dec string_dec path (JsMap.keys (childrenListeners ix)));
        [reflexivity | contradiction].
    + intros file Hacc. now rewrite _updateFileInIndex_accepted.
    + intros path. now rewrite _deleteFileInIndex_eq.
  - intros ix l stored file (Hf & Hm & Hc & Hlast) [Hreg Honly] Hget Hkey.
    unfold getMetadata in Hget. split.
    + intros Hle. apply _updateFileInIndex_rejected.
      unfold accepts. rewrite Hkey, Hget. now apply Z.ltb_ge.
    + intros Hlt.
      assert (Hacc : accepts (files ix) file = true).
      { unfold accepts. rewrite Hkey, Hget. now apply Z.ltb_lt. }
      rewrite _updateFileInIndex_accepted by assumption.
      cbv zeta. simpl snd.
      set (ix1 := with_files (JsMap.set (files ix) (key file) file) ix).
      assert (Hf1 : JsMap.wf (files ix1)) by (simpl; now apply wf_set).
      rewrite childrenCalls_app, childrenCalls_metadata.
      rewrite _updateChildListeners_eq by exact Hc.
      simpl snd.
      change (childrenListeners ix1) with (childrenListeners ix).
      rewrite childrenCalls_notifications with (path := "a"); auto.
      destruct (in_dec string_dec "a" (JsMap.keys (childrenListeners ix)));
        [|contradiction].
      change (childrenLastNotified ix1) with (childrenLastNotified ix).
      destruct (childrenChanged (childrenLastNotified ix) ix1 "a") eqn:Hch;
        [reflexivity|].
      exfalso.
      assert (Hsnap : JsMap.wf
                (lastNotifiedOrEmpty (childrenLastNotified ix) "a")).
      { unfold lastNotifiedOrEmpty.
        destruct (JsMap.get (childrenLastNotified ix) "a") eqn:E.
        - apply Hlast in E as [_ ->]. now apply getChildren_wf.
        - apply wf_empty. }
      apply childrenChanged_iff in Hch; auto.
      specialize (Hch "x.txt").
      rewrite (getChildren_get ix1) in Hch by assumption.
      simpl in Hch. rewrite Hkey, get_set_eq in Hch.
      unfold lastNotifiedOrEmpty in Hch.
      destruct (JsMap.get (childrenLastNotified ix) "a") eqn:E.
      * apply Hlast in E as [_ ->].
        rewrite getChildren_get in Hch by assumption.
        simpl in Hch. rewrite Hget in Hch.
        injection Hch as ->. lia.
      * discriminate.
Qed.

End IndexClaims.

(** * The claims at concrete inputs *)

Section IndexExamples.

Import ReactiveIndex.

Lemma keys_set_incl (V : Type) (m : JsMap.t V) (k k' : string) (v : V) :
  In k' (JsMap.keys m) -> In k' (JsMap.keys (JsMap.set m k v)).
Proof.
  rewrite keys_set. destruct (JsMap.has m k); [auto|].
  intros H. apply in_or_app. now left.
Qed.

Lemma addListener_wf (m : JsMap.t (list Listener)) (path : string)
    (l : Listener) :
  JsMap.wf m -> JsMap.wf (addListener m path l).
Proof.
  intros Hwf. unfold addListener.
  destruct (JsMap.has m path);
    destruct (JsMap.get _ path); auto using wf_set.
Qed.

Lemma addListener_keys (m : JsMap.t (list Listener)) (path k : string)
    (l : Listener) :
  In k (JsMap.keys m) -> In k (JsMap.keys (addListener m path l)).
Proof.
  intros Hin. unfold addListener.
  destruct (JsMap.has m path);
    destruct (JsMap.get _ path); auto using keys_set_incl.
Qed.

Lemma removeListener_wf (m : JsMap.t (list Listener)) (path : string)
    (l : Listener) :
  JsMap.wf m -> JsMap.wf (removeListener m path l).
Proof.
  intros Hwf. unfold removeListener.
  destruct (JsMap.get m path); auto.
  destruct (existsb _ _); auto using wf_set.
Qed.

Lemma removeListener_keys (m : JsMap.t (list Listener)) (path k : string)
    (l : Listener) :
  In k (JsMap.keys m) -> In k (JsMap.keys (removeListener m path l)).
Proof.
  intros Hin. unfold removeListener.
  destruct (JsMap.get m path); auto.
  destruct (existsb _ _); auto using keys_set_incl.
Qed.

(** Registering and unregistering listeners keeps the invariant. *)
Lemma addChildrenListener_wf (path : string) (l : Listener) (ix : t) :
  index_wf ix -> index_wf (addChildrenListener path l ix).
Proof.
  intros (Hf & Hm & Hc & Hlast). unfold index_wf; simpl.
  repeat split; auto using addListener_wf.
  - apply addListener_keys. now apply Hlast in H.
  - apply Hlast in H as [_ ->]. now apply getChildren_files.
Qed.

Lemma removeChildrenListener_wf (path : string) (l : Listener) (ix : t) :
  index_wf ix -> index_wf (removeChildrenListener path l ix).
Proof.
  intros (Hf & Hm & Hc & Hlast). unfold index_wf; simpl.
  repeat split; auto using removeListener_wf.
  - apply removeListener_keys. now apply Hlast in H.
  - apply Hlast in H as [_ ->]. now apply getChildren_files.
Qed.

Lemma addMetadataListener_wf (path : string) (l : Listener) (ix : t) :
  index_wf ix -> index_wf (addMetadataListener path l ix).
Proof.
  intros (Hf & Hm & Hc & Hlast). unfold index_wf; simpl.
  repeat split; auto using addListener_wf.
  - now apply Hlast in H.
  - apply Hlast in H as [_ ->]. now apply getChildren_files.
Qed.

Lemma removeMetadataListener_wf (path : string) (l : Listener) (ix : t) :
  index_wf ix -> index_wf (removeMetadataListener path l ix).
Proof.
  intros (Hf & Hm & Hc & Hlast). unfold index_wf; simpl.
  repeat split; auto using removeListener_wf.
  - now apply Hlast in H.
  - apply Hlast in H as [_ ->]. now apply getChildren_files.
Qed.

Lemma listeningIndex_wf : index_wf listeningIndex.
Proof.
  apply _updateFileInIndex_wf, addChildrenListener_wf, create_wf.
Defined.

Lemma exampleIndex_wf : JsMap.wf (files exampleIndex).
Proof.
  unfold JsMap.wf. simpl.
  repeat constructor; simpl; intuition discriminate.
Defined.

(** Three updates of one key, delivered newest-second, converge to the
    newest. *)
Lemma update_is_last_writer_wins_witness :
  getMetadata
    (fst (applyUpdates [xtxt 2000 7; xtxt 3000 9; xtxt 1000 3]
            (create public))) "a/x.txt" = Some (xtxt 3000 9) /\
  files
    (fst (applyUpdates [xtxt 2000 7; xtxt 3000 9; xtxt 1000 3]
            (create public))) = [("a/x.txt", xtxt 3000 9)].
Proof.
  apply (proj2 (proj2 (proj2 (update_is_last_writer_wins (create public))))
           [xtxt 1000 3; xtxt 2000 7; xtxt 3000 9]
           [xtxt 2000 7; xtxt 3000 9; xtxt 1000 3]
           (xtxt 3000 9)).
  - apply Permutation_cons_app
      with (l1 := [xtxt 2000 7; xtxt 3000 9]) (l2 := []).
    reflexivity.
  - simpl; auto.
  - simpl. repeat constructor; simpl; intuition discriminate.
  - simpl. intros x [<-|[<-|[<-|[]]]]; simpl; split; try reflexivity; lia.
  - exact I.
Defined.

(** The children-derivation example. *)
Lemma getChildren_exact_witness :
  JsMap.keys (getChildren exampleIndex "a") = ["x.txt"; "y.txt"] /\
  JsMap.keys (getChildren exampleIndex "") = ["a/x.txt"; "a/y.txt"; "b.txt"].
Proof.
  destruct (getChildren_exact exampleIndex "a" exampleIndex_wf)
    as (_ & _ & _ & Hex).
  destruct (Hex _ _ _ eq_refl) as [-> ->].
  split; reflexivity.
Defined.

(** C2, as stated, fails at the root: with the example files every key
    is a child of [""], but no key starts with ["/"]. *)
Lemma getChildren_root_counterexample :
  ~ getChildren_slash_reading exampleIndex "".
Proof.
  intros H.
  destruct (H "b.txt" {| key := "b.txt"; lastModified := 3; size := 8 |})
    as [Hcode _].
  destruct (Hcode eq_refl) as [Hget _].
  discriminate Hget.
Qed.

(** A folder path that already ends with a separator is not given a
    second one, and a key equal to the prefix is not a child. *)
Example getChildren_trailing_slash :
  getChildren exampleIndex "a/" = getChildren exampleIndex "a" /\
  getChildren
    (with_files [("a/", xtxt 1 1); ("a/x.txt", xtxt 2 2)] (create public))
    "a" = [("x.txt", xtxt 2 2)].
Proof. split; reflexivity. Qed.

Lemma registeredOnlyAt_listeningIndex :
  registeredOnlyAt 7 "a" (childrenListeners listeningIndex).
Proof.
  split; [simpl; auto|].
  intros k ls [[= <- <-]|[]]. reflexivity.
Defined.

(** A newer update of ["a/x.txt"] reaches the listener on ["a"] once;
    replaying the stored record reaches nobody. *)
Lemma children_listeners_are_change_detected_witness :
  _updateFileInIndex (xtxt 1000 3) listeningIndex = (listeningIndex, []) /\
  childrenCalls 7 (snd (_updateFileInIndex (xtxt 2000 5) listeningIndex)) = 1.
Proof.
  destruct (proj2 children_listeners_are_change_detected
              listeningIndex 7 (xtxt 1000 3) (xtxt 1000 3)
              listeningIndex_wf registeredOnlyAt_listeningIndex
              eq_refl eq_refl) as [Hsame _].
  destruct (proj2 children_listeners_are_change_detected
              listeningIndex 7 (xtxt 1000 3) (xtxt 2000 5)
              listeningIndex_wf registeredOnlyAt_listeningIndex
              eq_refl eq_refl) as [_ Hnewer].
  split.
  - apply Hsame. simpl. lia.
  - apply Hnewer. simpl. lia.
Defined.

(** C4, as stated, fails: the update differs from the stored record in
    its size only, and the listener on ["a"] is not called. *)
Lemma resize_alone_counterexample :
  getMetadata listeningIndex "a/x.txt" = Some (xtxt 1000 3) /\
  size (xtxt 1000 5) <> size (xtxt 1000 3) /\
  lastModified (xtxt 1000 5) = lastModified (xtxt 1000 3) /\
  ~ notifiesOnce listeningIndex 7 (xtxt 1000 5).
Proof.
  repeat split; discriminate.
Qed.

(** Topic truncation at concrete paths: one hundred characters without
    a separator, and a long topic cut at a segment boundary. *)
Lemma makeTopicPubSubSafe_truncation_witness :
  (makeTopicPubSubSafe hundred = JsString.substringTo 80 hundred /\
   String.length (makeTopicPubSubSafe hundred) = 80) /\
  exists k,
    makeTopicPubSubSafe longTopic =
      String.concat "/" (firstn k (JsString.split slash longTopic)) /\
    80 <= String.length
            (String.concat "/" (firstn (S k) (JsString.split slash longTopic))).
Proof.
  split.
  - apply (proj2 (proj2 (proj2 (makeTopicPubSubSafe_truncation hundred))));
      reflexivity.
  - destruct (proj1 (proj2 (proj2 (makeTopicPubSubSafe_truncation longTopic))))
      as (k & _ & Hres & _ & Hstop & _).
    + simpl. lia.
    + simpl. lia.
    + exists k. split; assumption.
Defined.

Example makeTopicPubSubSafe_segments :
  makeTopicPubSubSafe longTopic =
    "/UPDATE/protected/us-west-2:0123456789abcdef/data/subject/trials/walking"
  /\ makeTopicPubSubSafe "/UPDATE/public/a.txt" = "/UPDATE/public/a.txt".
Proof. split; reflexivity. Qed.

End IndexExamples.

(** * Documents: reading attributes *)

Section AttributeClaims.

Import ReactiveJsonFile.

(** C9. [getAttribute(key, default)] returns the default whenever the
    value held for the key is [null] or [undefined], which includes a
    key that was never set and a key set to [null] through
    [setAttribute]; otherwise it returns the held value.  A stored
    [null] and an absent key give the same answer for every default. *)
Theorem getAttribute_null_is_default (attr : string) (defaultValue : any) :
  (forall f,
     JsMap.get (values f) attr = None \/
     JsMap.get (values f) attr = Some null \/
     JsMap.get (values f) attr = Some undefined ->
     getAttribute f attr defaultValue = defaultValue) /\
  (forall f v,
     JsMap.get (values f) attr = Some v -> v <> null -> v <> undefined ->
     getAttribute f attr defaultValue = v) /\
  (forall w,
     getAttribute (doc (setAttribute attr null w)) attr
       defaultValue = defaultValue) /\
  (forall f f',
     JsMap.get (values f) attr = Some null ->
     JsMap.get (values f') attr = None ->
     getAttribute f attr defaultValue = getAttribute f' attr defaultValue).
Proof.
  split; [|split; [|split]].
  - intros f [H|[H|H]]; unfold getAttribute; now rewrite H.
  - intros f v H Hn Hu. unfold getAttribute. rewrite H.
    destruct v; simpl; congruence.
  - intros w. unfold getAttribute, setAttribute, restartUploadTimer.
    destruct (pendingTimeout _); simpl; now rewrite get_set_eq.
  - intros f f' H H'. unfold getAttribute. now rewrite H, H'.
Qed.

Lemma getAttribute_null_is_default_witness :
  getAttribute
    {| path := "_subject.json"; values := [("sex", null)];
       pendingTimeout := None; changeListeners := [] |}
    "sex" (JString "unknown") = JString "unknown" /\
  getAttribute
    {| path := "_subject.json"; values := [("massKg", JNumber 68)];
       pendingTimeout := None; changeListeners := [] |}
    "massKg" (JNumber 0) = JNumber 68.
Proof.
  split.
  - apply (proj1 (getAttribute_null_is_default "sex"
                    (JString "unknown"))).
    right; left; reflexivity.
  - apply (proj1 (proj2 (getAttribute_null_is_default "massKg"
                           (JNumber 0)))); [reflexivity | | ]; discriminate.
Defined.

End AttributeClaims.

(** * Virtual folders *)

Section FolderClaims.

Import ReactiveCursor.

(** *** Adding sizes *)










(** *** The folder map *)














Example getImmediateChildFolders_aggregation :
  getImmediateChildFolders
    (cursorWith [("a/x", xtxt 1000 3); ("a/y", xtxt 2000 5)]) ""
  = [{| key := "a"; lastModified := 2000; size := 8 |}].
Proof. reflexivity. Qed.

(** Beyond [2^53] the sizes are added as doubles: the sum of [2^53]
    and [3] is the even neighbour [2^53 + 4], and what is added to an
    overflowed sum is absorbed. *)
Example add_rounds :
  JsNumber.add 3 9007199254740992 = 9007199254740996%Z /\
  JsNumber.add 1 9007199254740992 = 9007199254740992%Z /\
  JsNumber.add (2 ^ 1023) (2 ^ 1023) = JsNumber.INFINITY /\
  JsNumber.add (-5) JsNumber.INFINITY = JsNumber.INFINITY.
Proof. repeat split; vm_compute; reflexivity. Qed.

End FolderClaims.

(** * Re-pointing a cursor *)

Section RepointClaims.

Import ReactiveCursor.

Lemma store_same (h : Heap) (ref : nat) (ix : ReactiveIndex.t) :
  store h ref ix ref = ix.
Proof. unfold store. now rewrite Nat.eqb_refl. Qed.

Lemma store_other (h : Heap) (ref ref' : nat) (ix : ReactiveIndex.t) :
  ref' <> ref -> store h ref ix ref' = h ref'.
Proof.
  intros Hne. unfold store.
  destruct (Nat.eqb_spec ref' ref); [contradiction | reflexivity].
Qed.

(** What [setPath] does when the path changes. *)
Lemma setPath_protocol (newPath : string) (c : t) (h : Heap) :
  newPath <> path c ->
  let old := h (index c) in
  let repointed :=
    {| index := index c; path := newPath;
       metadata := ReactiveIndex.getMetadata old newPath;
       children := ReactiveIndex.getChildren old newPath;
       jsonFiles := jsonFiles c; loading := loading c;
       networkErrors := networkErrors c; self := self c |} in
  let c' := fst (fst (setPath newPath c h)) in
  let h' := snd (fst (setPath newPath c h)) in
  path c' = newPath /\ index c' = index c /\
  metadata c' = ReactiveIndex.getMetadata old newPath /\
  children c' = ReactiveIndex.getChildren old newPath /\
  h' (index c) =
    ReactiveIndex.addChildrenListener newPath (self c)
      (ReactiveIndex.addMetadataListener newPath (self c)
         (ReactiveIndex.removeChildrenListener (path c) (self c)
            (ReactiveIndex.removeMetadataListener (path c) (self c) old))) /\
  (forall ref, ref <> index c -> h' ref = h ref) /\
  jsonFiles c' = fst (jsonFiles_pathChanged repointed) /\
  snd (setPath newPath c h) = snd (jsonFiles_pathChanged repointed).
Proof.
  intros Hne. cbv zeta. unfold setPath.
  apply String.eqb_neq in Hne. rewrite Hne.
  change (ReactiveIndex.getMetadata
            (ReactiveIndex.removeChildrenListener (path c) (self c)
               (ReactiveIndex.removeMetadataListener (path c) (self c)
                  (h (index c)))) newPath)
    with (ReactiveIndex.getMetadata (h (index c)) newPath).
  change (ReactiveIndex.getChildren
            (ReactiveIndex.removeChildrenListener (path c) (self c)
               (ReactiveIndex.removeMetadataListener (path c) (self c)
                  (h (index c)))) newPath)
    with (ReactiveIndex.getChildren (h (index c)) newPath).
  destruct (jsonFiles_pathChanged _) as [docs effects]. simpl.
  repeat split; auto using store_same, store_other.
Qed.

(** What [setIndex] does when the index changes. *)
Lemma setIndex_protocol (newIndex : nat) (c : t) (h : Heap) :
  newIndex <> index c ->
  let c' := fst (fst (setIndex newIndex c h)) in
  let h' := snd (fst (setIndex newIndex c h)) in
  index c' = newIndex /\ path c' = path c /\
  metadata c' = ReactiveIndex.getMetadata (h newIndex) (path c) /\
  children c' = ReactiveIndex.getChildren (h newIndex) (path c) /\
  h' (index c) =
    ReactiveIndex.removeChildrenListener (path c) (self c)
      (ReactiveIndex.removeMetadataListener (path c) (self c)
         (h (index c))) /\
  h' newIndex =
    ReactiveIndex.addChildrenListener (path c) (self c)
      (ReactiveIndex.addMetadataListener (path c) (self c) (h newIndex)) /\
  (forall ref, ref <> index c -> ref <> newIndex -> h' ref = h ref).
Proof.
  intros Hne. cbv zeta. unfold setIndex.
  apply Nat.eqb_neq in Hne. rewrite Hne. simpl.
  apply Nat.eqb_neq in Hne.
  rewrite !store_same, !(store_other _ _ Hne).
  repeat split; auto.
  - rewrite store_other by congruence. apply store_same.
  - intros ref H1 H2. now rewrite !store_other.
Qed.

Lemma repoint_noop (c : t) (h : Heap) :
  setPath (path c) c h = (c, h, []) /\ setIndex (index c) c h = (c, h, []).
Proof.
  unfold setPath, setIndex.
  now rewrite String.eqb_refl, Nat.eqb_refl.
Qed.

(** C3, where the code departs from it.  [setIndex] never calls
    [pathChanged] on the documents the cursor owns: it requests no
    download and leaves every document as it was, for every cursor,
    index and store.  On the cursor of the example, which owns the
    subject document, [setPath] requests the document again and
    [setIndex] to an index holding a newer version does not. *)
Theorem setIndex_skips_owned_documents :
  (forall newIndex c h,
     snd (setIndex newIndex c h) = [] /\
     jsonFiles (fst (fst (setIndex newIndex c h))) = jsonFiles c) /\
  snd (setPath "t" subjectCursor twoIndexes) =
    [DownloadText 0 "t/_subject.json"] /\
  ReactiveIndex.getMetadata (twoIndexes 1) "s/_subject.json" =
    Some (subjectRecord 2000 30) /\
  children (fst (fst (setIndex 1 subjectCursor twoIndexes))) =
    [("_subject.json", subjectRecord 2000 30)] /\
  snd (setIndex 1 subjectCursor twoIndexes) = [].
Proof.
  split; [|repeat split].
  intros newIndex c h. unfold setIndex.
  destruct (Nat.eqb newIndex (index c)); split; reflexivity.
Qed.

End RepointClaims.

(** * Network operations *)

Section NetworkClaims.

Import ReactiveIndex.

Variable localeCompare : string -> string -> comparison.

Lemma setNetworkError_spec (errKey value : string) (ix : t) :
  fst (setNetworkError localeCompare errKey value ix) =
  with_networkErrors (JsMap.set (networkErrors ix) errKey value) ix.
Proof.
  unfold setNetworkError. now destruct (messagesDiffer _ _).
Qed.

Lemma clearNetworkError_spec (errKey : string) (ix : t) :
  fst (clearNetworkError localeCompare errKey ix) =
  with_networkErrors (JsMap.delete (networkErrors ix) errKey) ix.
Proof.
  unfold clearNetworkError. now destruct (messagesDiffer _ _).
Qed.

Lemma setIsLoading_spec (v : bool) (ix : t) :
  files (fst (setIsLoading v ix)) = files ix /\
  networkErrors (fst (setIsLoading v ix)) = networkErrors ix.
Proof.
  unfold setIsLoading. now destruct (negb _).
Qed.

Lemma upload_onError_spec (ix : t) :
  fst (upload_onError localeCompare ix) =
  with_networkErrors
    (JsMap.set (networkErrors ix) "Upload"
       "We got an error trying to upload a file!") ix.
Proof. apply setNetworkError_spec. Qed.

Lemma upload_onPut_spec (topic : string) (updatedFile : Payload) (ix : t) :
  files (fst (upload_onPut localeCompare topic updatedFile ix)) = files ix /\
  In (SocketPublish topic updatedFile)
    (snd (upload_onPut localeCompare topic updatedFile ix)).
Proof.
  unfold upload_onPut.
  pose proof (clearNetworkError_spec "Upload" ix) as H.
  destruct (clearNetworkError localeCompare "Upload" ix) as [ix' tr].
  simpl in *. subst ix'. split; [reflexivity|].
  right. apply in_or_app. right. now left.
Qed.

Lemma upload_onError_silent (ix : t) topic payload :
  ~ In (SocketPublish topic payload) (snd (upload_onError localeCompare ix)).
Proof.
  unfold upload_onError, setNetworkError.
  destruct (messagesDiffer _ _); simpl; [|tauto].
  rewrite in_map_iff. intros (l & Hl & _). discriminate.
Qed.

(** C5. When the store operation fails, [upload] and [delete] record a
    network error under ["Upload"] and ["Delete"] and their promise is
    rejected with the store's error; [fullRefresh] records its error
    under ["FullRefresh"] and its promise is fulfilled, and it is
    rejected for no outcome of the listing. *)
Theorem store_failures_are_recorded (ix : ReactiveIndex.t) :
  (forall now path contents publish e,
     let r := upload localeCompare now path contents (PutThrows e) publish ix
     in JsMap.get (networkErrors (fst (fst r))) "Upload" =
          Some "We got an error trying to upload a file!" /\
        snd r = Rejected e) /\
  (forall now path contents publish progress e,
     let r := upload localeCompare now path contents (PutRejects progress e)
                publish ix
     in JsMap.get (networkErrors (fst (fst r))) "Upload" =
          Some "We got an error trying to upload a file!" /\
        snd r = Rejected e) /\
  (forall path publish e,
     let r := delete localeCompare path (Rejected e) publish ix
     in JsMap.get (networkErrors (fst (fst r))) "Delete" =
          Some "We got an error trying to delete a file!" /\
        snd r = Rejected e) /\
  (forall e,
     let r := fullRefresh localeCompare (Rejected e) ix
     in JsMap.get (networkErrors (fst (fst r))) "FullRefresh" =
          Some "We got an error trying to load the files! Attempting to reconnect..." /\
        snd r = Fulfilled tt) /\
  (forall listing e, snd (fullRefresh localeCompare listing ix) <> Rejected e).
Proof.
  split; [|split; [|split; [|split]]].
  - intros now path contents publish e. cbv zeta. unfold upload.
    pose proof (upload_onError_spec ix) as H.
    destruct (upload_onError localeCompare ix) as [ix' tr].
    simpl in *. subst ix'. simpl. now rewrite get_set_eq.
  - intros now path contents publish progress e. cbv zeta. unfold upload.
    pose proof (upload_onError_spec ix) as H.
    destruct (upload_onError localeCompare ix) as [ix' tr].
    simpl in *. subst ix'. simpl. now rewrite get_set_eq.
  - intros path publish e. cbv zeta. unfold delete.
    pose proof (setNetworkError_spec "Delete"
                  "We got an error trying to delete a file!" ix) as H.
    destruct (setNetworkError localeCompare "Delete" _ ix) as [ix' tr].
    simpl in *. subst ix'. simpl. now rewrite get_set_eq.
  - intros e. cbv zeta. unfold fullRefresh, fullRefresh_onError.
    destruct (setIsLoading true ix) as [ix1 tr1].
    destruct (setIsLoading false ix1) as [ix2 tr2].
    pose proof (setNetworkError_spec "FullRefresh"
      "We got an error trying to load the files! Attempting to reconnect..."
      ix2) as H.
    destruct (setNetworkError localeCompare "FullRefresh" _ ix2) as [ix3 tr3].
    simpl in *. subst ix3. simpl. now rewrite get_set_eq.
  - intros listing e. unfold fullRefresh.
    destruct (setIsLoading true ix) as [ix1 tr1].
    destruct listing as [result|e'|].
    + destruct (fullRefresh_onList localeCompare result ix1). discriminate.
    + destruct (fullRefresh_onError localeCompare ix1). discriminate.
    + discriminate.
Qed.

Lemma substringFrom_prefix_roundtrip (prefix path : string) :
  JsString.substringFrom (String.length prefix) (prefix ++ path) = path.
Proof. apply substringFrom_append. Qed.

(** C6. [upload] leaves the key-to-record map as it was, however the
    store and the socket behave.  When the store completes the put,
    the update event for the prefixed key, with the upload time and the
    size of the contents, is published on the sanitised topic; when the
    put does not complete nothing is published.  The record becomes
    visible when that event comes back through the subscription: the
    handler strips the prefix and merges it under last-writer-wins. *)
Theorem upload_does_not_touch_files (ix : ReactiveIndex.t)
    (now : Z) (path contents : string) :
  let fullPath := globalPrefix ix ++ path in
  let event := UpdatePayload fullPath now (blobSize contents) in
  let topic := makeTopicPubSubSafe ("/UPDATE/" ++ fullPath) in
  (forall put publish,
     files (fst (fst (upload localeCompare now path contents put publish ix)))
       = files ix) /\
  (forall progress completeCallback publish,
     In (SocketPublish topic event)
       (snd (fst (upload localeCompare now path contents
                    (PutCompletes progress completeCallback) publish ix)))) /\
  (forall put publish anyTopic anyPayload,
     (forall progress completeCallback,
        put <> PutCompletes progress completeCallback) ->
     ~ In (SocketPublish anyTopic anyPayload)
         (snd (fst (upload localeCompare now path contents put publish ix)))) /\
  (forall later,
     globalPrefix later = globalPrefix ix ->
     accepts (files later)
       {| key := path; lastModified := now; size := blobSize contents |}
       = true ->
     getMetadata (fst (onSocketMessage event later)) path =
       Some {| key := path; lastModified := now;
               size := blobSize contents |}).
Proof.
  cbv zeta. split; [|split; [|split]].
  - intros put publish. unfold upload.
    destruct put as [e|progress e|progress cc|progress].
    + pose proof (upload_onError_spec ix) as H.
      destruct (upload_onError localeCompare ix) as [ix' tr].
      simpl in *. now subst ix'.
    + pose proof (upload_onError_spec ix) as H.
      destruct (upload_onError localeCompare ix) as [ix' tr].
      simpl in *. now subst ix'.
    + destruct cc.
      * pose proof (upload_onPut_spec
                      (makeTopicPubSubSafe ("/UPDATE/" ++ globalPrefix ix ++ path))
                      (UpdatePayload (globalPrefix ix ++ path) now
                         (blobSize contents)) ix) as [H1 _].
        destruct (upload_onPut localeCompare _ _ ix) as [ix1 tr1].
        pose proof (upload_onPut_spec
                      (makeTopicPubSubSafe ("/UPDATE/" ++ globalPrefix ix ++ path))
                      (UpdatePayload (globalPrefix ix ++ path) now
                         (blobSize contents)) ix1) as [H2 _].
        destruct (upload_onPut localeCompare _ _ ix1) as [ix2 tr2].
        simpl in *. congruence.
      * pose proof (upload_onPut_spec
                      (makeTopicPubSubSafe ("/UPDATE/" ++ globalPrefix ix ++ path))
                      (UpdatePayload (globalPrefix ix ++ path) now
                         (blobSize contents)) ix) as [H1 _].
        destruct (upload_onPut localeCompare _ _ ix) as [ix1 tr1].
        simpl in *. congruence.
    + reflexivity.
  - intros progress cc publish. unfold upload.
    destruct cc.
    + destruct (upload_onPut localeCompare _ _ ix) as [ix1 tr1].
      pose proof (upload_onPut_spec
                    (makeTopicPubSubSafe ("/UPDATE/" ++ globalPrefix ix ++ path))
                    (UpdatePayload (globalPrefix ix ++ path) now
                       (blobSize contents)) ix1) as [_ H2].
      destruct (upload_onPut localeCompare _ _ ix1) as [ix2 tr2].
      simpl in *. right. apply in_or_app. right.
      apply in_or_app. now right.
    + pose proof (upload_onPut_spec
                    (makeTopicPubSubSafe ("/UPDATE/" ++ globalPrefix ix ++ path))
                    (UpdatePayload (globalPrefix ix ++ path) now
                       (blobSize contents)) ix) as [_ H1].
      destruct (upload_onPut localeCompare _ _ ix) as [ix1 tr1].
      simpl in *. right. apply in_or_app. right. exact H1.
  - intros put publish anyTopic anyPayload Hput. unfold upload.
    destruct put as [e|progress e|progress cc|progress].
    + pose proof (upload_onError_silent ix anyTopic anyPayload) as H.
      destruct (upload_onError localeCompare ix) as [ix' tr].
      simpl in *. intros [Hd|Hin]; [discriminate | tauto].
    + pose proof (upload_onError_silent ix anyTopic anyPayload) as H.
      destruct (upload_onError localeCompare ix) as [ix' tr].
      simpl in *. intros [Hd|Hin]; [discriminate|].
      apply in_app_or in Hin as [Hin|Hin]; [|tauto].
      apply in_map_iff in Hin as (p & Hp & _). discriminate.
    + exfalso. now apply (Hput progress cc).
    + simpl. intros [Hd|Hin]; [discriminate|].
      apply in_map_iff in Hin as (p & Hp & _). discriminate.
  - intros later Hprefix Hacc. simpl.
    rewrite Hprefix, substringFrom_prefix_roundtrip.
    unfold _onReceivedPubSubUpdate, getMetadata.
    rewrite _updateFileInIndex_files. simpl key. rewrite Hacc.
    apply get_set_eq.
Qed.

End NetworkClaims.

Lemma upload_does_not_touch_files_witness :
  ReactiveIndex.getMetadata
    (fst (ReactiveIndex.onSocketMessage
            (UpdatePayload "a/z.txt" 5000 5) exampleIndex)) "a/z.txt" =
  Some {| key := "a/z.txt"; lastModified := 5000; size := 5 |}.
Proof.
  apply (proj2 (proj2 (proj2
           (upload_does_not_touch_files String.compare exampleIndex 5000
              "a/z.txt" "hello")))); reflexivity.
Defined.

(** * Debounced uploads *)

Section DebounceClaims.

Import ReactiveJsonFile.

Variable JSON_stringify : list (string * any) -> string.

Lemma advanceTo_idle (t : Z) (w : World) :
  idle w ->
  let w' := advanceTo JSON_stringify t w in
  idle w' /\ doc w' = doc w /\ trace w' = trace w /\
  clock w' = Z.max (clock w) t /\ nextHandle w' = nextHandle w.
Proof.
  intros [Hp Hs]. unfold advanceTo, idle. rewrite Hs. simpl. auto.
Qed.

Lemma advanceTo_early (t due : Z) (w : World) :
  armed w due -> (t < due)%Z ->
  let w' := advanceTo JSON_stringify t w in
  armed w' due /\ doc w' = doc w /\ trace w' = trace w /\
  clock w' = Z.max (clock w) t.
Proof.
  intros (h & Hp & Hs) Hlt. unfold advanceTo, armed. rewrite Hs. simpl.
  destruct (Z.leb_spec due t); [lia|]. simpl.
  repeat split; auto. exists h. auto.
Qed.

Lemma advanceTo_due (t due : Z) (w : World) :
  armed w due -> (due <= t)%Z ->
  let w' := advanceTo JSON_stringify t w in
  idle w' /\
  trace w' =
    (trace w ++ [UploadChild (path (doc w))
                   (JSON_stringify (values (doc w)))])%list /\
  values (doc w') = values (doc w) /\
  path (doc w') = path (doc w) /\
  changeListeners (doc w') = changeListeners (doc w).
Proof.
  intros (h & Hp & Hs) Hle. unfold advanceTo, idle. rewrite Hs. simpl.
  destruct (Z.leb_spec due t); [|lia]. simpl. auto.
Qed.

(** At most one timer is ever pending: the event loop keeps a world
    idle or armed. *)
Lemma advanceTo_state (t : Z) (w : World) :
  idle w \/ (exists due, armed w due) ->
  idle (advanceTo JSON_stringify t w) \/
  (exists due, armed (advanceTo JSON_stringify t w) due).
Proof.
  intros [Hidle|[due Harmed]].
  - left. now destruct (advanceTo_idle t Hidle).
  - destruct (Z.lt_ge_cases t due) as [Hlt|Hge].
    + right. exists due. now destruct (advanceTo_early Harmed Hlt).
    + left. now destruct (advanceTo_due Harmed Hge).
Qed.

(** Every [setAttribute] leaves exactly one timer, the new one, due a
    full delay later; a timer that was pending is cancelled. *)
Lemma setAttribute_rearms (attr : string) (value : any) (w : World) :
  idle w \/ (exists due, armed w due) ->
  let w' := setAttribute attr value w in
  armed w' (clock w + UPLOAD_DELAY) /\
  pendingTimeout (doc w') = Some (nextHandle w) /\
  values (doc w') = JsMap.set (values (doc w)) attr value /\
  trace w' = trace w /\ clock w' = clock w /\
  path (doc w') = path (doc w) /\
  changeListeners (doc w') = changeListeners (doc w).
Proof.
  intros [[Hp Hs]|(due & h & Hp & Hs)];
    unfold setAttribute, restartUploadTimer, armed; simpl; rewrite Hp; simpl.
  - rewrite Hs. simpl. repeat split; auto. eexists; eauto.
  - rewrite Hs. simpl. rewrite Nat.eqb_refl. simpl.
    repeat split; auto. eexists; eauto.
Qed.

Lemma setAttributeAt_rearms (call : Z * string * any) (w : World) :
  (idle w \/ exists due, armed w due /\ (callTime call < due)%Z) ->
  (clock w <= callTime call)%Z ->
  let w' := setAttributeAt JSON_stringify call w in
  armed w' (callTime call + UPLOAD_DELAY) /\
  values (doc w') = JsMap.set (values (doc w)) (snd (fst call)) (snd call) /\
  trace w' = trace w /\ clock w' = callTime call /\
  path (doc w') = path (doc w) /\
  changeListeners (doc w') = changeListeners (doc w).
Proof.
  destruct call as [[t attr] value].
  unfold callTime, setAttributeAt; cbn [fst snd].
  intros Hstate Hclock.
  assert (Hadv :
    (idle (advanceTo JSON_stringify t w) \/
     exists due, armed (advanceTo JSON_stringify t w) due) /\
    doc (advanceTo JSON_stringify t w) = doc w /\
    trace (advanceTo JSON_stringify t w) = trace w /\
    clock (advanceTo JSON_stringify t w) = t).
  { destruct Hstate as [Hidle|(due & Harmed & Hlt)].
    - destruct (advanceTo_idle t Hidle) as (H1 & H2 & H3 & H4 & _).
      repeat split; auto. lia.
    - destruct (advanceTo_early Harmed Hlt) as (H1 & H2 & H3 & H4).
      repeat split; eauto. lia. }
  destruct Hadv as (Hst & Hdoc & Htr & Hcl).
  destruct (setAttribute_rearms attr value Hst)
    as (H1 & _ & H3 & H4 & H5 & H6 & H7).
  rewrite Hcl in H1. rewrite Hdoc in H3, H6, H7.
  repeat split; auto; congruence.
Qed.

(** A burst of calls, each within the delay of the previous one,
    uploads nothing and leaves one timer due after the last call. *)
Lemma run_burst (calls : list (Z * string * any)) (w : World)
    (previous : Z) :
  armed w (previous + UPLOAD_DELAY) -> clock w = previous ->
  within previous calls ->
  let w' := run JSON_stringify calls w in
  armed w' (lastTime previous calls + UPLOAD_DELAY) /\
  values (doc w') = merged calls (values (doc w)) /\
  trace w' = trace w /\ clock w' = lastTime previous calls /\
  path (doc w') = path (doc w) /\
  changeListeners (doc w') = changeListeners (doc w).
Proof.
  revert w previous.
  induction calls as [|call calls IH]; intros w previous Harmed Hclock Hwithin.
  - simpl. repeat split; auto.
  - destruct Hwithin as [Hnow Hrest]. cbv zeta.
    change (run JSON_stringify (call :: calls) w)
      with (run JSON_stringify calls (setAttributeAt JSON_stringify call w)).
    destruct (setAttributeAt_rearms call (w := w))
      as (H1 & H2 & H3 & H4 & H5 & H6).
    { right. exists (previous + UPLOAD_DELAY)%Z. split; [assumption|lia]. }
    { lia. }
    destruct (IH _ _ H1 H4 Hrest) as (I1 & I2 & I3 & I4 & I5 & I6).
    simpl lastTime. simpl merged. rewrite <- H2.
    repeat split; auto; congruence.
Qed.

(** C7. The debounce protocol.  Every [setAttribute] cancels the
    pending timer, if any, and leaves exactly one timer due 500 ms
    later.  For a burst of calls on an idle document, each less than
    500 ms after the previous one: nothing is uploaded before 500 ms
    have passed since the last call; once they have, exactly one
    upload has been made, of the serialisation of the mapping with all
    the writes of the burst merged in, and no timer is left; when that
    upload completes each change listener is called once. *)
Theorem debounce_coalesces_a_burst :
  (forall attr value w,
     idle w \/ (exists due, armed w due) ->
     armed (setAttribute attr value w) (clock w + UPLOAD_DELAY)) /\
  (forall w first rest,
     idle w ->
     (clock w <= callTime first)%Z ->
     within (callTime first) rest ->
     let calls := first :: rest in
     let quiet := (lastTime (callTime first) rest + UPLOAD_DELAY)%Z in
     let upload :=
       UploadChild (path (doc w))
         (JSON_stringify (merged calls (values (doc w)))) in
     let w' := run JSON_stringify calls w in
     armed w' quiet /\
     (forall t, (t < quiet)%Z ->
        trace (advanceTo JSON_stringify t w') = trace w) /\
     (forall t, (quiet <= t)%Z ->
        trace (advanceTo JSON_stringify t w') = (trace w ++ [upload])%list /\
        idle (advanceTo JSON_stringify t w') /\
        trace (uploadCallback_onUploaded (advanceTo JSON_stringify t w')) =
          (trace w ++ [upload]
             ++ map ChangeListenerCall (changeListeners (doc w)))%list)).
Proof.
  split.
  - intros attr value w Hstate.
    now destruct (setAttribute_rearms attr value Hstate).
  - intros w first rest Hidle Hclock Hwithin. cbv zeta.
    change (run JSON_stringify (first :: rest) w)
      with (run JSON_stringify rest (setAttributeAt JSON_stringify first w)).
    destruct (setAttributeAt_rearms first (w := w))
      as (H1 & H2 & H3 & H4 & H5 & H6); auto.
    destruct (run_burst rest H1 H4 Hwithin)
      as (I1 & I2 & I3 & I4 & I5 & I6).
    cbv zeta in *.
    set (w' := run JSON_stringify rest
                 (setAttributeAt JSON_stringify first w)) in *.
    assert (Hvalues : values (doc w') =
                      merged (first :: rest) (values (doc w))).
    { simpl merged. now rewrite <- H2. }
    split; [exact I1|]. split.
    + intros t Ht.
      destruct (advanceTo_early I1 Ht) as (_ & _ & E & _). congruence.
    + intros t Ht.
      destruct (advanceTo_due I1 Ht) as (E1 & E2 & E3 & E4 & E5).
      assert (Htrace :
        trace (advanceTo JSON_stringify t w') =
        (trace w ++ [UploadChild (path (doc w))
           (JSON_stringify (merged (first :: rest) (values (doc w))))])%list).
      { rewrite E2, Hvalues. congruence. }
      split; [exact Htrace|]. split; [exact E1|].
      unfold uploadCallback_onUploaded, emit. simpl.
      rewrite Htrace, E5, I6, H6, <- app_assoc. reflexivity.
Qed.

End DebounceClaims.

Lemma subjectJson_idle : idle (ReactiveJsonFile.start 0 subjectJson).
Proof. split; reflexivity. Defined.

(** Five writes within 500 ms: one upload, of the merged mapping. *)
Lemma debounce_coalesces_a_burst_witness :
  ReactiveJsonFile.uploads
    (ReactiveJsonFile.advanceTo propertyNames 900
       (ReactiveJsonFile.run propertyNames fiveCalls
          (ReactiveJsonFile.start 0 subjectJson))) = ["sex,massKg,heightM"] /\
  ReactiveJsonFile.trace
    (ReactiveJsonFile.advanceTo propertyNames 899
       (ReactiveJsonFile.run propertyNames fiveCalls
          (ReactiveJsonFile.start 0 subjectJson))) = [].
Proof.
  destruct (proj2 (debounce_coalesces_a_burst propertyNames)
              (ReactiveJsonFile.start 0 subjectJson)
              (0%Z, "massKg", JNumber 68) (tl fiveCalls) subjectJson_idle)
    as (_ & Hquiet & Hfire).
  - unfold callTime. simpl. lia.
  - unfold ReactiveJsonFile.UPLOAD_DELAY. simpl. unfold callTime. simpl.
    repeat split; lia.
  - split.
    + destruct (Hfire 900%Z) as (Htrace & _).
      * unfold ReactiveJsonFile.UPLOAD_DELAY, callTime. simpl. lia.
      * unfold ReactiveJsonFile.uploads.
        change (ReactiveJsonFile.run propertyNames fiveCalls
                  (ReactiveJsonFile.start 0 subjectJson))
          with (ReactiveJsonFile.run propertyNames
                  ((0%Z, "massKg", JNumber 68) :: tl fiveCalls)
                  (ReactiveJsonFile.start 0 subjectJson)).
        rewrite Htrace. reflexivity.
    + apply (Hquiet 899%Z).
      unfold ReactiveJsonFile.UPLOAD_DELAY, callTime. simpl. lia.
Defined.

(** * The invariant holds in every reachable state *)

Section Invariant.

Import ReactiveIndex.

Variable localeCompare : string -> string -> comparison.

Lemma index_wf_frame (ix ix' : t) :
  index_wf ix ->
  files ix' = files ix ->
  metadataListeners ix' = metadataListeners ix ->
  childrenListeners ix' = childrenListeners ix ->
  childrenLastNotified ix' = childrenLastNotified ix ->
  index_wf ix'.
Proof.
  intros (Hf & Hm & Hc & Hlast) Ef Em Ec El.
  unfold index_wf. rewrite Ef, Em, Ec, El.
  repeat split; auto.
  - now apply Hlast in H.
  - apply Hlast in H as [_ ->]. now apply getChildren_files.
Qed.

Lemma setIsLoading_wf (v : bool) (ix : t) :
  index_wf ix -> index_wf (fst (setIsLoading v ix)).
Proof.
  intros Hwf. unfold setIsLoading.
  destruct (negb _); [|assumption].
  now apply index_wf_frame with (ix := ix).
Qed.

Lemma setNetworkError_wf (errKey value : string) (ix : t) :
  index_wf ix -> index_wf (fst (setNetworkError localeCompare errKey value ix)).
Proof.
  intros Hwf. rewrite setNetworkError_spec.
  now apply index_wf_frame with (ix := ix).
Qed.

Lemma clearNetworkError_wf (errKey : string) (ix : t) :
  index_wf ix -> index_wf (fst (clearNetworkError localeCompare errKey ix)).
Proof.
  intros Hwf. rewrite clearNetworkError_spec.
  now apply index_wf_frame with (ix := ix).
Qed.

Lemma forEachIndex_wf (A : Type) (f : A -> t -> t * Trace) (l : list A)
    (ix : t) :
  (forall a ix, index_wf ix -> index_wf (fst (f a ix))) ->
  index_wf ix -> index_wf (fst (forEachIndex f l ix)).
Proof.
  intros Hf. unfold forEachIndex.
  assert (H : forall tr, index_wf ix ->
            index_wf (fst (fold_left
              (fun (acc : t * Trace) a =>
                 let (ix, tr) := acc in
                 let (ix, tr') := f a ix in (ix, (tr ++ tr')%list))
              l (ix, tr)))).
  { revert ix. induction l as [|a l IH]; intros ix tr Hwf; simpl; auto.
    specialize (Hf a ix Hwf).
    destruct (f a ix) as [ix' tr']. simpl in Hf. now apply IH. }
  apply H.
Qed.

Lemma onSocketMessage_wf (payload : Payload) (ix : t) :
  index_wf ix -> index_wf (fst (onSocketMessage payload ix)).
Proof.
  intros Hwf. destruct payload; simpl.
  - now apply _updateFileInIndex_wf.
  - now apply _deleteFileInIndex_wf.
Qed.

Lemma fullRefresh_wf (listing : Settled (list S3ProviderListOutputItem))
    (ix : t) :
  index_wf ix -> index_wf (fst (fst (fullRefresh localeCompare listing ix))).
Proof.
  intros Hwf. unfold fullRefresh.
  pose proof (setIsLoading_wf true Hwf) as H1.
  destruct (setIsLoading true ix) as [ix1 tr1]. simpl in H1.
  destruct listing as [result|e|]; [| |exact H1].
  - unfold fullRefresh_onList.
    pose proof (setIsLoading_wf false H1) as H2.
    destruct (setIsLoading false ix1) as [ix2 tr2]. simpl in H2.
    pose proof (clearNetworkError_wf "FullRefresh" H2) as H3.
    destruct (clearNetworkError localeCompare "FullRefresh" ix2)
      as [ix3 tr3]. simpl in H3.
    match goal with
    | |- context [forEachIndex ?f (files ix3) ix3] =>
        pose proof (@forEachIndex_wf _ f (files ix3) ix3) as H4
    end.
    match type of H4 with
    | _ -> _ -> index_wf (fst ?x) => destruct x as [ix4 tr4]
    end.
    simpl in H4.
    match goal with
    | |- context [forEachIndex ?f ?l ix4] =>
        pose proof (@forEachIndex_wf _ f l ix4) as H5
    end.
    match type of H5 with
    | _ -> _ -> index_wf (fst ?x) => destruct x as [ix5 tr5]
    end.
    simpl in *. apply H5.
    + intros [k item] ix' Hwf'. simpl.
      destruct (item_key item), (item_lastModified item), (item_size item);
        auto using _updateFileInIndex_wf.
    + apply H4; auto.
      intros [k file] ix' Hwf'. simpl.
      destruct (negb _); auto using _deleteFileInIndex_wf.
  - unfold fullRefresh_onError.
    pose proof (setIsLoading_wf false H1) as H2.
    destruct (setIsLoading false ix1) as [ix2 tr2]. simpl in H2.
    pose proof (setNetworkError_wf "FullRefresh"
      "We got an error trying to load the files! Attempting to reconnect..."
      H2) as H3.
    destruct (setNetworkError localeCompare "FullRefresh" _ ix2)
      as [ix3 tr3]. exact H3.
Qed.

(** [upload] and [delete] only ever write the error registry. *)
Lemma upload_frame (now : Z) (path contents : string) (put : PutOutcome)
    (publish : Settled unit) (ix : t) :
  exists errors,
    fst (fst (upload localeCompare now path contents put publish ix)) =
    with_networkErrors errors ix.
Proof.
  unfold upload.
  destruct put as [e|progress e|progress cc|progress].
  - pose proof (upload_onError_spec localeCompare ix) as H.
    destruct (upload_onError localeCompare ix) as [ix' tr].
    simpl in *. eauto.
  - pose proof (upload_onError_spec localeCompare ix) as H.
    destruct (upload_onError localeCompare ix) as [ix' tr].
    simpl in *. eauto.
  - unfold upload_onPut.
    destruct cc.
    + pose proof (clearNetworkError_spec localeCompare "Upload" ix) as H1.
      destruct (clearNetworkError localeCompare "Upload" ix) as [ix1 tr1].
      pose proof (clearNetworkError_spec localeCompare "Upload" ix1) as H2.
      destruct (clearNetworkError localeCompare "Upload" ix1) as [ix2 tr2].
      simpl in *. subst. eexists. reflexivity.
    + pose proof (clearNetworkError_spec localeCompare "Upload" ix) as H1.
      destruct (clearNetworkError localeCompare "Upload" ix) as [ix1 tr1].
      simpl in *. eauto.
  - exists (networkErrors ix). now destruct ix.
Qed.

Lemma delete_frame (path : string) (remove publish : Settled unit) (ix : t) :
  exists errors,
    fst (fst (delete localeCompare path remove publish ix)) =
    with_networkErrors errors ix.
Proof.
  unfold delete.
  destruct remove as [[]|e|].
  - pose proof (clearNetworkError_spec localeCompare "Delete" ix) as H1.
    destruct (clearNetworkError localeCompare "Delete" ix) as [ix1 tr1].
    simpl in H1. subst ix1.
    destruct publish as [[]|e|]; simpl; eauto.
    match goal with
    | |- context [setNetworkError localeCompare ?k ?v ?x] =>
        pose proof (setNetworkError_spec localeCompare k v x) as H2;
          destruct (setNetworkError localeCompare k v x) as [ix2 tr2]
    end.
    simpl in *. subst ix2. eexists. reflexivity.
  - match goal with
    | |- context [setNetworkError localeCompare ?k ?v ?x] =>
        pose proof (setNetworkError_spec localeCompare k v x) as H2;
          destruct (setNetworkError localeCompare k v x) as [ix2 tr2]
    end.
    simpl in *. eauto.
  - exists (networkErrors ix). now destruct ix.
Qed.

Lemma upload_wf (now : Z) (path contents : string) (put : PutOutcome)
    (publish : Settled unit) (ix : t) :
  index_wf ix ->
  index_wf (fst (fst (upload localeCompare now path contents put publish ix))).
Proof.
  intros Hwf.
  destruct (upload_frame now path contents put publish ix) as [errors ->].
  now apply index_wf_frame with (ix := ix).
Qed.

Lemma delete_wf (path : string) (remove publish : Settled unit) (ix : t) :
  index_wf ix ->
  index_wf (fst (fst (delete localeCompare path remove publish ix))).
Proof.
  intros Hwf.
  destruct (delete_frame path remove publish ix) as [errors ->].
  now apply index_wf_frame with (ix := ix).
Qed.

End Invariant.

(** * Further properties: topics and path joining *)

Section TopicBound.

Lemma startsWith_refl (s : string) : JsString.startsWith s s = true.
Proof. apply startsWith_iff. exists "". now rewrite append_nil_r. Qed.

Lemma startsWith_trans (a b c : string) :
  JsString.startsWith a b = true -> JsString.startsWith b c = true ->
  JsString.startsWith a c = true.
Proof.
  rewrite !startsWith_iff. intros [r ->] [r' ->].
  exists (r' ++ r). now rewrite append_assoc.
Qed.

Lemma firstSegment_prefix (c : ascii) (s : string) :
  JsString.startsWith s (JsString.firstSegment c s) = true.
Proof.
  unfold JsString.startsWith.
  induction s as [|a s IH]; simpl; [reflexivity|].
  destruct (Ascii.eqb a c); simpl; [reflexivity|].
  destruct (ascii_dec a a); [assumption | congruence].
Qed.

Lemma makeTopicPubSubSafe_short (path : string) :
  String.length path <= 80 -> makeTopicPubSubSafe path = path.
Proof.
  intros H. unfold makeTopicPubSubSafe, MAX_TOPIC_LEN.
  destruct (Nat.ltb_spec 80 (String.length path)); [lia | reflexivity].
Qed.

(** X1. The sanitised topic never exceeds the limit, is always a prefix of
    the path it was made from, and sanitising it again changes
    nothing. *)
Theorem makeTopicPubSubSafe_bounded (path : string) :
  String.length (makeTopicPubSubSafe path) <= 80 /\
  JsString.startsWith path (makeTopicPubSubSafe path) = true /\
  makeTopicPubSubSafe (makeTopicPubSubSafe path) = makeTopicPubSubSafe path.
Proof.
  assert (H : String.length (makeTopicPubSubSafe path) <= 80 /\
              JsString.startsWith path (makeTopicPubSubSafe path) = true).
  { unfold makeTopicPubSubSafe, MAX_TOPIC_LEN.
    destruct (Nat.ltb_spec 80 (String.length path)) as [Hlong|Hshort].
    - cbv zeta. rewrite split_hd.
      destruct (Nat.ltb_spec 80
                  (String.length (JsString.firstSegment slash path))).
      + split.
        * rewrite substringTo_length. lia.
        * eapply startsWith_trans;
            [apply firstSegment_prefix | apply substringTo_prefix].
      + destruct (makeTopicPubSubSafe_loop_spec
                    (JsString.split slash path) [])
          as (k & Hk & Hres & Hall & _).
        simpl in Hres, Hall. rewrite Hres. split.
        * destruct k as [|k]; [simpl; lia|].
          specialize (Hall (S k)). unfold MAX_TOPIC_LEN in Hall. lia.
        * rewrite <- (split_join slash path) at 1.
          apply concat_firstn_prefix.
    - split; [lia | apply startsWith_refl]. }
  destruct H as [Hlen Hpre]. repeat split; auto.
  now apply makeTopicPubSubSafe_short.
Qed.

Lemma endsWithChar_append_char (s : string) (c : ascii) :
  JsString.endsWithChar (s ++ String c EmptyString) c = true.
Proof.
  induction s as [|a s IH]; simpl.
  - apply Ascii.eqb_refl.
  - destruct (s ++ String c EmptyString) eqn:E; [|exact IH].
    destruct s; discriminate.
Qed.

Lemma ensurePathEndsWithSlash_folderPrefix (path : string) :
  ensurePathEndsWithSlash path = ReactiveIndex.folderPrefix path.
Proof.
  unfold ensurePathEndsWithSlash, ReactiveIndex.folderPrefix.
  replace (String.length path =? 0)%nat with (String.eqb path "")
    by (destruct path; reflexivity).
  destruct (JsString.endsWithChar path slash), (String.eqb path "");
    reflexivity.
Qed.

(** X2. Path joining: [ensurePathEndsWithSlash] computes the very prefix
    that [getChildren] uses for a folder, leaves the empty path empty,
    makes every other path end with exactly the separator it needs,
    and applying it twice adds nothing. *)
Theorem ensurePathEndsWithSlash_normalises (path : string) :
  ensurePathEndsWithSlash path = ReactiveIndex.folderPrefix path /\
  (path = "" -> ensurePathEndsWithSlash path = "") /\
  (path <> "" ->
   JsString.endsWithChar (ensurePathEndsWithSlash path) slash = true) /\
  JsString.startsWith (ensurePathEndsWithSlash path) path = true /\
  ensurePathEndsWithSlash (ensurePathEndsWithSlash path) =
    ensurePathEndsWithSlash path.
Proof.
  assert (Hlen : (String.length path =? 0)%nat = String.eqb path "").
  { destruct path; reflexivity. }
  assert (Hends : path <> "" ->
            JsString.endsWithChar (ensurePathEndsWithSlash path) slash = true).
  { intros Hne. unfold ensurePathEndsWithSlash. rewrite Hlen.
    destruct (JsString.endsWithChar path slash) eqn:E; simpl; [exact E|].
    apply String.eqb_neq in Hne. rewrite Hne.
    apply endsWithChar_append_char. }
  split; [|split; [|split; [|split]]].
  - apply ensurePathEndsWithSlash_folderPrefix.
  - now intros ->.
  - exact Hends.
  - unfold ensurePathEndsWithSlash.
    destruct (_ || _); [apply startsWith_refl | apply startsWith_append].
  - destruct (string_dec path "") as [->|Hne]; [reflexivity|].
    specialize (Hends Hne).
    unfold ensurePathEndsWithSlash at 1. now rewrite Hends.
Qed.

End TopicBound.

(** * Further properties: writes and their echoes *)

Section Echoes.

Import ReactiveIndex.

Variable localeCompare : string -> string -> comparison.

Lemma upload_completed_publishes (now : Z) (path contents : string)
    (progress : list (Z * Z)) (completeCallback : bool)
    (publish : Settled unit) (ix : t) :
  In (SocketPublish
        (makeTopicPubSubSafe ("/UPDATE/" ++ globalPrefix ix ++ path))
        (UpdatePayload (globalPrefix ix ++ path) now (blobSize contents)))
    (snd (fst (upload localeCompare now path contents
                 (PutCompletes progress completeCallback) publish ix))).
Proof.
  unfold upload. destruct completeCallback.
  - destruct (upload_onPut localeCompare _ _ ix) as [ix1 tr1].
    pose proof (upload_onPut_spec localeCompare
                  (makeTopicPubSubSafe ("/UPDATE/" ++ globalPrefix ix ++ path))
                  (UpdatePayload (globalPrefix ix ++ path) now
                     (blobSize contents)) ix1) as [_ H2].
    destruct (upload_onPut localeCompare _ _ ix1) as [ix2 tr2].
    simpl in *. right. apply in_or_app. right.
    apply in_or_app. now right.
  - pose proof (upload_onPut_spec localeCompare
                  (makeTopicPubSubSafe ("/UPDATE/" ++ globalPrefix ix ++ path))
                  (UpdatePayload (globalPrefix ix ++ path) now
                     (blobSize contents)) ix) as [_ H1].
    destruct (upload_onPut localeCompare _ _ ix) as [ix1 tr1].
    simpl in *. right. apply in_or_app. right. exact H1.
Qed.

Lemma onSocketMessage_update_files (globalKey : string) (millis bytes : Z)
    (ix : t) :
  let file :=
    {| key := JsString.substringFrom (String.length (globalPrefix ix))
                globalKey;
       lastModified := millis; size := bytes |} in
  files (fst (onSocketMessage (UpdatePayload globalKey millis bytes) ix)) =
  if accepts (files ix) file
  then JsMap.set (files ix) (key file) file else files ix.
Proof.
  cbv zeta. simpl. unfold _onReceivedPubSubUpdate.
  apply _updateFileInIndex_files.
Qed.

Lemma _deleteFileInIndex_files (path : string) (ix : t) :
  files (fst (_deleteFileInIndex path ix)) = JsMap.delete (files ix) path.
Proof.
  rewrite _deleteFileInIndex_eq. simpl.
  now rewrite _updateChildListeners_files.
Qed.

(** X3. A child uploaded through a cursor comes back under its own name:
    once the store completes the put, the update event is published,
    and when the subscription of an index with the same prefix
    delivers it, [getChildren] of the cursor's path lists the record
    under the child path that was given to [uploadChild]. *)
Theorem uploadChild_round_trip (c : ReactiveCursor.t)
    (h : ReactiveCursor.Heap) (now : Z) (childPath contents : string)
    (progress : list (Z * Z)) (completeCallback : bool)
    (publish : Settled unit) :
  childPath <> "" ->
  let ix := h (ReactiveCursor.index c) in
  let fullKey := ensurePathEndsWithSlash (ReactiveCursor.path c) ++ childPath in
  let event :=
    UpdatePayload (globalPrefix ix ++ fullKey) now (blobSize contents) in
  In (SocketPublish
        (makeTopicPubSubSafe ("/UPDATE/" ++ globalPrefix ix ++ fullKey)) event)
    (snd (fst (ReactiveCursor.uploadChild localeCompare now childPath
                 contents (PutCompletes progress completeCallback) publish
                 c h))) /\
  forall later,
    globalPrefix later = globalPrefix ix ->
    JsMap.wf (files later) ->
    accepts (files later) (uploaded fullKey now contents) = true ->
    JsMap.get
      (getChildren (fst (onSocketMessage event later))
         (ReactiveCursor.path c)) childPath
    = Some (uploaded fullKey now contents).
Proof.
  intros Hchild. cbv zeta. split.
  - unfold ReactiveCursor.uploadChild.
    pose proof (upload_completed_publishes now
                  (ensurePathEndsWithSlash (ReactiveCursor.path c)
                   ++ childPath) contents progress completeCallback publish
                  (h (ReactiveCursor.index c))) as H.
    destruct (upload localeCompare _ _ _ _ _ _) as [[ix' tr] result].
    exact H.
  - intros later Hprefix Hwf Hacc.
    pose proof (onSocketMessage_update_files
                  (globalPrefix (h (ReactiveCursor.index c))
                   ++ ensurePathEndsWithSlash (ReactiveCursor.path c)
                   ++ childPath) now (blobSize contents) later) as Hfiles.
    cbv zeta in Hfiles.
    rewrite Hprefix, substringFrom_append in Hfiles.
    unfold uploaded in Hacc. rewrite Hacc in Hfiles. simpl key in Hfiles.
    rewrite getChildren_get.
    + apply String.eqb_neq in Hchild. rewrite Hchild.
      rewrite Hfiles.
      rewrite <- ensurePathEndsWithSlash_folderPrefix.
      apply get_set_eq.
    + rewrite Hfiles. now apply wf_set.
Qed.

Lemma delete_silent_unless_removed (path : string)
    (remove publish : Settled unit) (ix : t) topic payload :
  remove <> Fulfilled tt ->
  ~ In (SocketPublish topic payload)
      (snd (fst (delete localeCompare path remove publish ix))).
Proof.
  intros Hrem. unfold delete.
  destruct remove as [[]|e|]; [congruence| |].
  - unfold setNetworkError. destruct (messagesDiffer _ _); simpl.
    + intros [H|H]; [discriminate|].
      apply in_map_iff in H as (l & Hl & _). discriminate.
    + intros [H|[]]. discriminate.
  - simpl. intros [H|[]]. discriminate.
Qed.

(** X4. [delete] never edits the file map itself.  It publishes the delete
    event exactly when the store has removed the object; when the
    event comes back through the subscription the record is gone and
    every other record is untouched. *)
Theorem delete_is_applied_by_its_echo (path : string) (ix : t) :
  let event := DeletePayload (globalPrefix ix ++ path) in
  let topic := makeTopicPubSubSafe ("/DELETE/" ++ globalPrefix ix ++ path) in
  (forall remove publish,
     files (fst (fst (delete localeCompare path remove publish ix)))
       = files ix) /\
  (forall publish,
     In (SocketPublish topic event)
       (snd (fst (delete localeCompare path (Fulfilled tt) publish ix)))) /\
  (forall remove publish anyTopic anyPayload,
     remove <> Fulfilled tt ->
     ~ In (SocketPublish anyTopic anyPayload)
         (snd (fst (delete localeCompare path remove publish ix)))) /\
  (forall later,
     globalPrefix later = globalPrefix ix ->
     JsMap.wf (files later) ->
     getMetadata (fst (onSocketMessage event later)) path = None /\
     forall other, other <> path ->
       getMetadata (fst (onSocketMessage event later)) other =
       getMetadata later other).
Proof.
  cbv zeta. split; [|split; [|split]].
  - intros remove publish.
    destruct (delete_frame localeCompare path remove publish ix)
      as [errors ->].
    reflexivity.
  - intros publish. unfold delete.
    destruct (clearNetworkError localeCompare "Delete" ix) as [ix1 tr1].
    destruct publish as [[]|e|].
    + simpl. right. apply in_or_app. right. now left.
    + destruct (setNetworkError localeCompare "Delete" _ ix1) as [ix2 tr2].
      simpl. right. apply in_or_app. left. apply in_or_app. right. now left.
    + simpl. right. apply in_or_app. right. now left.
  - intros remove publish anyTopic anyPayload Hrem.
    now apply delete_silent_unless_removed.
  - intros later Hprefix Hwf. simpl.
    rewrite Hprefix, substringFrom_append.
    unfold _onReceivedPubSubDelete, getMetadata.
    rewrite _deleteFileInIndex_files. split.
    + now apply get_delete_eq.
    + intros other Hne. apply get_delete_ne. congruence.
Qed.

(** X5. Deleting forgets the timestamp.  After [_deleteFileInIndex] the
    key is absent and the other keys are untouched, so any update for
    that key that arrives later is taken, also one that is older than
    the record that was deleted. *)
Theorem delete_then_update_resurrects (ix : t) (file : ReactiveFileMetadata) :
  JsMap.wf (files ix) ->
  let deleted := fst (_deleteFileInIndex (key file) ix) in
  getMetadata deleted (key file) = None /\
  (forall other, other <> key file ->
     getMetadata deleted other = getMetadata ix other) /\
  getMetadata (fst (_updateFileInIndex file deleted)) (key file) = Some file.
Proof.
  intros Hwf. cbv zeta. unfold getMetadata.
  rewrite _updateFileInIndex_files, !_deleteFileInIndex_files.
  assert (Hnone : JsMap.get (JsMap.delete (files ix) (key file)) (key file)
                  = None) by now apply get_delete_eq.
  split; [exact Hnone|]. split.
  - intros other Hne. apply get_delete_ne. congruence.
  - unfold accepts. rewrite Hnone. apply get_set_eq.
Qed.

End Echoes.

Lemma uploadChild_round_trip_witness :
  JsMap.get
    (ReactiveIndex.getChildren
       (fst (ReactiveIndex.onSocketMessage
               (UpdatePayload "s/notes.txt" 5000 5) (twoIndexes 0)))
       "s") "notes.txt"
  = Some (uploaded "s/notes.txt" 5000 "hello").
Proof.
  apply (proj2 (@uploadChild_round_trip String.compare subjectCursor
                  twoIndexes 5000 "notes.txt" "hello" [] false
                  (Fulfilled tt) ltac:(discriminate))).
  - reflexivity.
  - unfold JsMap.wf. simpl. repeat constructor; simpl; intuition discriminate.
  - reflexivity.
Defined.

Lemma delete_then_update_resurrects_witness :
  ReactiveIndex.getMetadata
    (fst (ReactiveIndex._updateFileInIndex (xtxt 500 1)
            (fst (ReactiveIndex._deleteFileInIndex "a/x.txt" listeningIndex))))
    "a/x.txt" = Some (xtxt 500 1).
Proof.
  apply (proj2 (proj2 (@delete_then_update_resurrects listeningIndex
                         (xtxt 500 1) (proj1 listeningIndex_wf)))).
Defined.

(** * Further properties: the error registry and downloads *)

Section ErrorRegistry.

Import ReactiveIndex.

Variable localeCompare : string -> string -> comparison.

Lemma messagesDiffer_refl (a : list string) : messagesDiffer a a = false.
Proof.
  unfold messagesDiffer. destruct (list_eq_dec string_dec a a); congruence.
Qed.

Lemma with_networkErrors_same (ix : t) :
  with_networkErrors (networkErrors ix) ix = ix.
Proof. now destruct ix. Qed.

Lemma delete_absent (V : Type) (m : JsMap.t V) (k : string) :
  JsMap.get m k = None -> JsMap.delete m k = m.
Proof.
  induction m as [|[k' v] m IH]; simpl; [reflexivity|].
  destruct (String.eqb k' k); [discriminate|].
  intros H. f_equal. auto.
Qed.

Lemma insertBy_Permutation (A : Type) (cmp : A -> A -> comparison)
    (x : A) (l : list A) :
  Permutation (JsArray.insertBy cmp x l) (x :: l).
Proof.
  induction l as [|y l IH]; simpl; [reflexivity|].
  destruct (cmp x y); try reflexivity.
  rewrite IH. apply perm_swap.
Qed.

Lemma sortBy_Permutation (A : Type) (cmp : A -> A -> comparison)
    (l : list A) :
  Permutation (JsArray.sortBy cmp l) l.
Proof.
  induction l as [|x l IH]; simpl; [reflexivity|].
  rewrite insertBy_Permutation. now constructor.
Qed.

Lemma getNetworkErrorMessages_Permutation (ix : t) :
  Permutation (getNetworkErrorMessages localeCompare ix)
    (JsMap.values (networkErrors ix)).
Proof.
  unfold getNetworkErrorMessages, JsMap.values.
  apply Permutation_map, sortBy_Permutation.
Qed.

(** X6. The error registry reports changes only.  Raising an error again
    with the same message, or clearing an error that is not raised,
    leaves the index as it is and calls no listener; the list handed
    to the listeners always holds exactly the messages of the registry,
    and a raised error is in it. *)
Theorem network_errors_are_change_detected (ix : t) :
  (forall errKey value,
     let raised := fst (setNetworkError localeCompare errKey value ix) in
     setNetworkError localeCompare errKey value raised = (raised, [])) /\
  (forall errKey,
     JsMap.get (networkErrors ix) errKey = None ->
     clearNetworkError localeCompare errKey ix = (ix, [])) /\
  Permutation (getNetworkErrorMessages localeCompare ix)
    (JsMap.values (networkErrors ix)) /\
  (forall errKey value,
     let raised := fst (setNetworkError localeCompare errKey value ix) in
     JsMap.get (networkErrors raised) errKey = Some value /\
     In value (getNetworkErrorMessages localeCompare raised)).
Proof.
  split; [|split; [|split]].
  - intros errKey value. cbv zeta. rewrite setNetworkError_spec.
    unfold setNetworkError. simpl networkErrors.
    rewrite set_set.
    replace (with_networkErrors (JsMap.set (networkErrors ix) errKey value)
               (with_networkErrors
                  (JsMap.set (networkErrors ix) errKey value) ix))
      with (with_networkErrors (JsMap.set (networkErrors ix) errKey value) ix)
      by reflexivity.
    now rewrite messagesDiffer_refl.
  - intros errKey Habsent. unfold clearNetworkError.
    rewrite (delete_absent _ _ Habsent), with_networkErrors_same.
    now rewrite messagesDiffer_refl.
  - apply getNetworkErrorMessages_Permutation.
  - intros errKey value. cbv zeta. rewrite setNetworkError_spec.
    simpl networkErrors. split; [apply get_set_eq|].
    eapply Permutation_in.
    + symmetry. apply getNetworkErrorMessages_Permutation.
    + simpl networkErrors. unfold JsMap.values.
      change value with (snd (errKey, value)).
      apply in_map. apply get_Some_In. apply get_set_eq.
Qed.

Section Download.

Import ReactiveJsonFile.

Variable JSON_parse : string -> option (list (string * any)).

Lemma merge_props_get_absent (props : list (string * any))
    (vs : JsMap.t any) (attr : string) :
  ~ In attr (map fst props) ->
  JsMap.get
    (fold_left (fun vs (p : string * any) => JsMap.set vs (fst p) (snd p))
       props vs) attr = JsMap.get vs attr.
Proof.
  revert vs; induction props as [|[k v] props IH]; intros vs Hnotin;
    simpl; [reflexivity|].
  rewrite IH by (simpl in Hnotin; tauto).
  apply get_set_ne. simpl in Hnotin. tauto.
Qed.

Lemma merge_props_get_present (props : list (string * any))
    (vs : JsMap.t any) (attr : string) (v : any) :
  NoDup (map fst props) -> In (attr, v) props ->
  JsMap.get
    (fold_left (fun vs (p : string * any) => JsMap.set vs (fst p) (snd p))
       props vs) attr = Some v.
Proof.
  revert vs; induction props as [|[k w] props IH]; intros vs Hnd Hin;
    simpl; [contradiction|].
  inversion Hnd as [|? ? Hnotin Hnd']; subst.
  destruct Hin as [[= -> ->]|Hin].
  - rewrite merge_props_get_absent by assumption. apply get_set_eq.
  - now apply IH.
Qed.

(** X7. A download never rejects: when the store fails, or answers without
    a body, the text is empty and the error is recorded under ["Get"].
    Since the empty text does not parse, the document that asked for
    it is emptied, and every attribute reads as its default. *)
Theorem failed_download_empties_the_document (ix : ReactiveIndex.t)
    (path : string)
    (get : GetOutcome) (f : ReactiveJsonFile.t) :
  JSON_parse "" = None ->
  (forall text, get <> GetBody text) -> get <> GetHangs ->
  let r := downloadText localeCompare path get ix in
  snd r = Fulfilled "" /\
  JsMap.get (networkErrors (fst (fst r))) "Get" =
    Some "We got an error trying to download a file!" /\
  files (fst (fst r)) = files ix /\
  values (pathChanged_onDownload JSON_parse (snd r) f) = JsMap.empty /\
  forall attr defaultValue,
    getAttribute (pathChanged_onDownload JSON_parse (snd r) f) attr
      defaultValue = defaultValue.
Proof.
  intros Hparse Hbody Hhang. cbv zeta.
  assert (Hr : snd (downloadText localeCompare path get ix) = Fulfilled "" /\
               fst (fst (downloadText localeCompare path get ix)) =
               with_networkErrors
                 (JsMap.set
                    (networkErrors
                       (fst (fst (downloadText localeCompare path get ix))))
                    "Get" "We got an error trying to download a file!")
                 ix /\
               JsMap.get
                 (networkErrors
                    (fst (fst (downloadText localeCompare path get ix))))
                 "Get" = Some "We got an error trying to download a file!").
  { unfold downloadText. destruct get as [e|text| |].
    - match goal with
      | |- context [setNetworkError localeCompare ?k ?v ?x] =>
          pose proof (setNetworkError_spec localeCompare k v x) as H;
            destruct (setNetworkError localeCompare k v x) as [ix1 tr1]
      end.
      simpl in *. subst ix1. simpl.
      rewrite set_set, get_set_eq. auto.
    - exfalso. now apply (Hbody text).
    - pose proof (clearNetworkError_spec localeCompare "Get" ix) as H0.
      destruct (clearNetworkError localeCompare "Get" ix) as [ix0 tr0].
      match goal with
      | |- context [setNetworkError localeCompare ?k ?v ?x] =>
          pose proof (setNetworkError_spec localeCompare k v x) as H;
            destruct (setNetworkError localeCompare k v x) as [ix1 tr1]
      end.
      simpl in *. subst ix1 ix0. simpl.
      rewrite set_set, get_set_eq. auto.
    - congruence. }
  destruct Hr as (Hres & Hix & Hget).
  rewrite Hres. simpl pathChanged_onDownload. rewrite Hparse.
  repeat split; auto.
  rewrite Hix. reflexivity.
Qed.

(** X8. Loading merges, it does not replace.  After a text that parses,
    every property of the parsed object is held under its name, and an
    attribute the file does not mention keeps the value it had; a text
    that does not parse empties the document; a download that
    succeeds clears the ["Get"] error. *)
Theorem document_load_merges (f : ReactiveJsonFile.t) (text : string) :
  (forall props,
     JSON_parse text = Some props ->
     NoDup (map fst props) ->
     let loaded := pathChanged_onDownload JSON_parse (Fulfilled text) f in
     (forall attr v, In (attr, v) props ->
        JsMap.get (values loaded) attr = Some v) /\
     (forall attr, ~ In attr (map fst props) ->
        JsMap.get (values loaded) attr = JsMap.get (values f) attr)) /\
  (JSON_parse text = None ->
   values (pathChanged_onDownload JSON_parse (Fulfilled text) f)
     = JsMap.empty) /\
  (forall ix path,
     JsMap.wf (networkErrors ix) ->
     let r := downloadText localeCompare path (GetBody text) ix in
     snd r = Fulfilled text /\
     JsMap.get (networkErrors (fst (fst r))) "Get" = None).
Proof.
  split; [|split].
  - intros props Hparse Hnd. cbv zeta. simpl. rewrite Hparse. simpl. split.
    + intros attr v Hin. now apply merge_props_get_present.
    + intros attr Hnotin. now apply merge_props_get_absent.
  - intros Hparse. simpl. now rewrite Hparse.
  - intros ix path Hwf. cbv zeta. unfold downloadText.
    pose proof (clearNetworkError_spec localeCompare "Get" ix) as H0.
    destruct (clearNetworkError localeCompare "Get" ix) as [ix0 tr0].
    simpl in *. subst ix0. simpl. split; [reflexivity|].
    now apply get_delete_eq.
Qed.

End Download.

End ErrorRegistry.

Lemma network_errors_are_change_detected_witness :
  ReactiveIndex.clearNetworkError String.compare "Upload" exampleIndex
    = (exampleIndex, []).
Proof.
  apply (proj1 (proj2 (network_errors_are_change_detected String.compare
                         exampleIndex))).
  reflexivity.
Defined.

(** A parser for concrete runs: the empty text does not parse, any
    other text is an object with the single property [massKg]. *)
Lemma failed_download_empties_the_document_witness :
  ReactiveJsonFile.getAttribute
    (ReactiveJsonFile.pathChanged_onDownload
       (fun text => if String.eqb text "" then None
                    else Some [("massKg", JNumber 70)])
       (snd (ReactiveIndex.downloadText String.compare "s/_subject.json"
               (ReactiveIndex.GetRejects "403") exampleIndex))
       subjectJson) "sex" (JString "n/a") = JString "n/a".
Proof.
  apply (@failed_download_empties_the_document String.compare
           (fun text => if String.eqb text "" then None
                        else Some [("massKg", JNumber 70)])
           exampleIndex "s/_subject.json" (ReactiveIndex.GetRejects "403")
           subjectJson eq_refl); discriminate.
Defined.

Lemma document_load_merges_witness :
  JsMap.get
    (ReactiveJsonFile.values
       (ReactiveJsonFile.pathChanged_onDownload
          (fun text => if String.eqb text "" then None
                       else Some [("massKg", JNumber 70)])
          (Fulfilled "{}") subjectJson)) "sex" = Some (JString "unknown").
Proof.
  apply (proj2 (proj1 (@document_load_merges String.compare
           (fun text => if String.eqb text "" then None
                        else Some [("massKg", JNumber 70)])
           subjectJson "{}") [("massKg", JNumber 70)] eq_refl
           ltac:(repeat constructor; simpl; tauto))).
  simpl. intuition discriminate.
Defined.

(** * Further properties: reconciliation with a listing *)

Section Reconciliation.

Import ReactiveIndex.

Variable localeCompare : string -> string -> comparison.

Lemma In_set (V : Type) (m : JsMap.t V) (k : string) (v : V)
    (e : string * V) :
  In e (JsMap.set m k v) -> e = (k, v) \/ In e m.
Proof.
  induction m as [|[k' v'] m IH]; simpl.
  - intros [<-|[]]. now left.
  - destruct (String.eqb_spec k' k) as [->|Hne]; simpl.
    + intros [<-|H]; auto.
    + intros [<-|H]; auto. destruct (IH H); auto.
Qed.

Lemma listedFiles_fold (result : list S3ProviderListOutputItem)
    (acc : JsMap.t S3ProviderListOutputItem) :
  let listed :=
    fold_left
      (fun newFiles item =>
         match item_key item with
         | Some k => JsMap.set newFiles k item
         | None => newFiles
         end) result acc in
  (JsMap.wf acc -> JsMap.wf listed) /\
  (forall k item, In (k, item) listed ->
     In (k, item) acc \/ (In item result /\ item_key item = Some k)) /\
  (forall k, JsMap.get listed k = None <->
     JsMap.get acc k = None /\ ~ In (Some k) (map item_key result)).
Proof.
  revert acc; induction result as [|item result IH]; intros acc; simpl.
  - repeat split; auto; tauto.
  - destruct (item_key item) as [k0|] eqn:Ek.
    + destruct (IH (JsMap.set acc k0 item)) as (Hwf & Hin & Hnone).
      split; [|split].
      * intros Hacc. apply Hwf. now apply wf_set.
      * intros k it H. destruct (Hin k it H) as [H1|[H1 H2]]; [|tauto].
        apply In_set in H1 as [[= -> ->]|H1]; tauto.
      * intros k. rewrite Hnone, get_set.
        destruct (String.eqb_spec k0 k) as [->|Hne].
        -- split; [intros [H _]; discriminate | tauto].
        -- split; intros [H1 H2]; (split; [assumption|]).
           ++ intros [[= ->]|H3]; tauto.
           ++ tauto.
    + destruct (IH acc) as (Hwf & Hin & Hnone).
      split; [assumption|split].
      * intros k it H. destruct (Hin k it H); tauto.
      * intros k. rewrite Hnone.
        split; intros [H1 H2]; (split; [assumption|]).
        -- intros [H3|H3]; [discriminate | tauto].
        -- tauto.
Qed.

Lemma forEachIndex_files (A : Type) (f : A -> t -> t * Trace)
    (g : A -> JsMap.t ReactiveFileMetadata -> JsMap.t ReactiveFileMetadata)
    (l : list A) (ix : t) :
  (forall a ix, files (fst (f a ix)) = g a (files ix)) ->
  files (fst (forEachIndex f l ix)) =
  fold_left (fun fs a => g a fs) l (files ix).
Proof.
  intros Hf. unfold forEachIndex.
  assert (H : forall tr,
            files (fst (fold_left
              (fun (acc : t * Trace) a =>
                 let (ix, tr) := acc in
                 let (ix, tr') := f a ix in (ix, (tr ++ tr')%list))
              l (ix, tr))) =
            fold_left (fun fs a => g a fs) l (files ix)).
  { revert ix. induction l as [|a l IH]; intros ix tr; simpl; auto.
    specialize (Hf a ix).
    destruct (f a ix) as [ix' tr']. simpl in Hf. rewrite IH. now rewrite Hf. }
  apply H.
Qed.

Lemma forEachIndex_loading (A : Type) (f : A -> t -> t * Trace)
    (l : list A) (ix : t) :
  (forall a ix, loading (fst (f a ix)) = loading ix) ->
  loading (fst (forEachIndex f l ix)) = loading ix.
Proof.
  intros Hf. unfold forEachIndex.
  assert (H : forall tr,
            loading (fst (fold_left
              (fun (acc : t * Trace) a =>
                 let (ix, tr) := acc in
                 let (ix, tr') := f a ix in (ix, (tr ++ tr')%list))
              l (ix, tr))) = loading ix).
  { revert ix. induction l as [|a l IH]; intros ix tr; simpl; auto.
    specialize (Hf a ix).
    destruct (f a ix) as [ix' tr']. simpl in Hf. rewrite IH. exact Hf. }
  apply H.
Qed.

Lemma _updateChildListeners_loading (ix : t) :
  loading (fst (_updateChildListeners ix)) = loading ix.
Proof.
  unfold _updateChildListeners. now destruct (fold_left _ _ _).
Qed.

Lemma _updateFileInIndex_loading (file : ReactiveFileMetadata) (ix : t) :
  loading (fst (_updateFileInIndex file ix)) = loading ix.
Proof.
  destruct (accepts (files ix) file) eqn:E.
  - rewrite _updateFileInIndex_accepted by assumption. simpl.
    now rewrite _updateChildListeners_loading.
  - now rewrite _updateFileInIndex_rejected.
Qed.

Lemma _deleteFileInIndex_loading (path : string) (ix : t) :
  loading (fst (_deleteFileInIndex path ix)) = loading ix.
Proof.
  rewrite _deleteFileInIndex_eq. simpl.
  now rewrite _updateChildListeners_loading.
Qed.

(** Step 2.2 on the file map: the keys that are not listed go. *)
Lemma dropUnlisted_get (newFiles : JsMap.t S3ProviderListOutputItem)
    (l fs : JsMap.t ReactiveFileMetadata) (k : string) :
  JsMap.wf fs ->
  JsMap.wf
    (fold_left
       (fun fs (e : string * ReactiveFileMetadata) =>
          if negb (JsMap.has newFiles (fst e)) then JsMap.delete fs (fst e)
          else fs) l fs) /\
  JsMap.get
    (fold_left
       (fun fs (e : string * ReactiveFileMetadata) =>
          if negb (JsMap.has newFiles (fst e)) then JsMap.delete fs (fst e)
          else fs) l fs) k =
  if existsb (fun e => String.eqb (fst e) k) l
     && negb (JsMap.has newFiles k)
  then None else JsMap.get fs k.
Proof.
  revert fs; induction l as [|[k' f'] l IH]; intros fs Hwf; simpl.
  - auto.
  - destruct (JsMap.has newFiles k') eqn:Ehas; simpl.
    + destruct (IH fs Hwf) as [Hwf' Hget]. split; [assumption|].
      rewrite Hget.
      destruct (String.eqb_spec k' k) as [->|Hne]; simpl.
      * rewrite Ehas. simpl. now rewrite andb_false_r.
      * reflexivity.
    + destruct (IH (JsMap.delete fs k') (wf_delete k' Hwf)) as [Hwf' Hget].
      split; [assumption|]. rewrite Hget.
      destruct (String.eqb_spec k' k) as [->|Hne]; simpl.
      * rewrite Ehas. simpl. rewrite get_delete_eq by assumption.
        now destruct (existsb _ l).
      * now rewrite get_delete_ne.
Qed.

Lemma existsb_key_get (V : Type) (m : JsMap.t V) (k : string) :
  existsb (fun e => String.eqb (fst e) k) m = JsMap.has m k.
Proof.
  unfold JsMap.has.
  induction m as [|[k' v] m IH]; simpl; [reflexivity|].
  destruct (String.eqb k' k); simpl; auto.
Qed.

(** The second loop on the file map: each listed entry is merged. *)
Lemma mergeListed_get (l : JsMap.t S3ProviderListOutputItem)
    (fs : JsMap.t ReactiveFileMetadata) (k : string) :
  JsMap.wf l ->
  (forall k' item, In (k', item) l -> item_key item = Some k') ->
  JsMap.get
    (fold_left
       (fun fs (e : string * S3ProviderListOutputItem) =>
          match item_key (snd e), item_lastModified (snd e),
                item_size (snd e) with
          | Some k', Some lm, Some sz =>
              let file := {| key := k'; lastModified := lm; size := sz |} in
              if accepts fs file then JsMap.set fs (key file) file else fs
          | _, _, _ => fs
          end) l fs) k =
  match JsMap.get l k with
  | None => JsMap.get fs k
  | Some item =>
      match listedRecord k item with
      | Some file => if accepts fs file then Some file else JsMap.get fs k
      | None => JsMap.get fs k
      end
  end.
Proof.
  unfold JsMap.wf, JsMap.keys.
  revert fs; induction l as [|[k' item] l IH]; intros fs Hnd Hkeys; simpl;
    [reflexivity|].
  inversion Hnd as [|? ? Hnotin Hnd']; subst.
  pose proof (Hkeys k' item (or_introl eq_refl)) as Hk'.
  assert (Hrest : forall k0 item0, In (k0, item0) l ->
                    item_key item0 = Some k0)
    by (intros; apply Hkeys; now right).
  rewrite IH by assumption. rewrite Hk'.
  destruct (String.eqb_spec k' k) as [->|Hne].
  - assert (Hl : JsMap.get l k = None) by now apply get_None_keys.
    rewrite Hl. unfold listedRecord.
    destruct (item_lastModified item) as [lm|], (item_size item) as [sz|];
      try reflexivity.
    simpl key. destruct (accepts fs _); [apply get_set_eq | reflexivity].
  - assert (Hfs : forall fs',
              (forall k0, k0 <> k' -> JsMap.get fs' k0 = JsMap.get fs k0) ->
              match JsMap.get l k with
              | Some item0 =>
                  match listedRecord k item0 with
                  | Some file =>
                      if accepts fs' file then Some file else JsMap.get fs' k
                  | None => JsMap.get fs' k
                  end
              | None => JsMap.get fs' k
              end =
              match JsMap.get l k with
              | Some item0 =>
                  match listedRecord k item0 with
                  | Some file =>
                      if accepts fs file then Some file else JsMap.get fs k
                  | None => JsMap.get fs k
                  end
              | None => JsMap.get fs k
              end).
    { intros fs' Hsame.
      assert (Hk : JsMap.get fs' k = JsMap.get fs k)
        by (apply Hsame; congruence).
      destruct (JsMap.get l k) as [item0|]; [|exact Hk].
      unfold listedRecord.
      destruct (item_lastModified item0), (item_size item0); try exact Hk.
      unfold accepts. simpl key. now rewrite Hk. }
    destruct (item_lastModified item) as [lm|], (item_size item) as [sz|];
      try reflexivity.
    simpl key. destruct (accepts fs _); [|reflexivity].
    apply Hfs. intros k0 Hk0. apply get_set_ne. congruence.
Qed.

(** X9. A successful [fullRefresh] reconciles the file map with the
    listing key by key: a key that is not listed is dropped; a listed
    key whose entry has a modification time and a size is merged under
    last-writer-wins, so a local record that is not older than the
    listed one is kept; a listed key whose entry is incomplete keeps
    whatever was stored.  The loading flag is down afterwards and the
    promise is fulfilled. *)
Theorem fullRefresh_reconciles (ix : t)
    (result : list S3ProviderListOutputItem) :
  JsMap.wf (files ix) ->
  let refreshed := fst (fst (fullRefresh localeCompare (Fulfilled result) ix))
  in
  (forall k,
     getMetadata refreshed k =
     match JsMap.get (listedFiles result) k with
     | None => None
     | Some item =>
         match listedRecord k item with
         | Some file =>
             if accepts (files ix) file then Some file else getMetadata ix k
         | None => getMetadata ix k
         end
     end) /\
  (forall k, JsMap.get (listedFiles result) k = None <->
             ~ In (Some k) (map item_key result)) /\
  (forall k item, JsMap.get (listedFiles result) k = Some item ->
                  In item result /\ item_key item = Some k) /\
  loading refreshed = false /\
  snd (fullRefresh localeCompare (Fulfilled result) ix) = Fulfilled tt.
Proof.
  intros Hwf. cbv zeta.
  destruct (listedFiles_fold result JsMap.empty) as (Hlwf & Hlin & Hlnone).
  fold (listedFiles result) in Hlwf, Hlin, Hlnone.
  specialize (Hlwf (wf_empty _)).
  assert (Hkeys : forall k item, In (k, item) (listedFiles result) ->
                    In item result /\ item_key item = Some k).
  { intros k item H. destruct (Hlin k item H) as [[]|H']; exact H'. }
  unfold fullRefresh.
  destruct (setIsLoading true ix) as [ix1 tr1] eqn:E1.
  assert (F1 : files ix1 = files ix)
    by (pose proof (proj1 (setIsLoading_spec true ix)) as H;
        now rewrite E1 in H).
  unfold fullRefresh_onList.
  destruct (setIsLoading false ix1) as [ix2 tr2] eqn:E2.
  assert (F2 : files ix2 = files ix1)
    by (pose proof (proj1 (setIsLoading_spec false ix1)) as H;
        now rewrite E2 in H).
  assert (L2 : loading ix2 = false).
  { unfold setIsLoading in E2. destruct (loading ix1) eqn:El; simpl in E2;
      injection E2 as <- _; [reflexivity | exact El]. }
  pose proof (clearNetworkError_spec localeCompare "FullRefresh" ix2) as H3.
  destruct (clearNetworkError localeCompare "FullRefresh" ix2) as [ix3 tr3].
  simpl in H3.
  assert (F3 : files ix3 = files ix) by (subst ix3; simpl; congruence).
  assert (L3 : loading ix3 = false) by (subst ix3; exact L2).
  clear H3.
  match goal with
  | |- context [forEachIndex ?f (files ix3) ix3] =>
      pose proof (@forEachIndex_files _ f
                    (fun e fs => if negb (JsMap.has (listedFiles result)
                                            (fst e))
                                 then JsMap.delete fs (fst e) else fs)
                    (files ix3) ix3) as F4;
      pose proof (@forEachIndex_loading _ f (files ix3) ix3) as L4;
      destruct (forEachIndex f (files ix3) ix3) as [ix4 tr4]
  end.
  simpl in F4, L4.
  assert (F4' := F4 ltac:(intros [k f] ix0; simpl; destruct (negb _); simpl;
      [apply _deleteFileInIndex_files | reflexivity])).
  assert (L4' := L4 ltac:(intros [k f] ix0; simpl; destruct (negb _); simpl;
      [apply _deleteFileInIndex_loading | reflexivity])).
  clear F4 L4.
  match goal with
  | |- context [forEachIndex ?f (listedFiles result) ix4] =>
      pose proof (@forEachIndex_files _ f
        (fun (e : string * S3ProviderListOutputItem) fs =>
           match item_key (snd e), item_lastModified (snd e),
                 item_size (snd e) with
           | Some k', Some lm, Some sz =>
               let file := {| key := k'; lastModified := lm; size := sz |} in
               if accepts fs file then JsMap.set fs (key file) file else fs
           | _, _, _ => fs
           end) (listedFiles result) ix4) as F5;
      pose proof (@forEachIndex_loading _ f (listedFiles result) ix4) as L5;
      destruct (forEachIndex f (listedFiles result) ix4) as [ix5 tr5]
  end.
  simpl in F5, L5. simpl.
  assert (F5' := F5 ltac:(intros [k it] ix0; simpl;
      destruct (item_key it), (item_lastModified it), (item_size it);
      try reflexivity; apply _updateFileInIndex_files)).
  assert (L5' := L5 ltac:(intros [k it] ix0; simpl;
      destruct (item_key it), (item_lastModified it), (item_size it);
      try reflexivity; apply _updateFileInIndex_loading)).
  clear F5 L5.
  split; [|split; [|split; [|split]]].
  - intros k. unfold getMetadata. rewrite F5'.
    rewrite mergeListed_get; auto.
    2:{ intros k' item H. now apply Hkeys. }
    rewrite F4', F3.
    destruct (dropUnlisted_get (listedFiles result) (files ix) k Hwf)
      as [_ Hdrop].
    assert (Hfs : JsMap.get
              (fold_left
                 (fun fs (a : string * ReactiveFileMetadata) =>
                    if negb (JsMap.has (listedFiles result) (fst a))
                    then JsMap.delete fs (fst a) else fs)
                 (files ix) (files ix)) k =
              match JsMap.get (listedFiles result) k with
              | Some _ => JsMap.get (files ix) k
              | None => None
              end).
    { rewrite Hdrop, existsb_key_get. unfold JsMap.has.
      destruct (JsMap.get (files ix) k), (JsMap.get (listedFiles result) k);
        reflexivity. }
    destruct (JsMap.get (listedFiles result) k) as [item|] eqn:El;
      [|exact Hfs].
    destruct (listedRecord k item) as [file|] eqn:Er; [|exact Hfs].
    assert (Hkey : key file = k).
    { unfold listedRecord in Er.
      destruct (item_lastModified item), (item_size item); try discriminate.
      now injection Er as <-. }
    unfold accepts. rewrite Hkey, Hfs. reflexivity.
  - intros k. rewrite Hlnone. simpl. tauto.
  - intros k item H. apply Hkeys. now apply get_Some_In.
  - rewrite L5', L4'. exact L3.
  - reflexivity.
Qed.

(** A failed [fullRefresh] keeps every record: the mirror stays usable
    with what it had. *)
Lemma fullRefresh_failure_keeps_files (ix : t) (e : Error) :
  files (fst (fst (fullRefresh localeCompare (Rejected e) ix))) = files ix.
Proof.
  unfold fullRefresh, fullRefresh_onError.
  pose proof (proj1 (setIsLoading_spec true ix)) as H1.
  destruct (setIsLoading true ix) as [ix1 tr1].
  pose proof (proj1 (setIsLoading_spec false ix1)) as H2.
  destruct (setIsLoading false ix1) as [ix2 tr2].
  match goal with
  | |- context [setNetworkError localeCompare ?k ?v ?x] =>
      pose proof (setNetworkError_spec localeCompare k v x) as H3;
        destruct (setNetworkError localeCompare k v x) as [ix3 tr3]
  end.
  simpl in *. subst ix3. simpl. congruence.
Qed.

End Reconciliation.

(** * Further properties: listener bookkeeping *)

Section ListenerCounts.

Import ReactiveIndex.

Lemma count_fold (m : JsMap.t (list Listener)) (n : nat) :
  fold_left (fun count (e : string * list Listener) =>
               count + List.length (snd e)) m n =
  n + list_sum (map (fun e => List.length (snd e)) m).
Proof.
  revert n; induction m as [|e m IH]; intros n; simpl; [lia|].
  rewrite IH. lia.
Qed.

Lemma total_set (m : JsMap.t (list Listener)) (k : string)
    (v : list Listener) :
  list_sum (map (fun e => List.length (snd e)) (JsMap.set m k v))
  + List.length (listenersAt m k) =
  list_sum (map (fun e => List.length (snd e)) m) + List.length v.
Proof.
  unfold listenersAt.
  induction m as [|[k' v'] m IH]; simpl; [lia|].
  destruct (String.eqb k' k); simpl; lia.
Qed.

Lemma listenersAt_set (m : JsMap.t (list Listener)) (k k' : string)
    (v : list Listener) :
  listenersAt (JsMap.set m k v) k' =
  if String.eqb k k' then v else listenersAt m k'.
Proof.
  unfold listenersAt. rewrite get_set. now destruct (String.eqb k k').
Qed.

Lemma addListener_eq (m : JsMap.t (list Listener)) (path : string)
    (l : Listener) :
  addListener m path l = JsMap.set m path (listenersAt m path ++ [l])%list.
Proof.
  unfold addListener, JsMap.has, listenersAt.
  destruct (JsMap.get m path) eqn:E.
  - now rewrite E.
  - rewrite get_set_eq. simpl. apply set_set.
Qed.

Lemma splice1_length (l : Listener) (ls : list Listener) :
  In l ls -> S (List.length (splice1 l ls)) = List.length ls.
Proof.
  induction ls as [|x ls IH]; simpl; [tauto|].
  destruct (Nat.eqb_spec x l) as [->|Hne]; [reflexivity|].
  intros [H|H]; [congruence|]. simpl. now rewrite IH.
Qed.

Lemma existsb_In (l : Listener) (ls : list Listener) :
  existsb (Nat.eqb l) ls = true <-> In l ls.
Proof.
  rewrite existsb_exists. split.
  - intros (x & Hx & Heq). apply Nat.eqb_eq in Heq. now subst.
  - intros H. exists l. split; [assumption | apply Nat.eqb_refl].
Qed.

Lemma removeListener_eq (m : JsMap.t (list Listener)) (path : string)
    (l : Listener) :
  removeListener m path l =
  if existsb (Nat.eqb l) (listenersAt m path)
  then JsMap.set m path (splice1 l (listenersAt m path)) else m.
Proof.
  unfold removeListener, listenersAt.
  now destruct (JsMap.get m path).
Qed.

Lemma total_addListener (m : JsMap.t (list Listener)) (path : string)
    (l : Listener) :
  list_sum (map (fun e => List.length (snd e)) (addListener m path l)) =
  S (list_sum (map (fun e => List.length (snd e)) m)).
Proof.
  rewrite addListener_eq.
  pose proof (total_set m path (listenersAt m path ++ [l])%list) as H.
  rewrite length_app in H. simpl in H. lia.
Qed.

Lemma total_removeListener (m : JsMap.t (list Listener)) (path : string)
    (l : Listener) :
  In l (listenersAt m path) ->
  S (list_sum (map (fun e => List.length (snd e)) (removeListener m path l)))
  = list_sum (map (fun e => List.length (snd e)) m).
Proof.
  intros Hin. rewrite removeListener_eq.
  rewrite (proj2 (existsb_In l _) Hin).
  pose proof (total_set m path (splice1 l (listenersAt m path))) as H.
  pose proof (splice1_length l _ Hin). lia.
Qed.

Lemma with_childrenListeners_same (ix : t) :
  with_childrenListeners (childrenListeners ix) ix = ix.
Proof. now destruct ix. Qed.

Lemma with_metadataListeners_same (ix : t) :
  with_metadataListeners (metadataListeners ix) ix = ix.
Proof. now destruct ix. Qed.

(** X10. Registering a listener raises the listener count by one; removing
    a listener that is registered under the path lowers it by one;
    removing one that is not registered there changes nothing at all.
    The counts are the ones [getNumMetadataListeners] and
    [getNumChildrenListeners] report for leak detection. *)
Theorem listener_counts (ix : t) (path : string) (l : Listener) :
  getNumChildrenListeners (addChildrenListener path l ix) =
    S (getNumChildrenListeners ix) /\
  getNumMetadataListeners (addMetadataListener path l ix) =
    S (getNumMetadataListeners ix) /\
  (In l (listenersAt (childrenListeners ix) path) ->
   S (getNumChildrenListeners (removeChildrenListener path l ix)) =
     getNumChildrenListeners ix) /\
  (In l (listenersAt (metadataListeners ix) path) ->
   S (getNumMetadataListeners (removeMetadataListener path l ix)) =
     getNumMetadataListeners ix) /\
  (~ In l (listenersAt (childrenListeners ix) path) ->
   removeChildrenListener path l ix = ix) /\
  (~ In l (listenersAt (metadataListeners ix) path) ->
   removeMetadataListener path l ix = ix).
Proof.
  unfold getNumChildrenListeners, getNumMetadataListeners,
    addChildrenListener, addMetadataListener, removeChildrenListener,
    removeMetadataListener.
  simpl. rewrite !count_fold. simpl.
  split; [|split; [|split; [|split; [|split]]]].
  - apply total_addListener.
  - apply total_addListener.
  - intros H. now apply total_removeListener.
  - intros H. now apply total_removeListener.
  - intros H. rewrite removeListener_eq.
    destruct (existsb (Nat.eqb l) _) eqn:E.
    + apply existsb_In in E. contradiction.
    + apply with_childrenListeners_same.
  - intros H. rewrite removeListener_eq.
    destruct (existsb (Nat.eqb l) _) eqn:E.
    + apply existsb_In in E. contradiction.
    + apply with_metadataListeners_same.
Qed.

Lemma numChildrenListeners_eq (ix : t) :
  getNumChildrenListeners ix =
  list_sum (map (fun e => List.length (snd e)) (childrenListeners ix)).
Proof. unfold getNumChildrenListeners. now rewrite count_fold. Qed.

Lemma numMetadataListeners_eq (ix : t) :
  getNumMetadataListeners ix =
  list_sum (map (fun e => List.length (snd e)) (metadataListeners ix)).
Proof. unfold getNumMetadataListeners. now rewrite count_fold. Qed.

Lemma listenersAt_addListener (m : JsMap.t (list Listener))
    (path k : string) (l : Listener) :
  listenersAt (addListener m path l) k =
  if String.eqb path k then (listenersAt m path ++ [l])%list
  else listenersAt m k.
Proof. rewrite addListener_eq. apply listenersAt_set. Qed.

(** X11. Re-pointing does not leak listeners.  A cursor that is registered
    under its path leaves both listener counts of its index unchanged
    when [setPath] moves it; [setIndex] takes one listener of each kind
    from the old index and gives one to the new. *)
Theorem repointing_keeps_listener_counts (c : ReactiveCursor.t)
    (h : ReactiveCursor.Heap) :
  let ix := h (ReactiveCursor.index c) in
  In (ReactiveCursor.self c)
     (listenersAt (metadataListeners ix) (ReactiveCursor.path c)) ->
  In (ReactiveCursor.self c)
     (listenersAt (childrenListeners ix) (ReactiveCursor.path c)) ->
  (forall newPath,
     let h' := snd (fst (ReactiveCursor.setPath newPath c h)) in
     getNumMetadataListeners (h' (ReactiveCursor.index c)) =
       getNumMetadataListeners ix /\
     getNumChildrenListeners (h' (ReactiveCursor.index c)) =
       getNumChildrenListeners ix) /\
  (forall newIndex,
     newIndex <> ReactiveCursor.index c ->
     let h' := snd (fst (ReactiveCursor.setIndex newIndex c h)) in
     S (getNumMetadataListeners (h' (ReactiveCursor.index c))) =
       getNumMetadataListeners ix /\
     S (getNumChildrenListeners (h' (ReactiveCursor.index c))) =
       getNumChildrenListeners ix /\
     getNumMetadataListeners (h' newIndex) =
       S (getNumMetadataListeners (h newIndex)) /\
     getNumChildrenListeners (h' newIndex) =
       S (getNumChildrenListeners (h newIndex))).
Proof.
  cbv zeta. intros Hm Hc. split.
  - intros newPath.
    destruct (string_dec newPath (ReactiveCursor.path c)) as [->|Hne].
    + rewrite (proj1 (repoint_noop c h)). simpl. auto.
    + destruct (@setPath_protocol newPath c h Hne) as (_ & _ & _ & _ & Hh & _).
      cbv zeta in Hh. rewrite Hh.
      rewrite !numMetadataListeners_eq, !numChildrenListeners_eq. simpl.
      rewrite !total_addListener.
      split; apply total_removeListener; assumption.
  - intros newIndex Hne.
    destruct (@setIndex_protocol newIndex c h Hne) as (_ & _ & _ & _ & Hold & Hnew & _).
    cbv zeta in Hold, Hnew. rewrite Hold, Hnew.
    rewrite !numMetadataListeners_eq, !numChildrenListeners_eq. simpl.
    rewrite !total_addListener.
    repeat split; try apply total_removeListener; assumption.
Qed.

End ListenerCounts.

(** * Further properties: a cursor follows its index *)

Section CursorSync.

Import ReactiveIndex.

Lemma In_set_wf (V : Type) (m : JsMap.t V) (k k' : string) (v v' : V) :
  JsMap.wf m -> In (k', v') (JsMap.set m k v) ->
  (k' = k /\ v' = v) \/ (k' <> k /\ In (k', v') m).
Proof.
  intros Hwf Hin.
  destruct (string_dec k' k) as [->|Hne].
  - left. split; [reflexivity|].
    apply In_get_Some in Hin; [|now apply wf_set].
    rewrite get_set_eq in Hin. congruence.
  - right. split; [assumption|].
    apply In_set in Hin as [[= -> ->]|Hin]; [congruence | assumption].
Qed.

Lemma keys_get_Some (V : Type) (m : JsMap.t V) (k : string) :
  In k (JsMap.keys m) -> exists v, JsMap.get m k = Some v.
Proof.
  intros Hin. destruct (JsMap.get m k) as [v|] eqn:E; [eauto|].
  apply get_None_keys in E. contradiction.
Qed.

Lemma get_Some_keys (V : Type) (m : JsMap.t V) (k : string) (v : V) :
  JsMap.get m k = Some v -> In k (JsMap.keys m).
Proof.
  intros H. apply get_Some_In in H.
  change k with (fst (k, v)). now apply in_map.
Qed.

Lemma count_splice1 (l : Listener) (ls : list Listener) :
  In l ls -> S (count_occ Nat.eq_dec (splice1 l ls) l) =
             count_occ Nat.eq_dec ls l.
Proof.
  induction ls as [|x ls IH]; simpl; [tauto|].
  destruct (Nat.eqb_spec x l) as [->|Hne].
  - intros _. destruct (Nat.eq_dec l l); [reflexivity | congruence].
  - intros [H|H]; [congruence|]. simpl.
    destruct (Nat.eq_dec x l); [congruence | auto].
Qed.

Lemma registered_listenersAt (l : Listener) (path : string)
    (m : JsMap.t (list Listener)) :
  JsMap.wf m -> registeredOnlyAt l path m ->
  count_occ Nat.eq_dec (listenersAt m path) l = 1.
Proof.
  intros Hwf [Hkey Hcount].
  destruct (keys_get_Some _ _ Hkey) as [ls Hget].
  unfold listenersAt. rewrite Hget.
  rewrite (Hcount path ls (get_Some_In _ _ Hget)).
  now rewrite String.eqb_refl.
Qed.

Lemma unregistered_listenersAt (l : Listener) (path : string)
    (m : JsMap.t (list Listener)) :
  unregistered l m -> ~ In l (listenersAt m path).
Proof.
  intros Hun. unfold listenersAt.
  destruct (JsMap.get m path) as [ls|] eqn:E; [|tauto].
  apply (Hun path ls). now apply get_Some_In.
Qed.

Lemma removeListener_unregisters (l : Listener) (path : string)
    (m : JsMap.t (list Listener)) :
  JsMap.wf m -> registeredOnlyAt l path m ->
  unregistered l (removeListener m path l).
Proof.
  intros Hwf Hreg.
  pose proof (registered_listenersAt Hwf Hreg) as Hone.
  assert (Hin : In l (listenersAt m path)).
  { apply (count_occ_In Nat.eq_dec). lia. }
  rewrite removeListener_eq, (proj2 (existsb_In l _) Hin).
  intros k ls Hk.
  apply (@In_set_wf _ _ _ _ _ _ Hwf) in Hk as [[-> ->]|[Hne Hk]].
  - apply (count_occ_not_In Nat.eq_dec).
    pose proof (count_splice1 l _ Hin). lia.
  - apply (count_occ_not_In Nat.eq_dec).
    rewrite (proj2 Hreg k ls Hk).
    apply String.eqb_neq in Hne. now rewrite Hne.
Qed.

Lemma addListener_registers (l : Listener) (path : string)
    (m : JsMap.t (list Listener)) :
  JsMap.wf m -> unregistered l m ->
  registeredOnlyAt l path (addListener m path l).
Proof.
  intros Hwf Hun. rewrite addListener_eq. split.
  - eapply get_Some_keys. apply get_set_eq.
  - intros k ls Hk.
    apply (@In_set_wf _ _ _ _ _ _ Hwf) in Hk as [[-> ->]|[Hne Hk]].
    + pose proof (unregistered_listenersAt path Hun) as Hn.
      apply (count_occ_not_In Nat.eq_dec) in Hn.
      unfold Listener in *.
      rewrite String.eqb_refl, count_occ_app, Hn. cbn [count_occ].
      destruct (Nat.eq_dec l l); [reflexivity | congruence].
    + apply String.eqb_neq in Hne. rewrite Hne.
      apply (count_occ_not_In Nat.eq_dec). now apply (Hun k ls).
Qed.

Lemma inSync_derived (c : ReactiveCursor.t) (ix ix' : t) :
  files ix' = files ix ->
  ReactiveCursor.metadata c = getMetadata ix (ReactiveCursor.path c) ->
  ReactiveCursor.children c = getChildren ix (ReactiveCursor.path c) ->
  inSync c ix'.
Proof.
  intros Hf Hm Hc. split.
  - rewrite Hm. unfold getMetadata. now rewrite Hf.
  - rewrite Hc, (getChildren_files ix ix') by congruence. intros k; reflexivity.
Qed.

Lemma setPath_self (newPath : string) (c : ReactiveCursor.t)
    (h : ReactiveCursor.Heap) :
  ReactiveCursor.self (fst (fst (ReactiveCursor.setPath newPath c h))) =
  ReactiveCursor.self c.
Proof.
  unfold ReactiveCursor.setPath.
  destruct (String.eqb newPath (ReactiveCursor.path c)); [reflexivity|].
  now destruct (ReactiveCursor.jsonFiles_pathChanged _).
Qed.

Lemma setIndex_self (newIndex : nat) (c : ReactiveCursor.t)
    (h : ReactiveCursor.Heap) :
  ReactiveCursor.self (fst (fst (ReactiveCursor.setIndex newIndex c h))) =
  ReactiveCursor.self c.
Proof.
  unfold ReactiveCursor.setIndex.
  now destruct (Nat.eqb newIndex (ReactiveCursor.index c)).
Qed.

(** X12. A cursor is registered exactly once, under its current path.  The
    constructor establishes this on an index that does not know the
    cursor, and shows what the index holds; [setPath] and [setIndex]
    move the registration along and re-derive the view, leaving no
    registration behind. *)
Theorem cursor_registration_follows_the_path :
  (forall self_ ref path0 (h : ReactiveCursor.Heap),
     JsMap.wf (metadataListeners (h ref)) ->
     JsMap.wf (childrenListeners (h ref)) ->
     unregistered self_ (metadataListeners (h ref)) ->
     unregistered self_ (childrenListeners (h ref)) ->
     let c := fst (ReactiveCursor.create self_ ref path0 h) in
     let h' := snd (ReactiveCursor.create self_ ref path0 h) in
     attached c (h' ref) /\ inSync c (h' ref)) /\
  (forall c (h : ReactiveCursor.Heap) newPath,
     let ix := h (ReactiveCursor.index c) in
     JsMap.wf (metadataListeners ix) ->
     JsMap.wf (childrenListeners ix) ->
     attached c ix ->
     newPath <> ReactiveCursor.path c ->
     let c' := fst (fst (ReactiveCursor.setPath newPath c h)) in
     let h' := snd (fst (ReactiveCursor.setPath newPath c h)) in
     attached c' (h' (ReactiveCursor.index c')) /\
     inSync c' (h' (ReactiveCursor.index c'))) /\
  (forall c (h : ReactiveCursor.Heap) newIndex,
     let old := h (ReactiveCursor.index c) in
     JsMap.wf (metadataListeners old) ->
     JsMap.wf (childrenListeners old) ->
     JsMap.wf (metadataListeners (h newIndex)) ->
     JsMap.wf (childrenListeners (h newIndex)) ->
     attached c old ->
     unregistered (ReactiveCursor.self c) (metadataListeners (h newIndex)) ->
     unregistered (ReactiveCursor.self c) (childrenListeners (h newIndex)) ->
     newIndex <> ReactiveCursor.index c ->
     let c' := fst (fst (ReactiveCursor.setIndex newIndex c h)) in
     let h' := snd (fst (ReactiveCursor.setIndex newIndex c h)) in
     attached c' (h' newIndex) /\ inSync c' (h' newIndex) /\
     unregistered (ReactiveCursor.self c)
       (metadataListeners (h' (ReactiveCursor.index c))) /\
     unregistered (ReactiveCursor.self c)
       (childrenListeners (h' (ReactiveCursor.index c)))).
Proof.
  split; [|split].
  - intros self_ ref path0 h Hwm Hwc Hum Huc. cbv zeta.
    unfold ReactiveCursor.create. simpl. rewrite store_same.
    split.
    + split; simpl; now apply addListener_registers.
    + apply inSync_derived with (ix := h ref); reflexivity.
  - intros c h newPath. cbv zeta. intros Hwm Hwc [Hm Hc] Hne.
    destruct (@setPath_protocol newPath c h Hne)
      as (Hp & Hi & Hmeta & Hch & Hh & _).
    cbv zeta in Hp, Hi, Hmeta, Hch, Hh. rewrite Hi, Hh. split.
    + split; rewrite Hp, setPath_self; simpl.
      * apply addListener_registers; [now apply removeListener_wf|].
        now apply removeListener_unregisters.
      * apply addListener_registers; [now apply removeListener_wf|].
        now apply removeListener_unregisters.
    + apply inSync_derived with (ix := h (ReactiveCursor.index c));
        [reflexivity | now rewrite Hp | now rewrite Hp].
  - intros c h newIndex. cbv zeta.
    intros Hwm Hwc Hwm' Hwc' [Hm Hc] Hum Huc Hne.
    destruct (@setIndex_protocol newIndex c h Hne)
      as (Hi & Hp & Hmeta & Hch & Hold & Hnew & _).
    cbv zeta in Hi, Hp, Hmeta, Hch, Hold, Hnew. rewrite Hold, Hnew.
    split; [|split; [|split]].
    + split; rewrite Hp, setIndex_self; simpl;
        now apply addListener_registers.
    + apply inSync_derived with (ix := h newIndex);
        [reflexivity | now rewrite Hp | now rewrite Hp].
    + simpl. now apply removeListener_unregisters.
    + simpl. now apply removeListener_unregisters.
Qed.

(** *** Receiving the calls of the index *)

Lemma receiveAll_app (t1 t2 : Trace) (c : ReactiveCursor.t) :
  ReactiveCursor.receiveAll (t1 ++ t2)%list c =
  ReactiveCursor.receiveAll t2 (ReactiveCursor.receiveAll t1 c).
Proof. unfold ReactiveCursor.receiveAll. apply fold_left_app. Qed.

Lemma receiveAll_metadata_calls (v : option ReactiveFileMetadata)
    (ls : list Listener) (c : ReactiveCursor.t) :
  ReactiveCursor.receiveAll (map (fun l => MetadataListenerCall l v) ls) c =
  if in_dec Nat.eq_dec (ReactiveCursor.self c) ls
  then ReactiveCursor._metadataListener v c else c.
Proof.
  revert c; induction ls as [|x ls IH]; intros c; [reflexivity|].
  change (ReactiveCursor.receiveAll
            (map (fun l => MetadataListenerCall l v) (x :: ls)) c)
    with (ReactiveCursor.receiveAll
            (map (fun l => MetadataListenerCall l v) ls)
            (ReactiveCursor.receive (MetadataListenerCall x v) c)).
  rewrite IH. simpl ReactiveCursor.receive.
  destruct (Nat.eqb_spec x (ReactiveCursor.self c)) as [->|Hne]; simpl.
  - destruct (Nat.eq_dec _ _); [|congruence].
    now destruct (in_dec _ _ _).
  - destruct (Nat.eq_dec x _); [congruence|].
    now destruct (in_dec _ _ _).
Qed.

Lemma receiveAll_children_calls (ch : JsMap.t ReactiveFileMetadata)
    (ls : list Listener) (c : ReactiveCursor.t) :
  ReactiveCursor.receiveAll (map (fun l => ChildrenListenerCall l ch) ls) c =
  if in_dec Nat.eq_dec (ReactiveCursor.self c) ls
  then ReactiveCursor._onChildrenListener ch c else c.
Proof.
  revert c; induction ls as [|x ls IH]; intros c; [reflexivity|].
  change (ReactiveCursor.receiveAll
            (map (fun l => ChildrenListenerCall l ch) (x :: ls)) c)
    with (ReactiveCursor.receiveAll
            (map (fun l => ChildrenListenerCall l ch) ls)
            (ReactiveCursor.receive (ChildrenListenerCall x ch) c)).
  rewrite IH. simpl ReactiveCursor.receive.
  destruct (Nat.eqb_spec x (ReactiveCursor.self c)) as [->|Hne]; simpl.
  - destruct (Nat.eq_dec _ _); [|congruence].
    now destruct (in_dec _ _ _).
  - destruct (Nat.eq_dec x _); [congruence|].
    now destruct (in_dec _ _ _).
Qed.

Lemma notifications_entry (ix1 : t) (k : string) (ls : list Listener) :
  notifications ix1 (k, ls) =
  if childrenChanged (childrenLastNotified ix1) ix1 k
  then map (fun l => ChildrenListenerCall l (getChildren ix1 k)) ls
  else [].
Proof. reflexivity. Qed.

(** Of all the calls of a diffing pass, a cursor registered under one
    path only receives the one for that path, if it is made. *)
Lemma receiveAll_notifications (ix1 : t) (path : string)
    (registry : JsMap.t (list Listener)) (c : ReactiveCursor.t) :
  JsMap.wf registry ->
  (forall k ls, In (k, ls) registry ->
     count_occ Nat.eq_dec ls (ReactiveCursor.self c) =
     if String.eqb k path then 1 else 0) ->
  ReactiveCursor.receiveAll (flat_map (notifications ix1) registry) c =
  if in_dec string_dec path (JsMap.keys registry)
  then if childrenChanged (childrenLastNotified ix1) ix1 path
       then ReactiveCursor._onChildrenListener (getChildren ix1 path) c
       else c
  else c.
Proof.
  unfold JsMap.wf, JsMap.keys.
  revert c; induction registry as [|[k ls] registry IH]; intros c Hnd Hreg;
    [reflexivity|].
  inversion Hnd as [|? ? Hnotin Hnd']; subst.
  simpl flat_map. rewrite receiveAll_app.
  pose proof (Hreg k ls (or_introl eq_refl)) as Hk.
  assert (Hrest : forall c', ReactiveCursor.self c' = ReactiveCursor.self c ->
            forall k0 ls0, In (k0, ls0) registry ->
              count_occ Nat.eq_dec ls0 (ReactiveCursor.self c') =
              if String.eqb k0 path then 1 else 0).
  { intros c' Hs k0 ls0 Hin. rewrite Hs. apply Hreg. now right. }
  rewrite notifications_entry.
  destruct (string_dec k path) as [->|Hne].
  - rewrite String.eqb_refl in Hk.
    assert (Hin : In (ReactiveCursor.self c) ls)
      by (apply (count_occ_In Nat.eq_dec); lia).
    destruct (in_dec string_dec path (map fst ((path, ls) :: registry)))
      as [_|Hn]; [|exfalso; apply Hn; now left].
    destruct (childrenChanged (childrenLastNotified ix1) ix1 path);
      cbv iota.
    + rewrite receiveAll_children_calls.
      destruct (in_dec Nat.eq_dec _ ls); [|contradiction].
      rewrite IH; auto.
      destruct (in_dec string_dec path (map fst registry));
        [contradiction | reflexivity].
    + change (ReactiveCursor.receiveAll [] c) with c. rewrite IH; auto.
      destruct (in_dec string_dec path (map fst registry));
        [contradiction | reflexivity].
  - assert (Hne' : String.eqb k path = false) by now apply String.eqb_neq.
    rewrite Hne' in Hk.
    assert (Hnin : ~ In (ReactiveCursor.self c) ls)
      by (apply (count_occ_not_In Nat.eq_dec); assumption).
    assert (Hsame :
      ReactiveCursor.receiveAll
        (if childrenChanged (childrenLastNotified ix1) ix1 k
         then map (fun l => ChildrenListenerCall l (getChildren ix1 k)) ls
         else []) c = c).
    { destruct (childrenChanged _ _ k); cbv iota; [|reflexivity].
      rewrite receiveAll_children_calls.
      destruct (in_dec Nat.eq_dec _ ls); [contradiction | reflexivity]. }
    rewrite Hsame, IH; auto.
    destruct (in_dec string_dec path (map fst registry)) as [H1|H1];
      destruct (in_dec string_dec path (map fst ((k, ls) :: registry)))
        as [H2|H2]; try reflexivity.
    + exfalso; apply H2; now right.
    + exfalso. destruct H2 as [H2|H2]; [simpl in H2; congruence|contradiction].
Qed.

(** One mutation of the file map, followed by the calls it makes. *)
Lemma sync_after_mutation (c : ReactiveCursor.t) (ix : t)
    (fs' : JsMap.t ReactiveFileMetadata) (k : string)
    (v : option ReactiveFileMetadata) :
  index_wf ix -> attached c ix -> inSync c ix ->
  JsMap.get (childrenLastNotified ix) (ReactiveCursor.path c) <> None ->
  JsMap.wf fs' ->
  JsMap.get fs' k = v ->
  (forall k', k' <> k -> JsMap.get fs' k' = JsMap.get (files ix) k') ->
  let ix1 := with_files fs' ix in
  let tr := (map (fun l => MetadataListenerCall l v)
               (listenersAt (metadataListeners ix) k)
             ++ snd (_updateChildListeners ix1))%list in
  inSync (ReactiveCursor.receiveAll tr c) (fst (_updateChildListeners ix1)).
Proof.
  intros (Hf & Hm & Hc & Hlast) [Hregm Hregc] [Hmeta Hch] Hsnap Hwf'
    Hk Hother.
  cbv zeta. rewrite receiveAll_app, receiveAll_metadata_calls.
  rewrite _updateChildListeners_eq by exact Hc.
  simpl snd. simpl fst.
  change (childrenListeners (with_files fs' ix)) with (childrenListeners ix).
  set (c1 := if in_dec Nat.eq_dec (ReactiveCursor.self c)
                  (listenersAt (metadataListeners ix) k)
             then ReactiveCursor._metadataListener v c else c).
  assert (Hc1 : ReactiveCursor.self c1 = ReactiveCursor.self c /\
                ReactiveCursor.path c1 = ReactiveCursor.path c /\
                ReactiveCursor.children c1 = ReactiveCursor.children c /\
                ReactiveCursor.metadata c1 =
                  JsMap.get fs' (ReactiveCursor.path c)).
  { unfold c1.
    destruct (in_dec Nat.eq_dec _ _) as [Hin|Hnin]; simpl;
      repeat split; auto.
    - destruct (string_dec k (ReactiveCursor.path c)) as [->|Hne];
        [now symmetry|].
      exfalso. unfold listenersAt in Hin.
      destruct (JsMap.get (metadataListeners ix) k) as [ls|] eqn:E;
        [|contradiction].
      pose proof (proj2 Hregm k ls (get_Some_In _ _ E)) as Hcount.
      apply String.eqb_neq in Hne. rewrite Hne in Hcount.
      apply (count_occ_not_In Nat.eq_dec) in Hcount. contradiction.
    - rewrite Hmeta. unfold getMetadata. symmetry. apply Hother.
      intros Heq. apply Hnin. rewrite <- Heq.
      pose proof (registered_listenersAt Hm Hregm) as Hone.
      apply (count_occ_In Nat.eq_dec). unfold Listener in *. lia. }
  destruct Hc1 as (Hs1 & Hp1 & Hch1 & Hm1).
  rewrite receiveAll_notifications with (path := ReactiveCursor.path c);
    [|exact Hc|rewrite Hs1; exact (proj2 Hregc)].
  destruct (in_dec string_dec _ _) as [_|Hnin]; [|destruct (Hnin (proj1 Hregc))].
  change (childrenLastNotified (with_files fs' ix))
    with (childrenLastNotified ix).
  destruct (JsMap.get (childrenLastNotified ix) (ReactiveCursor.path c))
    as [snapshot|] eqn:Es; [|congruence].
  destruct (Hlast _ _ Es) as [_ ->].
  destruct (childrenChanged (childrenLastNotified ix) (with_files fs' ix)
              (ReactiveCursor.path c)) eqn:Echanged.
  - split; simpl.
    + rewrite Hp1. exact Hm1.
    + rewrite Hp1. intros k0. reflexivity.
  - split.
    + rewrite Hm1, Hp1. reflexivity.
    + rewrite Hch1, Hp1.
      apply childrenChanged_iff in Echanged.
      * unfold lastNotifiedOrEmpty in Echanged. rewrite Es in Echanged.
        intros k0. rewrite (Hch k0). apply Echanged.
      * exact Hwf'.
      * unfold lastNotifiedOrEmpty. rewrite Es. now apply getChildren_wf.
Qed.

Lemma receiveAll_identity (tr : Trace) (c : ReactiveCursor.t) :
  ReactiveCursor.self (ReactiveCursor.receiveAll tr c) = ReactiveCursor.self c
  /\ ReactiveCursor.path (ReactiveCursor.receiveAll tr c)
     = ReactiveCursor.path c.
Proof.
  revert c; induction tr as [|e tr IH]; intros c; [auto|].
  change (ReactiveCursor.receiveAll (e :: tr) c)
    with (ReactiveCursor.receiveAll tr (ReactiveCursor.receive e c)).
  destruct (IH (ReactiveCursor.receive e c)) as [-> ->].
  destruct e; simpl; try destruct (Nat.eqb _ _); auto.
Qed.

Lemma snapshot_after_pass (ix : t) (path : string) :
  JsMap.wf (childrenListeners ix) ->
  In path (JsMap.keys (childrenListeners ix)) ->
  JsMap.get (childrenLastNotified (fst (_updateChildListeners ix))) path
    <> None.
Proof.
  intros Hwf Hin. rewrite _updateChildListeners_eq by assumption.
  simpl. rewrite refreshed_get.
  destruct (in_dec string_dec path (JsMap.keys (childrenListeners ix)));
    [discriminate | contradiction].
Qed.

Lemma follows_mutation (c : ReactiveCursor.t) (ix : t)
    (fs' : JsMap.t ReactiveFileMetadata) (k : string)
    (v : option ReactiveFileMetadata) :
  index_wf ix -> attached c ix -> inSync c ix ->
  JsMap.get (childrenLastNotified ix) (ReactiveCursor.path c) <> None ->
  JsMap.wf fs' ->
  JsMap.get fs' k = v ->
  (forall k', k' <> k -> JsMap.get fs' k' = JsMap.get (files ix) k') ->
  metadataListeners (fst (_updateChildListeners (with_files fs' ix))) =
    metadataListeners ix /\
  childrenListeners (fst (_updateChildListeners (with_files fs' ix))) =
    childrenListeners ix /\
  inSync
    (ReactiveCursor.receiveAll
       (map (fun l => MetadataListenerCall l v)
          (listenersAt (metadataListeners ix) k)
        ++ snd (_updateChildListeners (with_files fs' ix)))%list c)
    (fst (_updateChildListeners (with_files fs' ix))) /\
  JsMap.get
    (childrenLastNotified (fst (_updateChildListeners (with_files fs' ix))))
    (ReactiveCursor.path c) <> None.
Proof.
  intros Hwf Hatt Hsync Hsnap Hwf' Hk Hother.
  destruct (_updateChildListeners_registries (with_files fs' ix))
    as [Em Ec].
  split; [exact Em|]. split; [exact Ec|]. split.
  - now apply sync_after_mutation.
  - apply snapshot_after_pass.
    + apply Hwf.
    + apply Hatt.
Qed.

(** X13. A cursor follows its index.  When the cursor is registered under
    its path, shows what the index holds, and the index has a children
    snapshot for that path, then after any update or delete message,
    once the cursor has received the calls the index made, it again
    shows what the index holds for its path, it is still registered,
    and the snapshot is still there: the property carries over to any
    sequence of messages. *)
Theorem cursor_follows_socket_messages (c : ReactiveCursor.t) (ix : t)
    (payload : Payload) :
  index_wf ix -> attached c ix -> inSync c ix ->
  JsMap.get (childrenLastNotified ix) (ReactiveCursor.path c) <> None ->
  let ix' := fst (onSocketMessage payload ix) in
  let c' := ReactiveCursor.receiveAll (snd (onSocketMessage payload ix)) c in
  inSync c' ix' /\ attached c' ix' /\ index_wf ix' /\
  JsMap.get (childrenLastNotified ix') (ReactiveCursor.path c') <> None.
Proof.
  intros Hwf Hatt Hsync Hsnap. cbv zeta.
  pose proof (onSocketMessage_wf payload Hwf) as Hwf'.
  destruct (receiveAll_identity (snd (onSocketMessage payload ix)) c)
    as [Hself Hpath].
  assert (Hframe :
    metadataListeners (fst (onSocketMessage payload ix)) =
      metadataListeners ix /\
    childrenListeners (fst (onSocketMessage payload ix)) =
      childrenListeners ix /\
    inSync (ReactiveCursor.receiveAll (snd (onSocketMessage payload ix)) c)
      (fst (onSocketMessage payload ix)) /\
    JsMap.get (childrenLastNotified (fst (onSocketMessage payload ix)))
      (ReactiveCursor.path c) <> None).
  { destruct payload as [globalKey millis bytes|globalKey].
    - change (onSocketMessage (UpdatePayload globalKey millis bytes) ix)
        with (_updateFileInIndex
                {| key := JsString.substringFrom
                            (String.length (globalPrefix ix)) globalKey;
                   lastModified := millis; size := bytes |} ix).
      set (file := {| key := JsString.substringFrom
                               (String.length (globalPrefix ix)) globalKey;
                      lastModified := millis; size := bytes |}).
      destruct (accepts (files ix) file) eqn:Eacc.
      + rewrite _updateFileInIndex_accepted by assumption.
        cbv zeta. cbn [fst snd].
        apply follows_mutation; auto.
        * apply wf_set. apply Hwf.
        * apply get_set_eq.
        * intros k' Hne. apply get_set_ne. congruence.
      + rewrite _updateFileInIndex_rejected by assumption.
        cbn [fst snd]. auto.
    - change (onSocketMessage (DeletePayload globalKey) ix)
        with (_deleteFileInIndex
                (JsString.substringFrom (String.length (globalPrefix ix))
                   globalKey) ix).
      rewrite _deleteFileInIndex_eq. cbv zeta. cbn [fst snd].
      apply follows_mutation; auto.
      + apply wf_delete. apply Hwf.
      + apply get_delete_eq. apply Hwf.
      + intros k' Hne. apply get_delete_ne. congruence. }
  destruct Hframe as (Em & Ec & Hs & Hn).
  split; [exact Hs|]. split; [|split; [exact Hwf'|]].
  - unfold attached. rewrite Hself, Hpath, Em, Ec. exact Hatt.
  - rewrite Hpath. exact Hn.
Qed.

End CursorSync.

(** * Further properties: the change a new cursor misses *)

Section MissedEmptying.

Import ReactiveIndex.

Lemma children_after_mutation (c : ReactiveCursor.t) (ix : t)
    (fs' : JsMap.t ReactiveFileMetadata) (k : string)
    (v : option ReactiveFileMetadata) :
  JsMap.wf (childrenListeners ix) ->
  registeredOnlyAt (ReactiveCursor.self c) (ReactiveCursor.path c)
    (childrenListeners ix) ->
  ReactiveCursor.children
    (ReactiveCursor.receiveAll
       (map (fun l => MetadataListenerCall l v)
          (listenersAt (metadataListeners ix) k)
        ++ snd (_updateChildListeners (with_files fs' ix)))%list c) =
  if childrenChanged (childrenLastNotified ix) (with_files fs' ix)
       (ReactiveCursor.path c)
  then getChildren (with_files fs' ix) (ReactiveCursor.path c)
  else ReactiveCursor.children c.
Proof.
  intros Hc [Hkey Hcount].
  rewrite receiveAll_app, receiveAll_metadata_calls.
  rewrite _updateChildListeners_eq by exact Hc.
  cbn [fst snd].
  change (childrenListeners (with_files fs' ix)) with (childrenListeners ix).
  change (childrenLastNotified (with_files fs' ix))
    with (childrenLastNotified ix).
  set (c1 := if in_dec Nat.eq_dec (ReactiveCursor.self c)
                  (listenersAt (metadataListeners ix) k)
             then ReactiveCursor._metadataListener v c else c).
  assert (Hc1 : ReactiveCursor.self c1 = ReactiveCursor.self c /\
                ReactiveCursor.children c1 = ReactiveCursor.children c).
  { unfold c1. now destruct (in_dec Nat.eq_dec _ _). }
  destruct Hc1 as [Hs1 Hch1].
  rewrite receiveAll_notifications with (path := ReactiveCursor.path c);
    [|exact Hc|rewrite Hs1; exact Hcount].
  destruct (in_dec string_dec _ _) as [_|Hnin]; [|contradiction].
  now destruct (childrenChanged _ _ _).
Qed.

(** X14. A folder that empties before the first diffing pass goes unseen.
    The index compares the children of a registered path with the
    snapshot of the last pass, and takes a missing snapshot to be the
    empty map.  A cursor registered since the last pass has no snapshot;
    when a message then leaves its path without children, the empty map
    equals the assumed one, the children listener is not called, and
    the cursor keeps showing the children it read when it was
    created. *)
Theorem emptying_before_first_pass_is_missed (c : ReactiveCursor.t)
    (ix : t) (payload : Payload) :
  JsMap.wf (childrenListeners ix) ->
  registeredOnlyAt (ReactiveCursor.self c) (ReactiveCursor.path c)
    (childrenListeners ix) ->
  JsMap.get (childrenLastNotified ix) (ReactiveCursor.path c) = None ->
  getChildren (fst (onSocketMessage payload ix)) (ReactiveCursor.path c)
    = JsMap.empty ->
  ReactiveCursor.children
    (ReactiveCursor.receiveAll (snd (onSocketMessage payload ix)) c)
  = ReactiveCursor.children c /\
  childrenCalls (ReactiveCursor.self c) (snd (onSocketMessage payload ix))
  = 0.
Proof.
  intros Hc Hreg Hnone.
  assert (Hquiet : forall fs',
    getChildren (with_files fs' ix) (ReactiveCursor.path c) = JsMap.empty ->
    childrenChanged (childrenLastNotified ix) (with_files fs' ix)
      (ReactiveCursor.path c) = false).
  { intros fs' He. unfold childrenChanged, lastNotifiedOrEmpty.
    now rewrite Hnone, He. }
  assert (Hcalls : forall fs' k v,
    getChildren (with_files fs' ix) (ReactiveCursor.path c) = JsMap.empty ->
    childrenCalls (ReactiveCursor.self c)
      (map (fun l => MetadataListenerCall l v)
         (listenersAt (metadataListeners ix) k)
       ++ snd (_updateChildListeners (with_files fs' ix)))%list = 0).
  { intros fs' k v He.
    rewrite childrenCalls_app, childrenCalls_metadata.
    rewrite _updateChildListeners_eq by exact Hc. cbn [snd].
    change (childrenListeners (with_files fs' ix))
      with (childrenListeners ix).
    rewrite (@childrenCalls_notifications (with_files fs' ix)
               (ReactiveCursor.self c) (ReactiveCursor.path c)
               (childrenListeners ix) Hc (proj2 Hreg)).
    change (childrenLastNotified (with_files fs' ix))
      with (childrenLastNotified ix).
    rewrite (Hquiet fs' He). now destruct (in_dec string_dec _ _). }
  destruct payload as [globalKey millis bytes|globalKey].
  - change (onSocketMessage (UpdatePayload globalKey millis bytes) ix)
      with (_updateFileInIndex
              {| key := JsString.substringFrom
                          (String.length (globalPrefix ix)) globalKey;
                 lastModified := millis; size := bytes |} ix).
    set (file := {| key := JsString.substringFrom
                             (String.length (globalPrefix ix)) globalKey;
                    lastModified := millis; size := bytes |}).
    destruct (accepts (files ix) file) eqn:Eacc.
    + rewrite _updateFileInIndex_accepted by assumption.
      cbv zeta. cbn [fst snd]. intros He.
      rewrite (getChildren_files _
                 (with_files (JsMap.set (files ix) (key file) file) ix))
        in He by apply _updateChildListeners_files.
      split.
      * rewrite children_after_mutation by assumption.
        now rewrite (Hquiet _ He).
      * now apply Hcalls.
    + rewrite _updateFileInIndex_rejected by assumption.
      cbn [fst snd]. intros _. split; reflexivity.
  - change (onSocketMessage (DeletePayload globalKey) ix)
      with (_deleteFileInIndex
              (JsString.substringFrom (String.length (globalPrefix ix))
                 globalKey) ix).
    rewrite _deleteFileInIndex_eq. cbv zeta. cbn [fst snd]. intros He.
    rewrite (getChildren_files _
               (with_files
                  (JsMap.delete (files ix)
                     (JsString.substringFrom
                        (String.length (globalPrefix ix)) globalKey)) ix))
      in He by apply _updateChildListeners_files.
    split.
    + rewrite children_after_mutation by assumption.
      now rewrite (Hquiet _ He).
    + now apply Hcalls.
Qed.

End MissedEmptying.

(** * Further properties: reading and deleting below a cursor *)

Section BelowTheCursor.

Lemma charAt0IsSlash_iff (r : string) :
  ReactiveCursor.charAt0IsSlash r = true <-> exists r', r = "/" ++ r'.
Proof.
  destruct r as [|a r]; simpl.
  - split; [discriminate | intros [r' H]; discriminate].
  - split.
    + intros H. apply Ascii.eqb_eq in H. subst a. now exists r.
    + intros [r' [= -> _]]. reflexivity.
Qed.

Lemma length_zero_iff (r : string) :
  (String.length r =? 0)%nat = true <-> r = "".
Proof. destruct r; simpl; split; congruence. Qed.

(** The test of the inner loop of [hasChildren] on one existing key. *)
Lemma matchesChild_test (childName existing : string) :
  matchesChild childName existing <->
  JsString.startsWith existing childName = true /\
  (String.length
     (JsString.substringFrom (String.length childName) existing) =? 0)%nat
  || ReactiveCursor.charAt0IsSlash
       (JsString.substringFrom (String.length childName) existing)
  || JsString.endsWithChar childName slash = true.
Proof.
  unfold matchesChild. split.
  - intros (r & -> & H). rewrite startsWith_append, substringFrom_append.
    split; [reflexivity|].
    rewrite !orb_true_iff, length_zero_iff, charAt0IsSlash_iff. tauto.
  - intros [Hs H]. apply startsWith_inv in Hs.
    exists (JsString.substringFrom (String.length childName) existing).
    split; [exact Hs|].
    rewrite !orb_true_iff, length_zero_iff, charAt0IsSlash_iff in H. tauto.
Qed.

Lemma hasChildren_foundMatch_iff (existingChildNames : list string)
    (childName : string) :
  ReactiveCursor.hasChildren_foundMatch existingChildNames childName = true
  <-> exists existing,
        In existing existingChildNames /\ matchesChild childName existing.
Proof.
  induction existingChildNames as [|e rest IH]; simpl.
  - split; [discriminate | intros (x & [] & _)].
  - pose proof (matchesChild_test childName e) as Ht.
    destruct (JsString.startsWith e childName).
    + destruct (_ || _ || _).
      * split; [|reflexivity]. intros _. exists e. split; [now left|].
        apply Ht. auto.
      * rewrite IH. split.
        -- intros (x & Hin & Hm). exists x. auto.
        -- intros (x & [->|Hin] & Hm); [|eauto].
           apply Ht in Hm. destruct Hm; discriminate.
    + rewrite IH. split.
      * intros (x & Hin & Hm). exists x. auto.
      * intros (x & [->|Hin] & Hm); [|eauto].
        apply Ht in Hm. destruct Hm; discriminate.
Qed.

Lemma hasChildren_loop_iff (existingChildNames childNames : list string) :
  ReactiveCursor.hasChildren_loop existingChildNames childNames = true <->
  forall childName, In childName childNames ->
    ReactiveCursor.hasChildren_foundMatch existingChildNames childName = true.
Proof.
  induction childNames as [|n rest IH]; simpl.
  - split; [intros _ ? [] | reflexivity].
  - destruct (ReactiveCursor.hasChildren_foundMatch existingChildNames n)
      eqn:E.
    + rewrite IH. split.
      * intros H x [<-|Hin]; auto.
      * intros H x Hin. apply H. now right.
    + split; [discriminate|]. intros H.
      rewrite (H n (or_introl eq_refl)) in E. discriminate.
Qed.

(** X15. What [hasChildren] decides.  Without names it tells whether the
    cursor has any child.  With names it holds exactly when every name
    has an existing child key that equals it, or continues it at a
    separator, or continues it anywhere if the name ends with a
    separator; so a folder that exists only as a prefix of deeper keys
    counts as present, and a name that is a proper prefix of a longer
    sibling name alone does not. *)
Theorem hasChildren_decides (c : ReactiveCursor.t) :
  (ReactiveCursor.hasChildren c None = true <->
   ReactiveCursor.children c <> []) /\
  (forall childNames,
     ReactiveCursor.hasChildren c (Some childNames) = true <->
     forall childName, In childName childNames ->
       exists existing,
         In existing (JsMap.keys (ReactiveCursor.children c)) /\
         matchesChild childName existing) /\
  (forall folder rest,
     In (folder ++ "/" ++ rest) (JsMap.keys (ReactiveCursor.children c)) ->
     ReactiveCursor.hasChildren c (Some [folder]) = true) /\
  (forall a name,
     a <> slash ->
     JsString.endsWithChar name slash = false ->
     (forall existing,
        In existing (JsMap.keys (ReactiveCursor.children c)) ->
        exists rest, existing = name ++ String a rest) ->
     ReactiveCursor.hasChildren c (Some [name]) = false).
Proof.
  assert (Hnames : forall childNames,
     ReactiveCursor.hasChildren c (Some childNames) = true <->
     forall childName, In childName childNames ->
       exists existing,
         In existing (JsMap.keys (ReactiveCursor.children c)) /\
         matchesChild childName existing).
  { intros childNames. unfold ReactiveCursor.hasChildren.
    rewrite hasChildren_loop_iff. split.
    - intros H n Hin. apply hasChildren_foundMatch_iff. auto.
    - intros H n Hin. apply hasChildren_foundMatch_iff. auto. }
  split; [|split; [exact Hnames|split]].
  - unfold ReactiveCursor.hasChildren, JsMap.size.
    destruct (ReactiveCursor.children c) as [|e l].
    + split; [discriminate | intros H; now destruct H].
    + split; [discriminate | reflexivity].
  - intros folder rest Hin. apply Hnames.
    intros n [<-|[]]. exists (folder ++ "/" ++ rest). split; [exact Hin|].
    exists ("/" ++ rest). split; [reflexivity|]. right; left. now exists rest.
  - intros a name Ha Hends Hall.
    destruct (ReactiveCursor.hasChildren c (Some [name])) eqn:E;
      [|reflexivity].
    destruct (proj1 (Hnames [name]) E name (or_introl eq_refl))
      as (existing & Hin & r & Heq & Hr).
    destruct (Hall existing Hin) as [rest Hrest].
    rewrite Hrest in Heq. apply append_cancel_l in Heq. subst r.
    destruct Hr as [Hr|[[r' Hr]|Hr]].
    + discriminate.
    + simpl in Hr. injection Hr as Hr _. destruct (Ha Hr).
    + congruence.
Qed.

(** *** [getChildrenOf] *)

Lemma get_app (V : Type) (l1 l2 : JsMap.t V) (k : string) :
  JsMap.get (l1 ++ l2)%list k =
  match JsMap.get l1 k with Some v => Some v | None => JsMap.get l2 k end.
Proof.
  induction l1 as [|[k' v'] l1 IH]; simpl; [reflexivity|].
  now destruct (String.eqb k' k).
Qed.

(** The [forEach] that collects the entries under a prefix and strips
    the prefix from their keys: looking up [s] in the result is looking
    up [prefix ++ s] in the source. *)
Lemma prefix_fold_get (prefix : string) (l : JsMap.t ReactiveFileMetadata)
    (s : string) :
  JsMap.wf l ->
  JsMap.get
    (fold_left
       (fun subChildren (entry : string * ReactiveFileMetadata) =>
          let (path, file) := entry in
          if JsString.startsWith path prefix
          then JsMap.set subChildren
                 (JsString.substringFrom (String.length prefix) path) file
          else subChildren) l JsMap.empty) s
  = JsMap.get l (prefix ++ s).
Proof.
  induction l as [|[k f] l IH] using rev_ind; intros Hwf; [reflexivity|].
  assert (Hwfl : JsMap.wf l /\ ~ In k (JsMap.keys l)).
  { unfold JsMap.wf, JsMap.keys in *. rewrite map_app in Hwf. simpl in Hwf.
    split.
    - now apply NoDup_app_remove_r in Hwf.
    - apply NoDup_remove_2 in Hwf. now rewrite app_nil_r in Hwf. }
  destruct Hwfl as [Hwfl Hk].
  rewrite fold_left_app, get_app. simpl.
  destruct (JsString.startsWith k prefix) eqn:Es.
  - apply startsWith_inv in Es.
    set (r := JsString.substringFrom (String.length prefix) k) in *.
    rewrite get_set, (IH Hwfl).
    destruct (String.eqb_spec r s) as [->|Hne].
    + rewrite <- Es.
      apply get_None_keys in Hk. rewrite Hk.
      now rewrite String.eqb_refl.
    + destruct (String.eqb_spec k (prefix ++ s)) as [Heq|Hne'].
      * exfalso. apply Hne. rewrite Es in Heq.
        now apply append_cancel_l in Heq.
      * now destruct (JsMap.get l (prefix ++ s)).
  - rewrite (IH Hwfl).
    destruct (String.eqb_spec k (prefix ++ s)) as [Heq|Hne'].
    + rewrite Heq, startsWith_append in Es. discriminate.
    + now destruct (JsMap.get l (prefix ++ s)).
Qed.

Lemma getChildrenOf_get (c : ReactiveCursor.t) (childPath s : string) :
  JsMap.wf (ReactiveCursor.children c) ->
  JsMap.get (ReactiveCursor.getChildrenOf c childPath) s =
  JsMap.get (ReactiveCursor.children c)
    (ReactiveCursor.getChildrenOf_prefix childPath ++ s).
Proof. intros Hwf. now apply prefix_fold_get. Qed.

(** X16. [getChildrenOf] re-roots the children at a child folder: an entry
    is found under [s] exactly when the cursor has it under the child
    path, a separator and [s].  The separator is added whatever the end
    of the child path, so a child path given with its trailing separator
    is looked up under two separators; it is left out only when the
    child path starts with a separator. *)
Theorem getChildrenOf_reroots (c : ReactiveCursor.t)
    (childPath s : string) :
  JsMap.wf (ReactiveCursor.children c) ->
  (JsString.startsWith childPath "/" = false ->
   JsMap.get (ReactiveCursor.getChildrenOf c childPath) s =
   ReactiveCursor.getChildMetadata c (childPath ++ "/" ++ s)) /\
  (JsString.startsWith childPath "/" = true ->
   JsMap.get (ReactiveCursor.getChildrenOf c childPath) s =
   ReactiveCursor.getChildMetadata c (childPath ++ s)).
Proof.
  intros Hwf. unfold ReactiveCursor.getChildMetadata.
  rewrite getChildrenOf_get by assumption.
  unfold ReactiveCursor.getChildrenOf_prefix.
  split; intros ->; simpl; [|reflexivity].
  now rewrite append_assoc.
Qed.

Lemma endsWithChar_append (p s : string) (ch : ascii) :
  s <> "" ->
  JsString.endsWithChar (p ++ s) ch = JsString.endsWithChar s ch.
Proof.
  intros Hne. induction p as [|a p IH]; simpl; [reflexivity|].
  destruct (p ++ s) eqn:E; [|exact IH].
  destruct p; simpl in E; congruence.
Qed.

Lemma getChildrenOf_keys (c : ReactiveCursor.t) (childPath s : string) :
  JsMap.wf (ReactiveCursor.children c) ->
  In s (JsMap.keys (ReactiveCursor.getChildrenOf c childPath)) <->
  In (ReactiveCursor.getChildrenOf_prefix childPath ++ s)
     (JsMap.keys (ReactiveCursor.children c)).
Proof.
  intros Hwf.
  pose proof (getChildrenOf_get c childPath s Hwf) as Hget.
  pose proof (get_None_keys (ReactiveCursor.getChildrenOf c childPath) s)
    as H1.
  pose proof (get_None_keys (ReactiveCursor.children c)
                (ReactiveCursor.getChildrenOf_prefix childPath ++ s)) as H2.
  rewrite Hget in H1.
  destruct (in_dec string_dec s
              (JsMap.keys (ReactiveCursor.getChildrenOf c childPath)));
    destruct (in_dec string_dec
                (ReactiveCursor.getChildrenOf_prefix childPath ++ s)
                (JsMap.keys (ReactiveCursor.children c)));
    tauto.
Qed.

Lemma matchesChild_under (prefix name existing : string) :
  name <> "" ->
  matchesChild (prefix ++ name) existing <->
  exists s, existing = prefix ++ s /\ matchesChild name s.
Proof.
  intros Hne. unfold matchesChild.
  rewrite (endsWithChar_append prefix slash Hne). split.
  - intros (r & -> & H). exists (name ++ r). split.
    + apply append_assoc.
    + now exists r.
  - intros (s & -> & r & -> & H). exists r. split; [|exact H].
    symmetry. apply append_assoc.
Qed.

(** X17. [childHasChildren] agrees with [getChildrenOf]: for a child path
    that neither starts nor ends with a separator and names that are
    not empty, asking the cursor whether the child has the given
    grandchildren is running the loop of [hasChildren] over the keys of
    the children of that child. *)
Theorem childHasChildren_reads_getChildrenOf (c : ReactiveCursor.t)
    (childPath : string) (grandchildNames : list string) :
  JsMap.wf (ReactiveCursor.children c) ->
  JsString.startsWith childPath "/" = false ->
  JsString.endsWithChar childPath slash = false ->
  (forall name, In name grandchildNames -> name <> "") ->
  ReactiveCursor.childHasChildren c childPath grandchildNames =
  ReactiveCursor.hasChildren_loop
    (JsMap.keys (ReactiveCursor.getChildrenOf c childPath)) grandchildNames.
Proof.
  intros Hwf Hstart Hend Hnames.
  unfold ReactiveCursor.childHasChildren, ReactiveCursor.hasChildren,
    ReactiveCursor.childHasChildren_prefix.
  rewrite Hend. simpl negb. cbv iota.
  assert (Hp : ReactiveCursor.getChildrenOf_prefix childPath
               = childPath ++ "/").
  { unfold ReactiveCursor.getChildrenOf_prefix. now rewrite Hstart. }
  apply eq_true_iff_eq.
  rewrite !hasChildren_loop_iff. split.
  - intros H name Hin.
    apply hasChildren_foundMatch_iff.
    assert (Hin' : In ((childPath ++ "/") ++ name)
                     (map (fun name => (childPath ++ "/") ++ name)
                        grandchildNames))
      by (apply in_map_iff; eauto).
    apply H, hasChildren_foundMatch_iff in Hin'.
    destruct Hin' as (existing & He & Hm).
    apply (matchesChild_under _ _ (Hnames name Hin)) in Hm
      as (s & -> & Hm).
    exists s. split; [|exact Hm].
    apply getChildrenOf_keys; [assumption|]. now rewrite Hp.
  - intros H n Hin. apply in_map_iff in Hin as (name & <- & Hin).
    apply hasChildren_foundMatch_iff.
    pose proof (H name Hin) as Hf.
    apply hasChildren_foundMatch_iff in Hf.
    destruct Hf as (s & Hs & Hm).
    exists ((childPath ++ "/") ++ s). split.
    + apply getChildrenOf_keys in Hs; [|assumption]. now rewrite Hp in Hs.
    + apply (matchesChild_under _ _ (Hnames name Hin)). eauto.
Qed.

(** *** [deleteByPrefix] *)

Import ReactiveIndex.

Lemma deleteByPrefix_fold (prefix : string)
    (l : JsMap.t ReactiveFileMetadata) (acc : list string) :
  fold_left
    (fun allPromises (entry : string * ReactiveFileMetadata) =>
       if JsString.startsWith (fst entry) prefix
       then (allPromises ++ [fst entry])%list
       else allPromises) l acc
  = (acc ++ filter (fun k => JsString.startsWith k prefix) (JsMap.keys l))%list.
Proof.
  revert acc; induction l as [|[k f] l IH]; intros acc; simpl.
  - now rewrite app_nil_r.
  - rewrite IH. destruct (JsString.startsWith k prefix); [|reflexivity].
    now rewrite <- app_assoc.
Qed.

Lemma deleteByPrefix_In (prefix : string) (ix : t) (p : string) :
  In p (deleteByPrefix prefix ix) <->
  In p (JsMap.keys (files ix)) /\ JsString.startsWith p prefix = true.
Proof.
  unfold deleteByPrefix. rewrite deleteByPrefix_fold. cbn [app].
  apply (filter_In (fun k => JsString.startsWith k prefix)).
Qed.

Lemma _deleteFileInIndex_globalPrefix (path : string) (ix : t) :
  globalPrefix (fst (_deleteFileInIndex path ix)) = globalPrefix ix.
Proof.
  rewrite _deleteFileInIndex_eq. cbv zeta. cbn [fst].
  unfold _updateChildListeners.
  now destruct (fold_left _ _ _).
Qed.

Lemma afterEchoes_files (targets : list string) (ix : t) :
  files (afterEchoes targets ix) = fold_left (@JsMap.delete _) targets (files ix).
Proof.
  unfold afterEchoes.
  revert ix; induction targets as [|p rest IH]; intros ix; [reflexivity|].
  simpl fold_left. rewrite IH. f_equal.
  unfold _onReceivedPubSubDelete.
  rewrite substringFrom_append. apply _deleteFileInIndex_files.
Qed.

Lemma get_fold_delete (V : Type) (targets : list string) (m : JsMap.t V)
    (k : string) :
  JsMap.wf m ->
  JsMap.get (fold_left (@JsMap.delete V) targets m) k =
  if in_dec string_dec k targets then None else JsMap.get m k.
Proof.
  revert m; induction targets as [|p rest IH]; intros m Hwf; [reflexivity|].
  simpl fold_left. rewrite IH by now apply wf_delete.
  destruct (in_dec string_dec k rest) as [Hin|Hnin];
    destruct (in_dec string_dec k (p :: rest)) as [Hin'|Hnin'];
    try reflexivity.
  - exfalso. apply Hnin'. now right.
  - destruct Hin' as [->|Hin']; [|contradiction].
    now apply get_delete_eq.
  - apply get_delete_ne. intros ->. apply Hnin'. now left.
Qed.

(** X18. [deleteByPrefix] on the index asks for the deletion of exactly the
    indexed keys that start with the prefix, each once, in the order of
    the file map; when the delete events of these requests have come
    back, no key with the prefix is left and every other key is as it
    was. *)
Theorem deleteByPrefix_clears_the_prefix (prefix : string) (ix : t) :
  JsMap.wf (files ix) ->
  (forall p, In p (deleteByPrefix prefix ix) <->
             getMetadata ix p <> None /\ exists r, p = prefix ++ r) /\
  NoDup (deleteByPrefix prefix ix) /\
  (forall k,
     getMetadata (afterEchoes (deleteByPrefix prefix ix) ix) k =
     if JsString.startsWith k prefix then None else getMetadata ix k).
Proof.
  intros Hwf.
  assert (Hin : forall p, In p (deleteByPrefix prefix ix) <->
             getMetadata ix p <> None /\ exists r, p = prefix ++ r).
  { intros p. rewrite deleteByPrefix_In, <- startsWith_iff.
    unfold getMetadata.
    pose proof (get_None_keys (files ix) p) as Hk.
    destruct (in_dec string_dec p (JsMap.keys (files ix))); tauto. }
  split; [exact Hin|]. split.
  - unfold deleteByPrefix. rewrite deleteByPrefix_fold. cbn [app].
    apply NoDup_filter. exact Hwf.
  - intros k. unfold getMetadata at 1.
    rewrite afterEchoes_files, get_fold_delete by assumption.
    destruct (in_dec string_dec k (deleteByPrefix prefix ix)) as [Hk|Hk].
    + apply deleteByPrefix_In in Hk as [_ ->]. reflexivity.
    + destruct (JsString.startsWith k prefix) eqn:Es; [|reflexivity].
      destruct (JsMap.get (files ix) k) eqn:Eg; [|reflexivity].
      exfalso. apply Hk. apply deleteByPrefix_In. split; [|exact Es].
      eapply get_Some_keys. exact Eg.
Qed.

(** X19. [deleteByPrefix] on a cursor.  With a non-empty path and prefix the
    requests are for the children of the cursor whose relative name
    starts with the prefix, whether or not the name continues at a
    separator: deleting below ["trials/t1"] also takes what is below
    ["trials/t10"].  With the empty prefix the bare path is the prefix,
    without a separator, so the file at the path itself and the
    siblings whose names extend the path are taken too. *)
Theorem cursor_deleteByPrefix_targets (c : ReactiveCursor.t)
    (prefix : string) (h : ReactiveCursor.Heap) :
  JsMap.wf (files (h (ReactiveCursor.index c))) ->
  (prefix <> "" -> ReactiveCursor.path c <> "" ->
   forall p,
     In p (ReactiveCursor.deleteByPrefix c prefix h) <->
     exists name,
       p = folderPrefix (ReactiveCursor.path c) ++ name /\
       JsString.startsWith name prefix = true /\
       JsMap.get (getChildren (h (ReactiveCursor.index c))
                    (ReactiveCursor.path c)) name <> None) /\
  (prefix = "" ->
   forall p,
     In p (ReactiveCursor.deleteByPrefix c prefix h) <->
     getMetadata (h (ReactiveCursor.index c)) p <> None /\
     JsString.startsWith p (ReactiveCursor.path c) = true).
Proof.
  intros Hwf.
  set (ix := h (ReactiveCursor.index c)) in *.
  assert (Hkeys : forall p, In p (JsMap.keys (files ix)) <->
                            getMetadata ix p <> None).
  { intros p. unfold getMetadata.
    pose proof (get_None_keys (files ix) p) as Hk.
    destruct (in_dec string_dec p (JsMap.keys (files ix))); tauto. }
  split.
  - intros Hprefix Hpath p.
    unfold ReactiveCursor.deleteByPrefix,
      ReactiveCursor.deleteByPrefix_totalPrefix.
    fold ix.
    assert (H1 : (0 <? String.length (ReactiveCursor.path c))%nat = true)
      by (destruct (ReactiveCursor.path c); [congruence | reflexivity]).
    assert (H2 : (0 <? String.length prefix)%nat = true)
      by (destruct prefix; [congruence | reflexivity]).
    rewrite H1, H2. simpl andb. cbv iota.
    rewrite ensurePathEndsWithSlash_folderPrefix, deleteByPrefix_In.
    rewrite Hkeys, startsWith_iff. split.
    + intros [Hget [r ->]]. rewrite append_assoc in *.
      exists (prefix ++ r). split; [reflexivity|].
      split; [apply startsWith_append|].
      rewrite getChildren_get by assumption.
      destruct (String.eqb_spec (prefix ++ r) "") as [He|_].
      * destruct prefix; [congruence | discriminate].
      * exact Hget.
    + intros (name & -> & Hs & Hget).
      rewrite getChildren_get in Hget by assumption.
      destruct (String.eqb_spec name ""); [congruence|].
      split; [exact Hget|].
      apply startsWith_iff in Hs as [r ->]. exists r.
      symmetry. apply append_assoc.
  - intros -> p.
    unfold ReactiveCursor.deleteByPrefix,
      ReactiveCursor.deleteByPrefix_totalPrefix.
    fold ix. simpl String.length. rewrite andb_false_r, append_nil_r.
    now rewrite deleteByPrefix_In, Hkeys.
Qed.

End BelowTheCursor.

(** * Further properties: the status a cursor shows *)

Section StatusMirror.

Import ReactiveIndex.

Variable localeCompare : string -> string -> comparison.

Lemma receiveAll_loading_calls (v : bool) (ls : list Listener)
    (c : ReactiveCursor.t) :
  ReactiveCursor.loading
    (ReactiveCursor.receiveAll (map (fun l => LoadingListenerCall l v) ls) c)
  = if in_dec Nat.eq_dec (ReactiveCursor.self c) ls then v
    else ReactiveCursor.loading c.
Proof.
  revert c; induction ls as [|x ls IH]; intros c; [reflexivity|].
  change (ReactiveCursor.receiveAll
            (map (fun l => LoadingListenerCall l v) (x :: ls)) c)
    with (ReactiveCursor.receiveAll
            (map (fun l => LoadingListenerCall l v) ls)
            (ReactiveCursor.receive (LoadingListenerCall x v) c)).
  rewrite IH. simpl ReactiveCursor.receive.
  destruct (Nat.eqb_spec x (ReactiveCursor.self c)) as [->|Hne]; simpl.
  - destruct (Nat.eq_dec _ _); [|congruence].
    now destruct (in_dec _ _ _).
  - destruct (Nat.eq_dec x _); [congruence|].
    now destruct (in_dec _ _ _).
Qed.

Lemma receiveAll_error_calls (errors : list string) (ls : list Listener)
    (c : ReactiveCursor.t) :
  ReactiveCursor.networkErrors
    (ReactiveCursor.receiveAll
       (map (fun l => NetworkErrorListenerCall l errors) ls) c)
  = if in_dec Nat.eq_dec (ReactiveCursor.self c) ls then errors
    else ReactiveCursor.networkErrors c.
Proof.
  revert c; induction ls as [|x ls IH]; intros c; [reflexivity|].
  change (ReactiveCursor.receiveAll
            (map (fun l => NetworkErrorListenerCall l errors) (x :: ls)) c)
    with (ReactiveCursor.receiveAll
            (map (fun l => NetworkErrorListenerCall l errors) ls)
            (ReactiveCursor.receive (NetworkErrorListenerCall x errors) c)).
  rewrite IH. simpl ReactiveCursor.receive.
  destruct (Nat.eqb_spec x (ReactiveCursor.self c)) as [->|Hne]; simpl.
  - destruct (Nat.eq_dec _ _); [|congruence].
    now destruct (in_dec _ _ _).
  - destruct (Nat.eq_dec x _); [congruence|].
    now destruct (in_dec _ _ _).
Qed.

Lemma messagesDiffer_false (a b : list string) :
  messagesDiffer a b = false -> a = b.
Proof.
  unfold messagesDiffer. now destruct (list_eq_dec string_dec a b).
Qed.

(** X20. A cursor whose status callbacks are registered with an index, and
    which shows the loading flag and the error messages of that index,
    still shows them after the index changes its loading flag, raises
    an error or clears one: the listeners are called only when the
    value changes, and then with the new value. *)
Theorem cursor_status_mirrors_the_index (c : ReactiveCursor.t) (ix : t) :
  In (ReactiveCursor.self c) (loadingListeners ix) ->
  In (ReactiveCursor.self c) (networkErrorListeners ix) ->
  ReactiveCursor.getIsLoading c = getIsLoading ix ->
  ReactiveCursor.networkErrors c = getNetworkErrorMessages localeCompare ix ->
  (forall v,
     ReactiveCursor.getIsLoading
       (ReactiveCursor.receiveAll (snd (setIsLoading v ix)) c)
     = getIsLoading (fst (setIsLoading v ix)) /\
     getIsLoading (fst (setIsLoading v ix)) = v) /\
  (forall errKey value,
     ReactiveCursor.networkErrors
       (ReactiveCursor.receiveAll
          (snd (setNetworkError localeCompare errKey value ix)) c)
     = getNetworkErrorMessages localeCompare
         (fst (setNetworkError localeCompare errKey value ix))) /\
  (forall errKey,
     ReactiveCursor.networkErrors
       (ReactiveCursor.receiveAll
          (snd (clearNetworkError localeCompare errKey ix)) c)
     = getNetworkErrorMessages localeCompare
         (fst (clearNetworkError localeCompare errKey ix))).
Proof.
  unfold ReactiveCursor.getIsLoading, getIsLoading.
  intros Hl He Hload Herr. split; [|split].
  - intros v. unfold setIsLoading.
    destruct (Bool.eqb v (loading ix)) eqn:E; simpl.
    + apply Bool.eqb_prop in E. split; congruence.
    + rewrite receiveAll_loading_calls.
      destruct (in_dec Nat.eq_dec _ _); [auto | contradiction].
  - intros errKey value. unfold setNetworkError.
    destruct (messagesDiffer _ _) eqn:E; cbn [fst snd].
    + rewrite receiveAll_error_calls.
      destruct (in_dec Nat.eq_dec _ _); [reflexivity | contradiction].
    + apply messagesDiffer_false in E.
      change (ReactiveCursor.receiveAll [] c) with c. congruence.
  - intros errKey. unfold clearNetworkError.
    destruct (messagesDiffer _ _) eqn:E; cbn [fst snd].
    + rewrite receiveAll_error_calls.
      destruct (in_dec Nat.eq_dec _ _); [reflexivity | contradiction].
    + apply messagesDiffer_false in E.
      change (ReactiveCursor.receiveAll [] c) with c. congruence.
Qed.

(** X21. The status callbacks are registered once, by the constructor, and
    never moved.  A new cursor is registered for the loading flag and
    the errors of its index; it copies the loading flag but starts
    without error messages, whatever the index holds.  [setIndex] moves
    the metadata and children callbacks only: the cursor's flag and
    messages are not re-read, the new index gets no status callback,
    and a change of the loading flag or of the errors of the new index
    does not reach a cursor that was not built on it. *)
Theorem status_callbacks_stay_on_the_first_index :
  (forall self_ ref path0 (h : ReactiveCursor.Heap),
     let c := fst (ReactiveCursor.create self_ ref path0 h) in
     let ix := snd (ReactiveCursor.create self_ ref path0 h) ref in
     In self_ (loadingListeners ix) /\
     In self_ (networkErrorListeners ix) /\
     ReactiveCursor.getIsLoading c = getIsLoading ix /\
     ReactiveCursor.hasNetworkErrors c = false) /\
  (forall c (h : ReactiveCursor.Heap) newIndex,
     let c' := fst (fst (ReactiveCursor.setIndex newIndex c h)) in
     let ix := snd (fst (ReactiveCursor.setIndex newIndex c h)) newIndex in
     ~ In (ReactiveCursor.self c) (loadingListeners (h newIndex)) ->
     ~ In (ReactiveCursor.self c) (networkErrorListeners (h newIndex)) ->
     forall v errKey value,
       ReactiveCursor.getIsLoading
         (ReactiveCursor.receiveAll (snd (setIsLoading v ix)) c')
       = ReactiveCursor.getIsLoading c /\
       ReactiveCursor.networkErrors
         (ReactiveCursor.receiveAll
            (snd (setNetworkError localeCompare errKey value ix)) c')
       = ReactiveCursor.networkErrors c).
Proof.
  split.
  - intros self_ ref path0 h. cbv zeta.
    unfold ReactiveCursor.create. cbn [fst snd]. rewrite store_same.
    cbn. repeat split; apply in_or_app; right; now left.
  - intros c h newIndex. cbv zeta. intros Hl He v errKey value.
    assert (Hframe :
      let c' := fst (fst (ReactiveCursor.setIndex newIndex c h)) in
      let ix := snd (fst (ReactiveCursor.setIndex newIndex c h)) newIndex in
      loadingListeners ix = loadingListeners (h newIndex) /\
      networkErrorListeners ix = networkErrorListeners (h newIndex) /\
      ReactiveCursor.self c' = ReactiveCursor.self c /\
      ReactiveCursor.loading c' = ReactiveCursor.loading c /\
      ReactiveCursor.networkErrors c' = ReactiveCursor.networkErrors c).
    { cbv zeta. destruct (Nat.eq_dec newIndex (ReactiveCursor.index c))
        as [->|Hne].
      - rewrite (proj2 (repoint_noop c h)). cbn [fst snd]. auto.
      - destruct (@setIndex_protocol newIndex c h Hne)
          as (_ & _ & _ & _ & _ & Hnew & _).
        cbv zeta in Hnew. rewrite Hnew.
        unfold ReactiveCursor.setIndex.
        apply Nat.eqb_neq in Hne. rewrite Hne. cbn. auto. }
    cbv zeta in Hframe.
    destruct Hframe as (El & Ee & Es & Eload & Eerr).
    unfold ReactiveCursor.getIsLoading. split.
    + unfold setIsLoading.
      destruct (negb _); cbn [snd]; [|exact Eload].
      change (loadingListeners (with_loading v _))
        with (loadingListeners
                (snd (fst (ReactiveCursor.setIndex newIndex c h)) newIndex)).
      rewrite receiveAll_loading_calls, Es, El.
      destruct (in_dec Nat.eq_dec _ _); [contradiction | exact Eload].
    + unfold setNetworkError.
      destruct (messagesDiffer _ _); cbn [snd]; [|exact Eerr].
      change (networkErrorListeners (with_networkErrors _ _))
        with (networkErrorListeners
                (snd (fst (ReactiveCursor.setIndex newIndex c h)) newIndex)).
      rewrite receiveAll_error_calls, Es, Ee.
      destruct (in_dec Nat.eq_dec _ _); [contradiction | exact Eerr].
Qed.

End StatusMirror.

(** * Further properties: the documents of a cursor *)

Section OwnedDocuments.

(** X22. [getJsonFile] creates a document once.  The first request for a
    path builds the document, asks for its text when the cursor has a
    child of that name and not otherwise, and records it under the
    path; any later request returns the recorded document, changes
    nothing and asks for nothing.  The other documents of the cursor
    are not touched. *)
Theorem getJsonFile_creates_once (docPath : string) (c : ReactiveCursor.t) :
  let c1 := fst (fst (ReactiveCursor.getJsonFile docPath c)) in
  let file1 := snd (fst (ReactiveCursor.getJsonFile docPath c)) in
  let effects1 := snd (ReactiveCursor.getJsonFile docPath c) in
  ReactiveCursor.getJsonFile docPath c1 = (c1, file1, []) /\
  JsMap.get (ReactiveCursor.jsonFiles c1) docPath = Some file1 /\
  (forall other, other <> docPath ->
     JsMap.get (ReactiveCursor.jsonFiles c1) other =
     JsMap.get (ReactiveCursor.jsonFiles c) other) /\
  (JsMap.get (ReactiveCursor.jsonFiles c) docPath = None ->
   ReactiveJsonFile.path file1 = docPath /\
   ReactiveJsonFile.values file1 = JsMap.empty /\
   effects1 =
     if ReactiveCursor.getExists c (Some docPath)
     then [DownloadText (ReactiveCursor.index c)
             (ensurePathEndsWithSlash (ReactiveCursor.path c) ++ docPath)]
     else []) /\
  (JsMap.get (ReactiveCursor.jsonFiles c) docPath <> None ->
   c1 = c /\ effects1 = []).
Proof.
  cbv zeta. unfold ReactiveCursor.getJsonFile at 2 3 4 5 6 7 8 9 10.
  destruct (JsMap.get (ReactiveCursor.jsonFiles c) docPath) as [file|] eqn:E.
  - cbn [fst snd]. unfold ReactiveCursor.getJsonFile. rewrite E.
    repeat split; auto; discriminate.
  - unfold ReactiveJsonFile.pathChanged, ReactiveJsonFile.fileExist,
      ReactiveCursor.getExists.
    cbn [ReactiveJsonFile.path].
    destruct (JsMap.get (ReactiveCursor.children c) docPath);
      cbn [fst snd]; unfold ReactiveCursor.getJsonFile;
      cbn [ReactiveCursor.jsonFiles]; rewrite get_set_eq;
      (split; [reflexivity|]); (split; [reflexivity|]);
      (split; [intros other Hne; apply get_set_ne; congruence|]);
      (split; [intros _; repeat split; reflexivity | congruence]).
Qed.

End OwnedDocuments.

(** * Worked examples of the further properties *)

Lemma twoIndexes_wf : index_wf (twoIndexes 0).
Proof.
  split; [|split; [|split]].
  - unfold JsMap.wf. simpl. repeat constructor; simpl; intuition discriminate.
  - unfold JsMap.wf. simpl. repeat constructor; simpl; tauto.
  - unfold JsMap.wf. simpl. repeat constructor; simpl; tauto.
  - intros path snapshot H. simpl in H. discriminate.
Defined.

Lemma subjectCursor_attached :
  attached subjectCursor (twoIndexes 0).
Proof.
  split; (split; [simpl; auto|]);
    intros k ls [[= <- <-]|[]]; reflexivity.
Defined.

Lemma notedCursor_attached : attached notedCursor notedIndex.
Proof.
  split; (split; [simpl; auto|]);
    intros k ls [[= <- <-]|[]]; reflexivity.
Defined.

Lemma trialsHeap_wf : JsMap.wf (ReactiveIndex.files (trialsHeap 0)).
Proof.
  unfold JsMap.wf. simpl. repeat constructor; simpl; intuition discriminate.
Defined.

Lemma trialsCursor_wf : JsMap.wf (ReactiveCursor.children trialsCursor).
Proof.
  unfold JsMap.wf. vm_compute.
  repeat constructor; simpl; intuition discriminate.
Defined.

(** A refresh drops the unlisted ["b.txt"], takes the newer listed
    version of ["a/x.txt"] and adds the listed ["c.txt"]. *)
Lemma fullRefresh_reconciles_witness :
  let refreshed :=
    fst (fst (ReactiveIndex.fullRefresh String.compare
                (Fulfilled exampleListing) exampleIndex)) in
  ReactiveIndex.getMetadata refreshed "b.txt" = None /\
  ReactiveIndex.getMetadata refreshed "a/x.txt" =
    Some {| key := "a/x.txt"; lastModified := 5; size := 4 |} /\
  ReactiveIndex.getMetadata refreshed "c.txt" =
    Some {| key := "c.txt"; lastModified := 6; size := 1 |}.
Proof.
  cbv zeta.
  pose proof (proj1 (@fullRefresh_reconciles String.compare exampleIndex
                       exampleListing exampleIndex_wf)) as H.
  split; [|split].
  - exact (H "b.txt").
  - exact (H "a/x.txt").
  - exact (H "c.txt").
Defined.

(** Moving the subject cursor to another folder leaves one listener of
    each kind on its index. *)
Lemma repointing_keeps_listener_counts_witness :
  ReactiveIndex.getNumMetadataListeners
    (snd (fst (ReactiveCursor.setPath "t" subjectCursor twoIndexes)) 0) = 1 /\
  ReactiveIndex.getNumChildrenListeners
    (snd (fst (ReactiveCursor.setPath "t" subjectCursor twoIndexes)) 0) = 1.
Proof.
  exact (proj1 (@repointing_keeps_listener_counts subjectCursor twoIndexes
                  (or_introl eq_refl) (or_introl eq_refl)) "t").
Defined.

(** After the delete event of the subject document the cursor on ["s"]
    no longer lists it and still lists the notes. *)
Lemma cursor_follows_socket_messages_witness :
  let c' :=
    ReactiveCursor.receiveAll
      (snd (ReactiveIndex.onSocketMessage (DeletePayload "s/_subject.json")
              notedIndex)) notedCursor in
  ReactiveCursor.getChildMetadata c' "_subject.json" = None /\
  ReactiveCursor.getChildMetadata c' "notes.txt" =
    Some {| key := "s/notes.txt"; lastModified := 5000; size := 5 |}.
Proof.
  cbv zeta.
  assert (Hwf : index_wf notedIndex)
    by (apply onSocketMessage_wf, twoIndexes_wf).
  assert (Hsync : inSync notedCursor notedIndex)
    by (split; [reflexivity | intros k; reflexivity]).
  assert (Hsnap : JsMap.get (ReactiveIndex.childrenLastNotified notedIndex)
                    (ReactiveCursor.path notedCursor) <> None)
    by (vm_compute; discriminate).
  pose proof (proj2 (proj1 (@cursor_follows_socket_messages notedCursor
                              notedIndex (DeletePayload "s/_subject.json")
                              Hwf notedCursor_attached Hsync Hsnap))) as H.
  split.
  - exact (H "_subject.json").
  - exact (H "notes.txt").
Defined.

(** The subject cursor was registered after the last diffing pass.
    When the only file under ["s"] is deleted, the index has no child
    left under ["s"] and the cursor still shows the document. *)
Lemma emptying_before_first_pass_is_missed_witness :
  let r := ReactiveIndex.onSocketMessage (DeletePayload "s/_subject.json")
             (twoIndexes 0) in
  ReactiveIndex.getChildren (fst r) "s" = [] /\
  ReactiveCursor.getChildMetadata
    (ReactiveCursor.receiveAll (snd r) subjectCursor) "_subject.json"
  = Some (subjectRecord 1000 20).
Proof.
  cbv zeta. split; [reflexivity|].
  unfold ReactiveCursor.getChildMetadata.
  rewrite (proj1 (@emptying_before_first_pass_is_missed subjectCursor
                    (twoIndexes 0) (DeletePayload "s/_subject.json")
                    (proj1 (proj2 (proj2 twoIndexes_wf)))
                    (proj2 subjectCursor_attached) eq_refl eq_refl)).
  reflexivity.
Defined.

(** The children of the trials folder, seen from the subject. *)
Lemma getChildrenOf_reroots_witness :
  JsMap.get (ReactiveCursor.getChildrenOf trialsCursor "trials") "t1/a.c3d"
  = Some (trialFile "subj/trials/t1/a.c3d" 200 30).
Proof.
  exact (proj1 (@getChildrenOf_reroots trialsCursor "trials" "t1/a.c3d"
                  trialsCursor_wf) eq_refl).
Defined.

Lemma childHasChildren_reads_getChildrenOf_witness :
  ReactiveCursor.childHasChildren trialsCursor "trials" ["t1"; "t10"] = true.
Proof.
  rewrite (@childHasChildren_reads_getChildrenOf trialsCursor "trials"
             ["t1"; "t10"] trialsCursor_wf eq_refl eq_refl).
  - reflexivity.
  - intros name [<-|[<-|[]]]; discriminate.
Defined.

(** Deleting by the prefix ["a/"] empties the folder and keeps the
    file beside it. *)
Lemma deleteByPrefix_clears_the_prefix_witness :
  let ix' :=
    afterEchoes (ReactiveIndex.deleteByPrefix "a/" exampleIndex) exampleIndex
  in
  ReactiveIndex.getMetadata ix' "a/x.txt" = None /\
  ReactiveIndex.getMetadata ix' "a/y.txt" = None /\
  ReactiveIndex.getMetadata ix' "b.txt" =
    Some {| key := "b.txt"; lastModified := 3; size := 8 |}.
Proof.
  cbv zeta.
  pose proof (proj2 (proj2 (@deleteByPrefix_clears_the_prefix "a/"
                              exampleIndex exampleIndex_wf))) as H.
  split; [|split].
  - exact (H "a/x.txt").
  - exact (H "a/y.txt").
  - exact (H "b.txt").
Defined.

(** Deleting the trial ["t1"] by prefix, as the subject page does,
    also asks for the deletion of what is below the trial ["t10"]. *)
Lemma cursor_deleteByPrefix_targets_witness :
  In "subj/trials/t10/a.c3d"
     (ReactiveCursor.deleteByPrefix trialsCursor "trials/t1" trialsHeap).
Proof.
  apply (proj1 (@cursor_deleteByPrefix_targets trialsCursor "trials/t1"
                  trialsHeap trialsHeap_wf)
           ltac:(discriminate) ltac:(discriminate)).
  exists "trials/t10/a.c3d". split; [reflexivity|].
  split; [reflexivity | discriminate].
Defined.

(** A cursor built on the example index learns of a download error. *)
Lemma cursor_status_mirrors_the_index_witness :
  let c := fst (ReactiveCursor.create 9 0 "a" (fun _ => exampleIndex)) in
  let ix := snd (ReactiveCursor.create 9 0 "a" (fun _ => exampleIndex)) 0 in
  ReactiveCursor.networkErrors
    (ReactiveCursor.receiveAll
       (snd (ReactiveIndex.setNetworkError String.compare "Get"
               "We got an error trying to download a file!" ix)) c)
  = ["We got an error trying to download a file!"].
Proof.
  cbv zeta.
  exact (proj1 (proj2
    (@cursor_status_mirrors_the_index String.compare
       (fst (ReactiveCursor.create 9 0 "a" (fun _ => exampleIndex)))
       (snd (ReactiveCursor.create 9 0 "a" (fun _ => exampleIndex)) 0)
       (or_introl eq_refl) (or_introl eq_refl) eq_refl eq_refl))
    "Get" "We got an error trying to download a file!").
Defined.
